(** * CwMcuSensor: the event decoding and dispatch core of the sensor-hub HAL

    A shallow embedding of [sensor_hub/libsensors/CwMcuSensor.cpp].

    - C++ [int], [int16_t], [int64_t], [uint32_t] values are integers in [Z];
      every narrowing or reinterpretation is written out.
    - C++ [float] is IEEE-754 binary32, taken from the Standard Library's
      executable [SpecFloat] at precision 24.  Where a statement compares a
      [float] with a real quantity, it reads the float through [toQ], the
      rational number it stands for.
    - The driver object (its members and the file-level global
      [fill_block_debug]) is a record threaded through a state monad.
    - Array indexing is checked: an index outside the table, or a shift
      count outside the word, stops the run with a [fault], which is how the
      model renders C++ undefined behaviour.
    - The outside world (clock, sysfs files, system properties, the IIO
      character device) is an oracle [Env]; every interaction with it is
      appended to a trace kept in the state.
    - Logging ([ALOGx]) has no effect on the driver and is left out, and so
      is [sys_fs_mutex]: the model is sequential and every function that
      takes the mutex releases it before it returns.
    - The file-level helpers [chomp] and [find_type_by_name] and the
      calibration files are modelled on text: a C string is a [string]
      without NUL, the files are a finite map from paths to contents, and
      [%d] is what [printf] writes and [scanf] reads by the C standard.
      There the result [None] renders undefined behaviour. *)

From Stdlib Require Import ZArith List String Ascii Bool Lia.
From Stdlib Require Import Floats.SpecFloat.
From Stdlib Require Import Decimal DecimalString DecimalZ DecimalPos.
From Stdlib Require Import QArith Qabs Qpower Lqa.
From stdpp Require Import base list strings gmap.

Local Open Scope Z_scope.

(** ** Machine integers *)

Module Int.

(** Conversion to an unsigned type of [w] bits. *)
Definition unsigned (w z : Z) : Z := z mod 2 ^ w.

(** Conversion to (or reinterpretation as) a signed type of [w] bits. *)
Definition signed (w z : Z) : Z :=
  let u := unsigned w z in
  if u <? 2 ^ (w - 1) then u else u - 2 ^ w.

Definition uint32 : Z -> Z := unsigned 32.
Definition int32 : Z -> Z := signed 32.
Definition int16 : Z -> Z := signed 16.
Definition int64 : Z -> Z := signed 64.

(** [size_t], taken 64 bits wide.  The driver only compares a [size_t] with
    9, so any width from 16 bits on gives the same results. *)
Definition size_t : Z -> Z := unsigned 64.

Lemma unsigned_range w z : 0 < w -> 0 <= unsigned w z < 2 ^ w.
Proof.
  intros Hw. unfold unsigned. apply Z.mod_pos_bound.
  apply Z.pow_pos_nonneg; lia.
Qed.

Lemma uint32_minus_one : uint32 (-1) = 4294967295.
Proof. reflexivity. Qed.

Lemma uint32_small z : 0 <= z < 2 ^ 32 -> uint32 z = z.
Proof. intros Hz. unfold uint32, unsigned. now apply Z.mod_small. Qed.

End Int.

(** ** Single-precision floats *)

Module F32.

Definition prec : Z := 24.
Definition emax : Z := 128.

Definition float : Type := spec_float.

(** Conversion of an integer to [float] (round to nearest even). *)
Definition of_Z (z : Z) : float := binary_normalize prec emax z 0 false.

Definition zero : float := S754_zero false.
Definition one : float := of_Z 1.

Definition mul : float -> float -> float := SFmul prec emax.
Definition sub : float -> float -> float := SFsub prec emax.

(** [x > y] *)
Definition gtb (x y : float) : bool := SFltb y x.
Definition ltb (x y : float) : bool := SFltb x y.
Definition eqb (x y : float) : bool := SFeqb x y.

Definition is_nan (x : float) : bool :=
  match x with S754_nan => true | _ => false end.

(** [(float)sqrt(x)]: the argument is widened to [double] (exactly),
    the root is taken in binary64 and the result rounded back to binary32. *)
Definition of_double (d : spec_float) : float :=
  match d with
  | S754_finite s m e => binary_round prec emax s m e
  | _ => d
  end.

Definition sqrt (x : float) : float := of_double (SFsqrt 53 1024 x).

Example of_Z_2600 : of_Z 2600 = S754_finite false 10649600 (-12).
Proof. reflexivity. Qed.

Example sqrt_4 : sqrt (of_Z 4) = of_Z 2.
Proof. reflexivity. Qed.

Example sqrt_2 : sqrt (of_Z 2) = S754_finite false 11863283 (-23).
Proof. reflexivity. Qed.

Example sqrt_neg : sqrt (of_Z (-4)) = S754_nan.
Proof. reflexivity. Qed.

End F32.

Abbreviation float := F32.float.

(** ** The constants of [CwMcuSensor.h]

    The header that declares the [CW_SENSORS_ID] enumeration, the sensor
    handles [ID_x], [numSensors] and the scaling macros is not part of the
    sources at hand.  Its names are kept as constructors and its values are
    the fields of [Header]; every definition and theorem below is
    parametric in them. *)

(** The enumerators of [CW_SENSORS_ID] that the driver mentions. *)
Inductive CW_SENSORS_ID : Type :=
| CW_ACCELERATION
| CW_MAGNETIC
| CW_GYRO
| CW_LIGHT
| CW_PRESSURE
| CW_ORIENTATION
| CW_ROTATIONVECTOR
| CW_LINEARACCELERATION
| CW_GRAVITY
| CW_MAGNETIC_UNCALIBRATED
| CW_GYROSCOPE_UNCALIBRATED
| CW_GAME_ROTATION_VECTOR
| CW_GEOMAGNETIC_ROTATION_VECTOR
| CW_SIGNIFICANT_MOTION
| CW_STEP_DETECTOR
| CW_STEP_COUNTER
| HTC_WAKE_UP_GESTURE
| CW_META_DATA
| CW_SYNC_ACK
| TIME_DIFF_EXHAUSTED.

(** The sensor handles of the framework ABI. *)
Inductive SensorHandle : Type :=
| ID_A
| ID_M
| ID_GY
| ID_L
| ID_PS
| ID_O
| ID_RV
| ID_LA
| ID_G
| ID_CW_MAGNETIC_UNCALIBRATED
| ID_CW_GYROSCOPE_UNCALIBRATED
| ID_CW_GAME_ROTATION_VECTOR
| ID_CW_GEOMAGNETIC_ROTATION_VECTOR
| ID_CW_SIGNIFICANT_MOTION
| ID_CW_STEP_DETECTOR
| ID_CW_STEP_COUNTER
| ID_WAKE_UP_GESTURE.

(** The values the header gives to those names.  The two injectivity fields
    are what the compiler enforces: the [switch] of [processEvent] has one
    [case] label per enumerator and the one of [find_sensor] one per handle,
    and duplicate labels do not compile. *)
Record Header : Type := {
  tag : CW_SENSORS_ID -> Z;
  handle : SensorHandle -> Z;
  numSensors : Z;
  CW_SENSORS_ID_END : Z;
  TIMESTAMP_SYNC_CODE : Z;
  CONVERT_10 : float;
  CONVERT_100 : float;
  CONVERT_10000 : float;
  SAVE_PATH_MAG : string;
  tag_inj : forall a b, tag a = tag b -> a = b;
  handle_inj : forall a b, handle a = handle b -> a = b
}.

(** Constants of this translation unit and of the system headers it uses. *)
Definition LIGHTSENSOR_LEVEL : Z := 10.
Definition NS_PER_MS : Z := 1000000.
Definition SYNC_ACK_MAGIC : Z := 102.    (* 0x66 *)
Definition EXHAUSTED_MAGIC : Z := 119.   (* 0x77 *)
Definition IIO_MAX_BUFF_SIZE : Z := 1024.
Definition IIO_MAX_DATA_SIZE : Z := 24.

(** <errno.h> *)
Definition ENOENT : Z := 2.
Definition EIO : Z := 5.
Definition EACCES : Z := 13.
Definition EINVAL : Z := 22.

(** <hardware/sensors.h> *)
Definition META_DATA_FLUSH_COMPLETE : Z := 1.
Definition SENSORS_BATCH_DRY_RUN : Z := 1.
Definition SENSORS_BATCH_WAKE_UPON_FIFO_FULL : Z := 2.

(** ** Output events and pending samples *)

(** [sensors_event_t].  The payload of the C struct is a union: [light] and
    [pressure] are other names of [data[0]] and are written here as
    [data[0]].  [orientation.status] (the same byte as [magnetic.status]) is
    the first byte of [data[3]], and [u64.step_counter] and [meta_data] lie
    over [data[0..1]]; the record keeps them as fields of their own and does
    not render the overlap.  After a write to [data[3]] the field [status]
    of the record is therefore not the byte the C code would read, and
    likewise for [step_counter], [meta_what] and [meta_sensor] against
    [data[0]] and [data[1]], in both directions. *)
Record sensors_event_t : Type := mkEvent {
  version : Z;
  sensor : Z;
  type : Z;
  timestamp : Z;
  data : list float;
  status : Z;
  step_counter : Z;
  meta_what : Z;
  meta_sensor : Z
}.

Definition set_timestamp (t : Z) (e : sensors_event_t) : sensors_event_t :=
  mkEvent (version e) (sensor e) (type e) t (data e) (status e)
          (step_counter e) (meta_what e) (meta_sensor e).

(** [e.data[i] = v] *)
Definition set_data (i : nat) (v : float) (e : sensors_event_t) : sensors_event_t :=
  mkEvent (version e) (sensor e) (type e) (timestamp e) (<[i := v]> (data e))
          (status e) (step_counter e) (meta_what e) (meta_sensor e).

Definition set_status (s : Z) (e : sensors_event_t) : sensors_event_t :=
  mkEvent (version e) (sensor e) (type e) (timestamp e) (data e) s
          (step_counter e) (meta_what e) (meta_sensor e).

Definition set_step_counter (c : Z) (e : sensors_event_t) : sensors_event_t :=
  mkEvent (version e) (sensor e) (type e) (timestamp e) (data e) (status e)
          c (meta_what e) (meta_sensor e).

Definition set_meta_what (w : Z) (e : sensors_event_t) : sensors_event_t :=
  mkEvent (version e) (sensor e) (type e) (timestamp e) (data e) (status e)
          (step_counter e) w (meta_sensor e).

Definition set_meta_sensor (h : Z) (e : sensors_event_t) : sensors_event_t :=
  mkEvent (version e) (sensor e) (type e) (timestamp e) (data e) (status e)
          (step_counter e) (meta_what e) h.

(** [e.data[i]]; the array has 16 entries and the driver reads entries 0 to 2. *)
Definition get_data (i : nat) (e : sensors_event_t) : float :=
  nth i (data e) F32.zero.

(** ** Input records *)

(** One record of the IIO stream ([cw_event::data], 24 bytes). *)
Definition cw_event : Type := list Z.

(** [event[i]] as a [uint8_t]. *)
Definition byte_at (ev : cw_event) (i : nat) : Z := nth i ev 0 mod 256.

(** Little-endian load of [n] bytes starting at offset [i], unsigned. *)
Fixpoint load_le (ev : cw_event) (i n : nat) : Z :=
  match n with
  | O => 0
  | S n' => byte_at ev i + 256 * load_le ev (S i) n'
  end.

(** The fields [processEvent] copies out of a record with [memcpy]. *)
Definition ev_id (ev : cw_event) : Z := byte_at ev 0.
Definition ev_data (ev : cw_event) (k : nat) : Z := Int.int16 (load_le ev (1 + 2 * k) 2).
Definition ev_bias (ev : cw_event) (k : nat) : Z := Int.int16 (load_le ev (7 + 2 * k) 2).
Definition ev_time (ev : cw_event) : Z := Int.int64 (load_le ev 13 8).

(** [*(uint32_t * )&data[0]] and [*(int32_t * )&data[0]]: the first two 16-bit
    values read as one 32-bit word. *)
Definition ev_data_u32 (ev : cw_event) : Z := load_le ev 1 4.
Definition ev_data_i32 (ev : cw_event) : Z := Int.int32 (load_le ev 1 4).

(** ** The outside world *)

(** What is written to a control file: integers printed in decimal by
    [snprintf], or a string. *)
Inductive payload : Type :=
| Ints (vs : list Z)
| Text (t : string).

(** What the driver asks of its environment, in the order it asks. *)
Inductive io_call : Type :=
| IoClock                                        (* getTimestamp() *)
| IoProperty (name : string)                     (* property_get + atoi *)
| IoOpen (path : string)                         (* open(2) *)
| IoWrite (path : string) (buf : payload)        (* write(2), then close(2) *)
| IoFill                                         (* mInputReader.fill(data_fd) *)
| IoCalibRead (kind : Z) (path : string)         (* cw_read_calibrator_file *)
| IoCalibSave (kind : Z) (path : string).        (* cw_save_calibrator_file *)

(** The answers of the environment.  The argument [n] of each oracle is the
    number of interactions that came before. *)
Record Env : Type := {
  env_clock : nat -> Z;                          (* current time, ns *)
  env_property : nat -> Z;                       (* atoi of the property value *)
  env_open : nat -> string -> bool;              (* does open(2) succeed *)
  env_write : nat -> Z;                          (* result of write(2) *)
  env_errno : nat -> Z;                          (* errno after a failure *)
  env_fill : nat -> Z + list cw_event;           (* read error, or the records read *)
  env_calib_read : nat -> Z                      (* result of cw_read_calibrator_file *)
}.

(** ** The driver object *)

Record CwMcuSensor : Type := mkSensor {
  mEnabled : Z;                                  (* uint32_t bit mask *)
  mPendingMask : Z;                              (* uint32_t bit mask *)
  mPendingEvents : list sensors_event_t;
  mPendingEventsFlush : sensors_event_t;
  mFlushSensorEnabled : Z;
  l_timestamp : Z;
  g_timestamp : Z;
  init_trigger_done : bool;
  fill_block_debug : Z;                          (* file-level global *)
  fixed_sysfs_path : string;
  fixed_sysfs_path_len : nat;
  mDevPath : string;
  mTriggerName : string;
  mInputReader : list cw_event;                  (* buffered records, oldest first *)
  trace : list io_call                           (* interactions so far, oldest first *)
}.

Definition set_mEnabled (v : Z) (s : CwMcuSensor) : CwMcuSensor :=
  mkSensor v (mPendingMask s) (mPendingEvents s) (mPendingEventsFlush s)
    (mFlushSensorEnabled s) (l_timestamp s) (g_timestamp s) (init_trigger_done s)
    (fill_block_debug s) (fixed_sysfs_path s) (fixed_sysfs_path_len s) (mDevPath s)
    (mTriggerName s) (mInputReader s) (trace s).

Definition set_mPendingMask (v : Z) (s : CwMcuSensor) : CwMcuSensor :=
  mkSensor (mEnabled s) v (mPendingEvents s) (mPendingEventsFlush s)
    (mFlushSensorEnabled s) (l_timestamp s) (g_timestamp s) (init_trigger_done s)
    (fill_block_debug s) (fixed_sysfs_path s) (fixed_sysfs_path_len s) (mDevPath s)
    (mTriggerName s) (mInputReader s) (trace s).

Definition set_mPendingEvents (v : list sensors_event_t) (s : CwMcuSensor) : CwMcuSensor :=
  mkSensor (mEnabled s) (mPendingMask s) v (mPendingEventsFlush s)
    (mFlushSensorEnabled s) (l_timestamp s) (g_timestamp s) (init_trigger_done s)
    (fill_block_debug s) (fixed_sysfs_path s) (fixed_sysfs_path_len s) (mDevPath s)
    (mTriggerName s) (mInputReader s) (trace s).

Definition set_mPendingEventsFlush (v : sensors_event_t) (s : CwMcuSensor) : CwMcuSensor :=
  mkSensor (mEnabled s) (mPendingMask s) (mPendingEvents s) v
    (mFlushSensorEnabled s) (l_timestamp s) (g_timestamp s) (init_trigger_done s)
    (fill_block_debug s) (fixed_sysfs_path s) (fixed_sysfs_path_len s) (mDevPath s)
    (mTriggerName s) (mInputReader s) (trace s).

Definition set_mFlushSensorEnabled (v : Z) (s : CwMcuSensor) : CwMcuSensor :=
  mkSensor (mEnabled s) (mPendingMask s) (mPendingEvents s) (mPendingEventsFlush s)
    v (l_timestamp s) (g_timestamp s) (init_trigger_done s)
    (fill_block_debug s) (fixed_sysfs_path s) (fixed_sysfs_path_len s) (mDevPath s)
    (mTriggerName s) (mInputReader s) (trace s).

Definition set_l_timestamp (v : Z) (s : CwMcuSensor) : CwMcuSensor :=
  mkSensor (mEnabled s) (mPendingMask s) (mPendingEvents s) (mPendingEventsFlush s)
    (mFlushSensorEnabled s) v (g_timestamp s) (init_trigger_done s)
    (fill_block_debug s) (fixed_sysfs_path s) (fixed_sysfs_path_len s) (mDevPath s)
    (mTriggerName s) (mInputReader s) (trace s).

Definition set_g_timestamp (v : Z) (s : CwMcuSensor) : CwMcuSensor :=
  mkSensor (mEnabled s) (mPendingMask s) (mPendingEvents s) (mPendingEventsFlush s)
    (mFlushSensorEnabled s) (l_timestamp s) v (init_trigger_done s)
    (fill_block_debug s) (fixed_sysfs_path s) (fixed_sysfs_path_len s) (mDevPath s)
    (mTriggerName s) (mInputReader s) (trace s).

Definition set_init_trigger_done (v : bool) (s : CwMcuSensor) : CwMcuSensor :=
  mkSensor (mEnabled s) (mPendingMask s) (mPendingEvents s) (mPendingEventsFlush s)
    (mFlushSensorEnabled s) (l_timestamp s) (g_timestamp s) v
    (fill_block_debug s) (fixed_sysfs_path s) (fixed_sysfs_path_len s) (mDevPath s)
    (mTriggerName s) (mInputReader s) (trace s).

Definition set_fill_block_debug (v : Z) (s : CwMcuSensor) : CwMcuSensor :=
  mkSensor (mEnabled s) (mPendingMask s) (mPendingEvents s) (mPendingEventsFlush s)
    (mFlushSensorEnabled s) (l_timestamp s) (g_timestamp s) (init_trigger_done s)
    v (fixed_sysfs_path s) (fixed_sysfs_path_len s) (mDevPath s)
    (mTriggerName s) (mInputReader s) (trace s).

Definition set_fixed_sysfs_path (v : string) (s : CwMcuSensor) : CwMcuSensor :=
  mkSensor (mEnabled s) (mPendingMask s) (mPendingEvents s) (mPendingEventsFlush s)
    (mFlushSensorEnabled s) (l_timestamp s) (g_timestamp s) (init_trigger_done s)
    (fill_block_debug s) v (fixed_sysfs_path_len s) (mDevPath s)
    (mTriggerName s) (mInputReader s) (trace s).

Definition set_mInputReader (v : list cw_event) (s : CwMcuSensor) : CwMcuSensor :=
  mkSensor (mEnabled s) (mPendingMask s) (mPendingEvents s) (mPendingEventsFlush s)
    (mFlushSensorEnabled s) (l_timestamp s) (g_timestamp s) (init_trigger_done s)
    (fill_block_debug s) (fixed_sysfs_path s) (fixed_sysfs_path_len s) (mDevPath s)
    (mTriggerName s) v (trace s).

Definition set_trace (v : list io_call) (s : CwMcuSensor) : CwMcuSensor :=
  mkSensor (mEnabled s) (mPendingMask s) (mPendingEvents s) (mPendingEventsFlush s)
    (mFlushSensorEnabled s) (l_timestamp s) (g_timestamp s) (init_trigger_done s)
    (fill_block_debug s) (fixed_sysfs_path s) (fixed_sysfs_path_len s) (mDevPath s)
    (mTriggerName s) (mInputReader s) v.

(** ** Runs: state, result or fault *)

(** The two ways a run leaves defined behaviour. *)
Inductive fault : Type :=
| OutOfBounds (index : Z)            (* mPendingEvents[index] outside the table *)
| ShiftOutOfRange (count : Z).       (* 1 << count with count outside 0..31 *)

Inductive outcome (A : Type) : Type :=
| Done (a : A) (s : CwMcuSensor)
| Fault (f : fault).

Arguments Done {A} a s.
Arguments Fault {A} f.

Definition M (A : Type) : Type := CwMcuSensor -> outcome A.

Definition ret {A} (a : A) : M A := fun s => Done a s.

Definition bind {A B} (m : M A) (k : A -> M B) : M B :=
  fun s => match m s with
           | Done a s' => k a s'
           | Fault f => Fault f
           end.

Definition raise {A} (f : fault) : M A := fun _ => Fault f.
Definition get : M CwMcuSensor := fun s => Done s s.
Definition modify (f : CwMcuSensor -> CwMcuSensor) : M unit := fun s => Done tt (f s).

Notation "x <- m ;; k" := (bind m (fun x => k))
  (at level 100, m at next level, right associativity).
Notation "m ;;; k" := (bind m (fun _ => k))
  (at level 100, right associativity).

#[global] Instance CW_SENSORS_ID_eq_dec : EqDecision CW_SENSORS_ID.
Proof. solve_decision. Defined.

#[global] Instance SensorHandle_eq_dec : EqDecision SensorHandle.
Proof. solve_decision. Defined.

(** A C [switch] over named constants: the first label, in source order,
    whose value is [v]; [None] stands for [default]. *)
Definition select {K : Type} (value : K -> Z) (labels : list K) (v : Z) : option K :=
  find (fun k => value k =? v) labels.

(** ** The light table *)

Definition luxValues : list float :=
  map F32.of_Z [0; 10; 40; 90; 160; 225; 320; 640; 1280; 2600].

(** [indexToValue]; the argument is a [size_t]. *)
Definition indexToValue (index : Z) : float :=
  let maxIndex := LIGHTSENSOR_LEVEL - 1 in
  let index := if index >? maxIndex then maxIndex else index in
  nth (Z.to_nat index) luxValues F32.zero.

(** ** The driver's member functions *)

Section Driver.

Context (hdr : Header) (env : Env).

Local Abbreviation tag := (tag hdr).
Local Abbreviation handle := (handle hdr).

(** *** Talking to the environment *)

(** One interaction: it is recorded, and the oracle answers. *)
Definition ask {A : Type} (c : io_call) (answer : nat -> A) : M A :=
  fun s => Done (answer (length (trace s))) (set_trace (trace s ++ [c]) s).

(** [errno], as left by the last failing call. *)
Definition errno : M Z :=
  fun s => Done (env_errno env (length (trace s))) s.

Definition getTimestamp : M Z := ask IoClock (env_clock env).

Definition property_get (name : string) : M Z :=
  ask (IoProperty name) (env_property env).

(** [open(path, ...) >= 0] *)
Definition sys_open (path : string) : M bool :=
  ask (IoOpen path) (fun n => env_open env n path).

(** [write(fd, buf, n)] followed by [close(fd)]. *)
Definition sys_write (path : string) (buf : payload) : M Z :=
  ask (IoWrite path buf) (env_write env).

Definition cw_read_calibrator_file (kind : Z) (path : string) : M Z :=
  ask (IoCalibRead kind path) (env_calib_read env).

Definition cw_save_calibrator_file (kind : Z) (path : string) : M unit :=
  ask (IoCalibSave kind path) (fun _ => tt).

(** [strcpy(&fixed_sysfs_path[fixed_sysfs_path_len], attr)] *)
Definition set_sysfs_attr (attr : string) : M unit :=
  modify (fun s =>
    set_fixed_sysfs_path
      (substring 0 (fixed_sysfs_path_len s) (fixed_sysfs_path s) ++ attr)%string s).

(** [sysfs_set_input_attr]: write [value] to the file [attr] under [mDevPath]. *)
Definition sysfs_set_input_attr (attr : string) (value : payload) : M Z :=
  s <- get ;;
  let fname := (mDevPath s ++ "/" ++ attr)%string in
  ok <- sys_open fname ;;
  if ok then
    rc <- sys_write fname value ;;
    if rc <? 0 then ret (- EIO) else ret 0
  else ret (- EACCES).

(** [sysfs_set_input_attr_by_int].  Printing an [int] takes at most eleven
    characters, so the [n > sizeof(buf)] exit of the source is never taken. *)
Definition sysfs_set_input_attr_by_int (attr : string) (value : Z) : M Z :=
  sysfs_set_input_attr attr (Ints [value]).

(** *** The pending-sample table *)

(** [mPendingEvents[i]], read. *)
Definition read_slot (i : Z) : M sensors_event_t :=
  fun s =>
    if i <? 0 then Fault (OutOfBounds i)
    else match mPendingEvents s !! Z.to_nat i with
         | Some e => Done e s
         | None => Fault (OutOfBounds i)
         end.

(** [mPendingEvents[i].field = ...] *)
Definition update_slot (i : Z) (f : sensors_event_t -> sensors_event_t) : M unit :=
  e <- read_slot i ;;
  modify (fun s => set_mPendingEvents (<[Z.to_nat i := f e]> (mPendingEvents s)) s).

(** [1 << k] on a 32-bit [int]. *)
Definition shl1 (k : Z) : M Z :=
  if (0 <=? k) && (k <? 32) then ret (Z.shiftl 1 k) else raise (ShiftOutOfRange k).

(** [mPendingMask |= 1 << id] *)
Definition mark_pending (id : Z) : M unit :=
  b <- shl1 id ;;
  modify (fun s => set_mPendingMask (Int.uint32 (Z.lor (mPendingMask s) b)) s).

(** *** Kinds and handles *)

Definition find_handle_labels : list CW_SENSORS_ID :=
  [CW_ACCELERATION; CW_MAGNETIC; CW_GYRO; CW_PRESSURE; CW_ORIENTATION;
   CW_ROTATIONVECTOR; CW_LINEARACCELERATION; CW_GRAVITY;
   CW_MAGNETIC_UNCALIBRATED; CW_GYROSCOPE_UNCALIBRATED;
   CW_GAME_ROTATION_VECTOR; CW_GEOMAGNETIC_ROTATION_VECTOR; CW_LIGHT;
   CW_STEP_DETECTOR; CW_STEP_COUNTER; HTC_WAKE_UP_GESTURE].

Definition find_handle (sensors_id : Z) : Z :=
  match select tag find_handle_labels sensors_id with
  | Some CW_ACCELERATION => handle ID_A
  | Some CW_MAGNETIC => handle ID_M
  | Some CW_GYRO => handle ID_GY
  | Some CW_PRESSURE => handle ID_PS
  | Some CW_ORIENTATION => handle ID_O
  | Some CW_ROTATIONVECTOR => handle ID_RV
  | Some CW_LINEARACCELERATION => handle ID_LA
  | Some CW_GRAVITY => handle ID_G
  | Some CW_MAGNETIC_UNCALIBRATED => handle ID_CW_MAGNETIC_UNCALIBRATED
  | Some CW_GYROSCOPE_UNCALIBRATED => handle ID_CW_GYROSCOPE_UNCALIBRATED
  | Some CW_GAME_ROTATION_VECTOR => handle ID_CW_GAME_ROTATION_VECTOR
  | Some CW_GEOMAGNETIC_ROTATION_VECTOR => handle ID_CW_GEOMAGNETIC_ROTATION_VECTOR
  | Some CW_LIGHT => handle ID_L
  | Some CW_STEP_DETECTOR => handle ID_CW_STEP_DETECTOR
  | Some CW_STEP_COUNTER => handle ID_CW_STEP_COUNTER
  | Some HTC_WAKE_UP_GESTURE => handle ID_WAKE_UP_GESTURE
  | _ => 255
  end.

Definition find_sensor_labels : list SensorHandle :=
  [ID_A; ID_M; ID_GY; ID_PS; ID_O; ID_RV; ID_LA; ID_G;
   ID_CW_MAGNETIC_UNCALIBRATED; ID_CW_GYROSCOPE_UNCALIBRATED;
   ID_CW_GAME_ROTATION_VECTOR; ID_CW_GEOMAGNETIC_ROTATION_VECTOR;
   ID_CW_SIGNIFICANT_MOTION; ID_CW_STEP_DETECTOR; ID_CW_STEP_COUNTER;
   ID_L; ID_WAKE_UP_GESTURE].

(** The kind a handle stands for. *)
Definition kind_of_handle (h : SensorHandle) : CW_SENSORS_ID :=
  match h with
  | ID_A => CW_ACCELERATION
  | ID_M => CW_MAGNETIC
  | ID_GY => CW_GYRO
  | ID_PS => CW_PRESSURE
  | ID_O => CW_ORIENTATION
  | ID_RV => CW_ROTATIONVECTOR
  | ID_LA => CW_LINEARACCELERATION
  | ID_G => CW_GRAVITY
  | ID_CW_MAGNETIC_UNCALIBRATED => CW_MAGNETIC_UNCALIBRATED
  | ID_CW_GYROSCOPE_UNCALIBRATED => CW_GYROSCOPE_UNCALIBRATED
  | ID_CW_GAME_ROTATION_VECTOR => CW_GAME_ROTATION_VECTOR
  | ID_CW_GEOMAGNETIC_ROTATION_VECTOR => CW_GEOMAGNETIC_ROTATION_VECTOR
  | ID_CW_SIGNIFICANT_MOTION => CW_SIGNIFICANT_MOTION
  | ID_CW_STEP_DETECTOR => CW_STEP_DETECTOR
  | ID_CW_STEP_COUNTER => CW_STEP_COUNTER
  | ID_L => CW_LIGHT
  | ID_WAKE_UP_GESTURE => HTC_WAKE_UP_GESTURE
  end.

Definition find_sensor (h : Z) : Z :=
  match select handle find_sensor_labels h with
  | Some l => tag (kind_of_handle l)
  | None => -1
  end.

Definition getEnable (h : Z) : M Z := ret 0.

Definition hasPendingEvents : M bool :=
  s <- get ;; ret (negb (mPendingMask s =? 0)).

(** *** Control operations *)

(** [sync_timestamp_locked]: ask the firmware for a time sync and, when the
    request was written, take the current host time as the candidate. *)
Definition sync_timestamp_locked : M Z :=
  set_sysfs_attr "flush" ;;;
  s <- get ;;
  ok <- sys_open (fixed_sysfs_path s) ;;
  if ok then
    err <- sys_write (fixed_sysfs_path s) (Ints [TIMESTAMP_SYNC_CODE hdr]) ;;
    if err <? 0 then ret (- EIO)
    else
      now <- getTimestamp ;;
      modify (set_l_timestamp now) ;;;
      ret 0
  else ret (- ENOENT).

Definition sync_timestamp : M Z := sync_timestamp_locked.

(** [mEnabled &= ~(1<<what); mEnabled |= (uint32_t(flags)<<what);] *)
Definition assign_enabled_bit (what flags : Z) : M unit :=
  b <- shl1 what ;;
  modify (fun s => set_mEnabled (Int.uint32 (Z.land (mEnabled s) (Z.lnot b))) s) ;;;
  modify (fun s => set_mEnabled (Int.uint32 (Z.lor (mEnabled s) (Z.shiftl flags what))) s).

Definition setEnable (h en : Z) : M Z :=
  let flags := if en =? 0 then 0 else 1 in
  value <- property_get "debug.sensorhal.fill.block" ;;
  modify (set_fill_block_debug (if value =? 1 then 1 else 0)) ;;;
  let what := find_sensor h in
  if Int.uint32 what >=? numSensors hdr then ret (- EINVAL)
  else
    set_sysfs_attr "enable" ;;;
    s <- get ;;
    ok <- sys_open (fixed_sysfs_path s) ;;
    (if ok then
       sys_write (fixed_sysfs_path s) (Ints [what; flags]) ;;;
       assign_enabled_bit what flags ;;;
       s' <- get ;;
       if mEnabled s' =? 0
       then sysfs_set_input_attr_by_int "buffer/enable" 0 ;;; ret tt
       else ret tt
     else ret tt) ;;;
    (if ((what =? tag CW_MAGNETIC) && (flags =? 0))
        || ((what =? tag CW_ORIENTATION) && (flags =? 0))
        || ((what =? tag CW_ROTATIONVECTOR) && (flags =? 0))
     then
       set_sysfs_attr "calibrator_data_mag" ;;;
       s'' <- get ;;
       rc <- cw_read_calibrator_file (tag CW_MAGNETIC) (fixed_sysfs_path s'') ;;
       if rc =? 0
       then cw_save_calibrator_file (tag CW_MAGNETIC) (SAVE_PATH_MAG hdr)
       else ret tt
     else ret tt) ;;;
    ret 0.

Definition batch (h flags period_ns timeout : Z) : M Z :=
  let what := find_sensor h in
  let delay_ms := Int.int32 (Z.quot period_ns NS_PER_MS) in
  let timeout_ms := Int.int32 (Z.quot timeout NS_PER_MS) in
  let dryRun := negb (Z.land flags SENSORS_BATCH_DRY_RUN =? 0) in
  if Int.uint32 what >=? CW_SENSORS_ID_END hdr then ret (- EINVAL)
  else
    let unsupported :=
      match select tag [CW_LIGHT; CW_SIGNIFICANT_MOTION] what with
      | Some _ => timeout >? 0
      | None => false
      end in
    if unsupported then ret (- EINVAL)
    else if dryRun then ret 0
    else
      s <- get ;;
      (if mEnabled s =? 0 then
         sysfs_set_input_attr_by_int "buffer/length" IIO_MAX_BUFF_SIZE ;;;
         (if init_trigger_done s then ret tt
          else
            err <- sysfs_set_input_attr "trigger/current_trigger" (Text (mTriggerName s)) ;;
            if err <? 0 then ret tt else modify (set_init_trigger_done true)) ;;;
         sysfs_set_input_attr_by_int "buffer/enable" 1 ;;;
         ret tt
       else ret tt) ;;;
      sync_timestamp_locked ;;;
      set_sysfs_attr "batch_enable" ;;;
      s' <- get ;;
      ok <- sys_open (fixed_sysfs_path s') ;;
      if ok then
        err <- sys_write (fixed_sysfs_path s') (Ints [what; flags; delay_ms; timeout_ms]) ;;
        if err <? 0 then e <- errno ;; ret (- e) else ret 0
      else e <- errno ;; ret (- e).

Definition flush (h : Z) : M Z :=
  let what := find_sensor h in
  modify (set_mFlushSensorEnabled h) ;;;
  if Int.uint32 what >=? CW_SENSORS_ID_END hdr then ret (- EINVAL)
  else
    set_sysfs_attr "flush" ;;;
    s <- get ;;
    ok <- sys_open (fixed_sysfs_path s) ;;
    if ok then
      err <- sys_write (fixed_sysfs_path s) (Ints [what]) ;;
      if err <? 0 then e <- errno ;; ret (- e) else ret 0
    else ret (- EINVAL).

Definition setDelay (h delay_ns : Z) : M Z :=
  let what := find_sensor h in
  if Int.uint32 what >=? numSensors hdr then ret (- EINVAL)
  else
    set_sysfs_attr "delay_ms" ;;;
    s <- get ;;
    ok <- sys_open (fixed_sysfs_path s) ;;
    (if ok
     then sys_write (fixed_sysfs_path s) (Ints [what; Z.quot delay_ns NS_PER_MS]) ;;; ret tt
     else ret tt) ;;;
    ret 0.

(** *** Derived fields *)

Definition rv_labels : list CW_SENSORS_ID :=
  [CW_ROTATIONVECTOR; CW_GAME_ROTATION_VECTOR; CW_GEOMAGNETIC_ROTATION_VECTOR].

(** [1 - q1*q1 - q2*q2 - q3*q3], evaluated left to right in [float]. *)
Definition rv_radicand (q1 q2 q3 : float) : float :=
  F32.sub (F32.sub (F32.sub F32.one (F32.mul q1 q1)) (F32.mul q2 q2)) (F32.mul q3 q3).

(** [(q0 > 0) ? (float)sqrt(q0) : 0] *)
Definition rv_4th (q0 : float) : float :=
  if F32.gtb q0 F32.zero then F32.sqrt q0 else F32.zero.

Definition calculate_rv_4th_element (sensors_id : Z) : M unit :=
  match select tag rv_labels sensors_id with
  | Some _ =>
      e <- read_slot sensors_id ;;
      let q1 := get_data 0 e in
      let q2 := get_data 1 e in
      let q3 := get_data 2 e in
      let q0 := rv_radicand q1 q2 q3 in
      let q0 := rv_4th q0 in
      update_slot sensors_id (set_data 3 q0)
  | None => ret tt
  end.

(** *** Decoding one record *)

Definition processEvent_labels : list CW_SENSORS_ID :=
  [CW_ORIENTATION; CW_ACCELERATION; CW_MAGNETIC; CW_GYRO;
   CW_LINEARACCELERATION; CW_GRAVITY; CW_PRESSURE; CW_ROTATIONVECTOR;
   CW_GAME_ROTATION_VECTOR; CW_GEOMAGNETIC_ROTATION_VECTOR;
   CW_MAGNETIC_UNCALIBRATED; CW_GYROSCOPE_UNCALIBRATED;
   CW_SIGNIFICANT_MOTION; CW_LIGHT; CW_STEP_DETECTOR; CW_STEP_COUNTER;
   HTC_WAKE_UP_GESTURE; CW_META_DATA; CW_SYNC_ACK; TIME_DIFF_EXHAUSTED].

(** [(float)v * c] *)
Definition scaled (v : Z) (c : float) : float := F32.mul (F32.of_Z v) c.

(** [mPendingEvents[id].data[0..2] = (float)data[0..2] * c] *)
Definition store_vector (id : Z) (v : nat -> Z) (c : float) : M unit :=
  update_slot id (set_data 0 (scaled (v 0%nat) c)) ;;;
  update_slot id (set_data 1 (scaled (v 1%nat) c)) ;;;
  update_slot id (set_data 2 (scaled (v 2%nat) c)).

(** The body of the [switch] of [processEvent]. *)
Definition decode_payload (event : cw_event) : M unit :=
  let sensorsid := ev_id event in
  let data := ev_data event in
  let bias := ev_bias event in
  match select tag processEvent_labels sensorsid with
  | Some CW_ORIENTATION =>
      mark_pending sensorsid ;;;
      (if sensorsid =? tag CW_ORIENTATION
       then update_slot sensorsid (set_status (Int.signed 8 (bias 0%nat)))
       else ret tt) ;;;
      store_vector sensorsid data (CONVERT_10 hdr)
  | Some (CW_ACCELERATION | CW_MAGNETIC | CW_GYRO
          | CW_LINEARACCELERATION | CW_GRAVITY) =>
      mark_pending sensorsid ;;;
      (if sensorsid =? tag CW_MAGNETIC
       then update_slot sensorsid (set_status (Int.signed 8 (bias 0%nat)))
       else ret tt) ;;;
      store_vector sensorsid data (CONVERT_100 hdr)
  | Some CW_PRESSURE =>
      mark_pending sensorsid ;;;
      update_slot sensorsid (set_data 0 (scaled (ev_data_i32 event) (CONVERT_100 hdr))) ;;;
      update_slot sensorsid (set_data 2 (scaled (data 2%nat) (CONVERT_100 hdr)))
  | Some (CW_ROTATIONVECTOR | CW_GAME_ROTATION_VECTOR
          | CW_GEOMAGNETIC_ROTATION_VECTOR) =>
      mark_pending sensorsid ;;;
      store_vector sensorsid data (CONVERT_10000 hdr)
  | Some (CW_MAGNETIC_UNCALIBRATED | CW_GYROSCOPE_UNCALIBRATED) =>
      mark_pending sensorsid ;;;
      store_vector sensorsid data (CONVERT_100 hdr) ;;;
      update_slot sensorsid (set_data 3 (scaled (bias 0%nat) (CONVERT_100 hdr))) ;;;
      update_slot sensorsid (set_data 4 (scaled (bias 1%nat) (CONVERT_100 hdr))) ;;;
      update_slot sensorsid (set_data 5 (scaled (bias 2%nat) (CONVERT_100 hdr)))
  | Some CW_SIGNIFICANT_MOTION =>
      mark_pending sensorsid ;;;
      update_slot sensorsid (set_data 0 (F32.of_Z (data 0%nat))) ;;;
      update_slot sensorsid (set_data 1 (F32.of_Z (data 1%nat))) ;;;
      update_slot sensorsid (set_data 2 (F32.of_Z (data 2%nat)))
  | Some CW_LIGHT =>
      mark_pending sensorsid ;;;
      update_slot sensorsid (set_data 0 (indexToValue (Int.size_t (data 0%nat))))
  | Some CW_STEP_DETECTOR =>
      mark_pending sensorsid ;;;
      update_slot (tag CW_STEP_COUNTER) (set_data 0 (F32.of_Z (data 0%nat))) ;;;
      now <- getTimestamp ;;
      update_slot (tag CW_STEP_DETECTOR) (set_timestamp now)
  | Some CW_STEP_COUNTER =>
      mark_pending sensorsid ;;;
      update_slot (tag CW_STEP_COUNTER) (set_step_counter (ev_data_u32 event))
  | Some HTC_WAKE_UP_GESTURE =>
      mark_pending sensorsid ;;;
      update_slot (tag HTC_WAKE_UP_GESTURE) (set_data 0 (F32.of_Z 1))
  | Some CW_META_DATA =>
      modify (fun s => set_mPendingEventsFlush
                         (set_meta_what META_DATA_FLUSH_COMPLETE (mPendingEventsFlush s)) s) ;;;
      modify (fun s => set_mPendingEventsFlush
                         (set_meta_sensor (find_handle (data 0%nat)) (mPendingEventsFlush s)) s)
  | Some CW_SYNC_ACK =>
      if data 0%nat =? SYNC_ACK_MAGIC
      then modify (fun s => set_g_timestamp (l_timestamp s) s)
      else ret tt
  | Some TIME_DIFF_EXHAUSTED =>
      if data 0%nat =? EXHAUSTED_MAGIC
      then sync_timestamp ;;; ret tt
      else ret tt
  | None => ret tt
  end.

Definition processEvent (event : cw_event) : M Z :=
  let sensorsid := ev_id event in
  let time := ev_time event in
  update_slot sensorsid (set_timestamp time) ;;;
  decode_payload event ;;;
  ret sensorsid.

(** *** The input reader *)

(** Modelled from the spec: [InputEventCircularReader] is declared outside
    the sources at hand.  Following section 4.1 of the specification, [fill]
    moves whole records from the device into a buffer of fixed capacity and
    returns how many became available, or a negative code when the read
    fails; [readEvent] shows the oldest buffered record, if any; [next]
    drops it. *)
Definition reader_fill : M Z :=
  r <- ask IoFill (env_fill env) ;;
  match r with
  | inl err => ret err
  | inr records =>
      s <- get ;;
      let room := (Z.to_nat IIO_MAX_BUFF_SIZE - length (mInputReader s))%nat in
      let fresh := take room records in
      modify (set_mInputReader (mInputReader s ++ fresh)) ;;;
      ret (Z.of_nat (length fresh))
  end.

Definition reader_readEvent : M (option cw_event) :=
  s <- get ;; ret (head (mInputReader s)).

Definition reader_next : M unit :=
  modify (fun s => set_mInputReader (tail (mInputReader s)) s).

(** *** The dispatch loop *)

(** [mEnabled & (1 << id)] *)
Definition enabled_bit (id : Z) : M bool :=
  b <- shl1 id ;;
  s <- get ;;
  ret (negb (Z.land (mEnabled s) b =? 0)).

(** What one turn of the [while] loop of [readEvents] writes to [data]
    once [processEvent] has returned [id]. *)
Definition emit (id : Z) : M (list sensors_event_t) :=
  if id =? tag CW_META_DATA then
    s <- get ;; ret [mPendingEventsFlush s]
  else
    now <- getTimestamp ;;
    update_slot id (set_timestamp now) ;;;
    on <- enabled_bit id ;;
    if on then
      (if id =? tag CW_SIGNIFICANT_MOTION
       then setEnable (handle ID_CW_SIGNIFICANT_MOTION) 0 ;;; ret tt
       else ret tt) ;;;
      calculate_rv_4th_element id ;;;
      e <- read_slot id ;;
      ret [e]
    else ret [].

(** One turn of the loop on the record [event]. *)
Definition dispatch (event : cw_event) : M (list sensors_event_t) :=
  id <- processEvent event ;;
  out <- emit id ;;
  reader_next ;;;
  ret out.

(** [while (count && mInputReader.readEvent(&event))].  Each turn removes
    one record from the reader, so [fuel] turns suffice when [fuel] is the
    number of buffered records. *)
Fixpoint readEvents_loop (fuel : nat) (count : Z) : M (list sensors_event_t) :=
  match fuel with
  | O => ret []
  | S fuel' =>
      if count =? 0 then ret []
      else
        ev <- reader_readEvent ;;
        match ev with
        | None => ret []
        | Some event =>
            out <- dispatch event ;;
            rest <- readEvents_loop fuel' (count - Z.of_nat (length out)) ;;
            ret (out ++ rest)
        end
  end.

(** [readEvents]: the value returned and the events written to [data]. *)
Definition readEvents (count : Z) : M (Z * list sensors_event_t) :=
  getTimestamp ;;;
  if count <? 1 then ret (- EINVAL, [])
  else
    n <- reader_fill ;;
    if n <? 0 then ret (n, [])
    else
      s <- get ;;
      out <- readEvents_loop (length (mInputReader s)) count ;;
      ret (Z.of_nat (length out), out).

End Driver.

(** ** The destructor *)

Section Destructor.

Context (hdr : Header) (env : Env).

(** [~CwMcuSensor] *)
Definition destroy : M unit :=
  s <- get ;;
  if negb (mEnabled s =? 0) then setEnable hdr env 0 0 ;;; ret tt else ret tt.

End Destructor.

(** ** The calls of the sensor HAL *)

(** The operations the HAL invokes on the driver object. *)
Inductive call : Type :=
| CallSetEnable (h en : Z)
| CallSetDelay (h delay_ns : Z)
| CallBatch (h flags period_ns timeout : Z)
| CallFlush (h : Z)
| CallSyncTimestamp
| CallGetEnable (h : Z)
| CallHasPendingEvents
| CallReadEvents (count : Z).

Section Calls.

Context (hdr : Header) (env : Env).

(** One call: the value it returns and the events it writes. *)
Definition perform (c : call) : M (Z * list sensors_event_t) :=
  match c with
  | CallSetEnable h en => rc <- setEnable hdr env h en ;; ret (rc, [])
  | CallSetDelay h delay_ns => rc <- setDelay hdr env h delay_ns ;; ret (rc, [])
  | CallBatch h flags period_ns timeout =>
      rc <- batch hdr env h flags period_ns timeout ;; ret (rc, [])
  | CallFlush h => rc <- flush hdr env h ;; ret (rc, [])
  | CallSyncTimestamp => rc <- sync_timestamp hdr env ;; ret (rc, [])
  | CallGetEnable h => rc <- getEnable h ;; ret (rc, [])
  | CallHasPendingEvents => b <- hasPendingEvents ;; ret (if b : bool then 1 else 0, [])
  | CallReadEvents count => readEvents hdr env count
  end.

(** A sequence of calls, one after the other. *)
Fixpoint run (cs : list call) : M (list (Z * list sensors_event_t)) :=
  match cs with
  | [] => ret []
  | c :: cs' =>
      r <- perform c ;;
      rs <- run cs' ;;
      ret (r :: rs)
  end.

End Calls.

(** ** Text: what [printf] writes and [scanf] reads *)

Module Text.

(** [isspace] in the C locale: space and the five control characters
    [\t \n \v \f \r]. *)
Definition isspace (c : ascii) : bool :=
  let n := nat_of_ascii c in
  (n =? 32)%nat || ((9 <=? n)%nat && (n <=? 13)%nat).

Definition isdigit (c : ascii) : bool :=
  let n := nat_of_ascii c in
  (48 <=? n)%nat && (n <=? 57)%nat.

Definition newline : ascii := ascii_of_nat 10.
Definition NUL : ascii := ascii_of_nat 0.

(** [int] values. *)
Definition in_int (z : Z) : bool := (- 2 ^ 31 <=? z) && (z <? 2 ^ 31).

(** What the conversion [%d] of [printf] writes. *)
Definition print_int (z : Z) : string := NilZero.string_of_int (Z.to_int z).

Fixpoint skip_space (s : string) : string :=
  match s with
  | String c s' => if isspace c then skip_space s' else s
  | EmptyString => EmptyString
  end.

(** The longest run of digits at the head of [s], and what follows it. *)
Fixpoint span_digits (s : string) : string * string :=
  match s with
  | String c s' =>
      if isdigit c then let (ds, rest) := span_digits s' in (String c ds, rest)
      else (EmptyString, s)
  | EmptyString => (EmptyString, EmptyString)
  end.

(** The outcome of one conversion [%d] of [scanf]: a value and the unread
    input; a matching failure; or the end of the input before any
    character of a number. *)
Inductive scanned : Type :=
| Converted (z : Z) (rest : string)
| Mismatch
| InputEnd.

(** The conversion [%d] of [scanf]: white space is skipped, then an
    optional sign and a non-empty run of digits make the number. *)
Definition scan_int (s : string) : scanned :=
  match skip_space s with
  | EmptyString => InputEnd
  | String c s' =>
      let negative := Ascii.eqb c "-"%char in
      let body := if negative || Ascii.eqb c "+"%char then s' else String c s' in
      let (ds, rest) := span_digits body in
      match NilZero.uint_of_string ds with
      | Some d => Converted (if negative then - Z.of_uint d else Z.of_uint d) rest
      | None => Mismatch
      end
  end.

End Text.

(** ** [chomp] *)

(** [chomp(buf, len)]: [None] stands for undefined behaviour (an access
    outside of [buf]); a null [buf] is [None] in the argument. *)
Fixpoint chomp_loop (buf : list ascii) (len : nat) : option (list ascii) :=
  match len with
  | O => Some buf
  | S n =>
      match buf !! n with
      | None => None
      | Some c =>
          if Text.isspace c then chomp_loop (<[n := Text.NUL]> buf) n
          else Some buf
      end
  end.

Definition chomp (buf : option (list ascii)) (len : nat)
    : option (Z * option (list ascii)) :=
  match buf with
  | None => Some (-1, None)
  | Some b =>
      match chomp_loop b len with
      | Some b' => Some (0, Some b')
      | None => None
      end
  end.

(** ** The calibration files *)

(** The files the driver sees: the contents of each path that can be
    opened for reading. *)
Abbreviation Files := (gmap string string).

Module Calibrator.

Section Calibrator.

Context (hdr : Header).

(** Whether [fopen(path, "w+")] succeeds. *)
Context (writable : string -> bool).

Definition COMPASS_CALIBRATION_DATA_SIZE : nat := 26.

(** [EOF] of <stdio.h>. *)
Definition EOF : Z := -1.

Definition separator (i : nat) : ascii :=
  if (i =? COMPASS_CALIBRATION_DATA_SIZE - 1)%nat then Text.newline else " "%char.

(** The loop of [cw_save_calibrator_file] from index [i] on, [todo] turns:
    what [fprintf(fp_file, "%d%c", str[i], ...)] writes.  [None] is a read
    outside of [str]. *)
Fixpoint fprintf_compass (str : list Z) (i todo : nat) : option string :=
  match todo with
  | O => Some EmptyString
  | S todo' =>
      match str !! i, fprintf_compass str (S i) todo' with
      | Some v, Some rest => Some (Text.print_int v ++ String (separator i) rest)%string
      | _, _ => None
      end
  end.

(** [cw_save_calibrator_file]: the files afterwards.  A stream that was
    opened takes every write. *)
Definition cw_save_calibrator_file (type : Z) (path : string) (str : list Z)
    (fs : Files) : option Files :=
  if writable path then
    if (type =? tag hdr CW_GYRO) || (type =? tag hdr CW_ACCELERATION) then
      match str !! 0%nat, str !! 1%nat, str !! 2%nat with
      | Some a, Some b, Some c =>
          Some (<[path := (Text.print_int a ++ " " ++ Text.print_int b ++ " "
                           ++ Text.print_int c ++ String Text.newline "")%string]> fs)
      | _, _, _ => None
      end
    else if type =? tag hdr CW_MAGNETIC then
      match fprintf_compass str 0 COMPASS_CALIBRATION_DATA_SIZE with
      | Some text => Some (<[path := text]> fs)
      | None => None
      end
    else Some (<[path := EmptyString]> fs)
  else Some fs.

(** [*p = z] for the [int] a conversion [%d] made, at index [i] of [str].
    [None]: the number does not fit an [int], or the index is outside. *)
Definition store (str : list Z) (i : nat) (z : Z) : option (list Z) :=
  if Text.in_int z && (i <? length str)%nat then Some (<[i := z]> str) else None.

(** [fscanf(fp, "%d %d %d\n", &str[0], &str[1], &str[2])]: the array
    afterwards ([todo] conversions from index [i] on).  The conversions are
    made in turn and stop at the first that fails; the number of those made
    is only logged. *)
Fixpoint fscanf_ints (stream : string) (str : list Z) (i todo : nat) : option (list Z) :=
  match todo with
  | O => Some str
  | S todo' =>
      match Text.scan_int stream with
      | Text.Converted z rest =>
          match store str i z with
          | Some str' => fscanf_ints (Text.skip_space rest) str' (S i) todo'
          | None => None
          end
      | Text.Mismatch | Text.InputEnd => Some str
      end
  end.

(** The loop of [cw_read_calibrator_file] from index [i] on: each turn is
    [fscanf(fp, "%d ", &str[i])], which returns 1, 0 on a matching failure
    or [EOF]; a turn that returns less than 1 ends the function with that
    value.  Every turn reads [str[i]] for its log line, also one whose
    conversion failed, so [i] has to be inside of [str] then as well. *)
Fixpoint fscanf_compass (stream : string) (str : list Z) (i todo : nat)
    : option (Z * list Z) :=
  match todo with
  | O => Some (0, str)
  | S todo' =>
      match Text.scan_int stream with
      | Text.Converted z rest =>
          match store str i z with
          | Some str' => fscanf_compass (Text.skip_space rest) str' (S i) todo'
          | None => None
          end
      | Text.Mismatch => if (i <? length str)%nat then Some (0, str) else None
      | Text.InputEnd => if (i <? length str)%nat then Some (EOF, str) else None
      end
  end.

(** [cw_read_calibrator_file]: the value returned and [str] afterwards. *)
Definition cw_read_calibrator_file (type : Z) (path : string) (str : list Z)
    (fs : Files) : option (Z * list Z) :=
  match fs !! path with
  | None => Some (-1, str)
  | Some content =>
      if (type =? tag hdr CW_GYRO) || (type =? tag hdr CW_ACCELERATION) then
        match fscanf_ints content str 0 3 with
        | Some str' => Some (0, str')
        | None => None
        end
      else if type =? tag hdr CW_MAGNETIC then
        fscanf_compass content str 0 COMPASS_CALIBRATION_DATA_SIZE
      else Some (0, str)
  end.

End Calibrator.

End Calibrator.

(** ** Finding the IIO device *)

Module Iio.

Definition iio_dir : string := "/sys/bus/iio/devices/".
Definition IIO_MAX_NAME_LENGTH : nat := 30.

(** <errno.h> *)
Definition ENOMEM : Z := 12.
Definition ENODEV : Z := 19.
Definition ERANGE : Z := 34.

(** [snprintf(filename, size, "%s%s%d/name", iio_dir, type, number)]: at
    most [size - 1] characters are written. *)
Definition name_file (size : nat) (type : string) (number : Z) : string :=
  substring 0 (size - 1) (iio_dir ++ type ++ Text.print_int number ++ "/name").

(** [sscanf(text, "%d", &number)]: the value returned and the number
    converted, if one was. *)
Definition sscanf_int (text : string) : Z * option Z :=
  match Text.scan_int text with
  | Text.Converted z _ => (1, Some z)
  | Text.Mismatch => (0, None)
  | Text.InputEnd => (-1, None)
  end.

(** The entries the loop looks at: neither [.] nor [..], longer than
    [type] and starting with it. *)
Definition candidate (type d_name : string) : bool :=
  negb (String.eqb d_name ".") && negb (String.eqb d_name "..")
  && (String.length type <? String.length d_name)%nat && String.prefix type d_name.

Section Search.

(** What the system answers in turn [k] of the loop, one turn per directory
    entry: whether [malloc(size)] returns memory, and whether the [read] of
    the file that was opened succeeds. *)
Context (malloc : nat -> nat -> bool) (read : nat -> string -> bool).

(** The [while] loop of [find_type_by_name] over the entries [readdir]
    delivers, [k] of which have been passed.  [number] is the local variable
    of that name: [None] until a conversion has assigned it.  [fs] holds,
    for each path that [open] opens, the bytes a successful [read]
    delivers.  The result [None] stands for undefined behaviour: a number
    that does not fit an [int], an index before the start of [d_name], the
    use of [number] before it was assigned, or a failed [read], whose result
    [-1] becomes the index [thisname[(size_t)-1]]. *)
Fixpoint scan_devices (name type : string) (fs : Files) (number : option Z)
    (k : nat) (entries : list string) : option Z :=
  match entries with
  | [] => Some (- ENODEV)
  | d_name :: rest =>
      let typeLen := String.length type in
      let nameLen := String.length name in
      if candidate type d_name then
        let '(numstrlen, converted) :=
          sscanf_int (substring typeLen (String.length d_name - typeLen) d_name) in
        let number' := match converted with Some z => Some z | None => number end in
        let index := Z.of_nat typeLen + numstrlen in
        if match converted with Some z => negb (Text.in_int z) | None => false end
           || (index <? 0)
        then None
        else if match String.get (Z.to_nat index) d_name with
                | Some c => negb (Ascii.eqb c ":")
                | None => true
                end
        then
          let size := Z.to_nat (Z.of_nat (String.length iio_dir) + Z.of_nat typeLen
                                + numstrlen + 6) in
          if negb (malloc k size) then Some (- ENOMEM)
          else
            match number' with
            | None => None
            | Some num =>
                let filename := name_file size type num in
                match fs !! filename with
                | None => scan_devices name type fs number' (S k) rest
                | Some content =>
                    if negb (read k filename) then None
                    else
                      let thisname := substring 0 (IIO_MAX_NAME_LENGTH - 1) content in
                      let size := String.length thisname in
                      if (size <? nameLen)%nat
                      then scan_devices name type fs number' (S k) rest
                      else if negb (String.prefix name thisname)
                      then scan_devices name type fs number' (S k) rest
                      else if match String.get nameLen thisname with
                              | Some c => Ascii.eqb c Text.NUL || Text.isspace c
                              | None => true
                              end
                      then Some num
                      else scan_devices name type fs number' (S k) rest
                end
            end
        else scan_devices name type fs number' (S k) rest
      else scan_devices name type fs number (S k) rest
  end.

(** [find_type_by_name(name, type)]; [dir] is what [opendir(iio_dir)] and
    [readdir] deliver, [None] when the directory cannot be opened. *)
Definition find_type_by_name (name type : string) (dir : option (list string))
    (fs : Files) : option Z :=
  if (IIO_MAX_NAME_LENGTH - 1 <=? String.length name)%nat then Some (- ERANGE)
  else
    match dir with
    | None => Some (- ENODEV)
    | Some entries => scan_devices name type fs None 0 entries
    end.

End Search.

(** A system with memory to spare and files that can be read. *)
Definition granted (k size : nat) : bool := true.
Definition readable (k : nat) (path : string) : bool := true.

End Iio.

(** ** A sample header, environment and driver state

    One assignment of the header's values, under which every enumerator
    indexes the table and fits the 32-bit masks.  It serves to run the
    definitions on concrete inputs. *)

Module Sample.

Definition tag_of (k : CW_SENSORS_ID) : Z :=
  match k with
  | CW_ACCELERATION => 0
  | CW_MAGNETIC => 1
  | CW_GYRO => 2
  | CW_LIGHT => 3
  | CW_PRESSURE => 5
  | CW_ORIENTATION => 6
  | CW_ROTATIONVECTOR => 7
  | CW_LINEARACCELERATION => 8
  | CW_GRAVITY => 9
  | HTC_WAKE_UP_GESTURE => 10
  | CW_MAGNETIC_UNCALIBRATED => 16
  | CW_GYROSCOPE_UNCALIBRATED => 17
  | CW_GAME_ROTATION_VECTOR => 18
  | CW_GEOMAGNETIC_ROTATION_VECTOR => 19
  | CW_SIGNIFICANT_MOTION => 20
  | CW_STEP_DETECTOR => 21
  | CW_STEP_COUNTER => 22
  | TIME_DIFF_EXHAUSTED => 29
  | CW_SYNC_ACK => 30
  | CW_META_DATA => 31
  end.

Definition handle_of (h : SensorHandle) : Z :=
  match h with
  | ID_A => 0
  | ID_M => 1
  | ID_GY => 2
  | ID_L => 3
  | ID_PS => 4
  | ID_O => 5
  | ID_RV => 6
  | ID_LA => 7
  | ID_G => 8
  | ID_CW_MAGNETIC_UNCALIBRATED => 9
  | ID_CW_GYROSCOPE_UNCALIBRATED => 10
  | ID_CW_GAME_ROTATION_VECTOR => 11
  | ID_CW_GEOMAGNETIC_ROTATION_VECTOR => 12
  | ID_CW_SIGNIFICANT_MOTION => 13
  | ID_CW_STEP_DETECTOR => 14
  | ID_CW_STEP_COUNTER => 15
  | ID_WAKE_UP_GESTURE => 16
  end.

Lemma tag_of_inj a b : tag_of a = tag_of b -> a = b.
Proof. destruct a, b; simpl; intros H; first [reflexivity | discriminate H]. Qed.

Lemma handle_of_inj a b : handle_of a = handle_of b -> a = b.
Proof. destruct a, b; simpl; intros H; first [reflexivity | discriminate H]. Qed.

(** 0.1f, 0.01f and 0.0001f *)
Definition tenth : float := S754_finite false 13421773 (-27).
Definition hundredth : float := S754_finite false 10737418 (-30).
Definition ten_thousandth : float := S754_finite false 13743895 (-37).

Definition hdr : Header :=
  {| tag := tag_of;
     handle := handle_of;
     numSensors := 32;
     CW_SENSORS_ID_END := 32;
     TIMESTAMP_SYNC_CODE := 98;
     CONVERT_10 := tenth;
     CONVERT_100 := hundredth;
     CONVERT_10000 := ten_thousandth;
     SAVE_PATH_MAG := "/data/misc/cw_calibrator_mag.ini";
     tag_inj := tag_of_inj;
     handle_inj := handle_of_inj |}.

(** An environment in which every call succeeds and the clock reads
    [1000 + n] at the [n]-th interaction. *)
Definition env : Env :=
  {| env_clock := fun n => 1000 + Z.of_nat n;
     env_property := fun _ => 0;
     env_open := fun _ _ => true;
     env_write := fun _ => 1;
     env_errno := fun _ => 0;
     env_fill := fun _ => inr [];
     env_calib_read := fun _ => 0 |}.

(** The same environment with the clock one hour later. *)
Definition env_later : Env :=
  {| env_clock := fun n => 3600000001000 + Z.of_nat n;
     env_property := fun _ => 0;
     env_open := fun _ _ => true;
     env_write := fun _ => 1;
     env_errno := fun _ => 0;
     env_fill := fun _ => inr [];
     env_calib_read := fun _ => 0 |}.

(** An environment in which no control file can be opened. *)
Definition env_no_sysfs : Env :=
  {| env_clock := fun n => 1000 + Z.of_nat n;
     env_property := fun _ => 0;
     env_open := fun _ _ => false;
     env_write := fun _ => 1;
     env_errno := fun _ => ENOENT;
     env_fill := fun _ => inr [];
     env_calib_read := fun _ => 0 |}.

Definition blank : sensors_event_t :=
  mkEvent 104 0 0 0 (replicate 16 F32.zero) 0 0 0 0.

Definition sysfs_dir : string := "/sys/class/htc_sensorhub/sensor_hub/".

(** A driver with 32 blank slots, nothing enabled and nothing buffered. *)
Definition idle : CwMcuSensor :=
  {| mEnabled := 0;
     mPendingMask := 0;
     mPendingEvents := replicate 32 blank;
     mPendingEventsFlush := blank;
     mFlushSensorEnabled := -1;
     l_timestamp := 0;
     g_timestamp := 0;
     init_trigger_done := true;
     fill_block_debug := 0;
     fixed_sysfs_path := sysfs_dir;
     fixed_sysfs_path_len := String.length sysfs_dir;
     mDevPath := (sysfs_dir ++ "iio")%string;
     mTriggerName := "CwMcuSensor-dev0";
     mInputReader := [];
     trace := [] |}.

(** A 24-byte record: tag, three primary values, three auxiliary values,
    device time (all small and non-negative here). *)
Definition record (id d0 d1 d2 b0 t : Z) : cw_event :=
  [id; d0 mod 256; d0 / 256; d1 mod 256; d1 / 256; d2 mod 256; d2 / 256;
   b0 mod 256; b0 / 256; 0; 0; 0; 0;
   t mod 256; t / 256; 0; 0; 0; 0; 0; 0; 0; 0; 0].

Example record_length : length (record 7 1 2 3 4 5) = 24%nat.
Proof. reflexivity. Qed.

Example record_fields :
  let ev := record 7 5000 300 2 3 777 in
  (ev_id ev, ev_data ev 0, ev_data ev 1, ev_data ev 2, ev_bias ev 0, ev_time ev)
  = (7, 5000, 300, 2, 3, 777).
Proof. reflexivity. Qed.

End Sample.

(** ** Sample runs *)

(** Enabling the accelerometer writes ["0 1"] to [enable] and sets bit 0. *)
Example setEnable_accelerometer :
  match setEnable Sample.hdr Sample.env 0 1 Sample.idle with
  | Done rc s =>
      rc = 0 /\ mEnabled s = 1
      /\ trace s = [IoProperty "debug.sensorhal.fill.block";
                    IoOpen "/sys/class/htc_sensorhub/sensor_hub/enable";
                    IoWrite "/sys/class/htc_sensorhub/sensor_hub/enable" (Ints [0; 1])]
  | Fault _ => False
  end.
Proof. vm_compute. repeat split. Qed.

(** Disabling the magnetometer also saves the compass calibration. *)
Example setEnable_magnetometer_off :
  match setEnable Sample.hdr Sample.env 1 0 (set_mEnabled 3 Sample.idle) with
  | Done rc s =>
      rc = 0 /\ mEnabled s = 1
      /\ last (trace s) = Some (IoCalibSave 1 "/data/misc/cw_calibrator_mag.ini")
  | Fault _ => False
  end.
Proof. vm_compute. repeat split. Qed.

(** Batch mode is refused for the light sensor, and a dry run does nothing. *)
Example batch_light_refused :
  batch Sample.hdr Sample.env 3 0 20000000 5 Sample.idle = Done (- EINVAL) Sample.idle.
Proof. reflexivity. Qed.

Example batch_dry_run :
  batch Sample.hdr Sample.env 0 1 20000000 0 Sample.idle = Done 0 Sample.idle.
Proof. reflexivity. Qed.

(** A time-diff-exhausted record with the magic byte 0x77 requests a sync:
    the sync code is written to [flush] and the host time becomes the
    candidate. *)
Example time_diff_exhausted_requests_sync :
  match processEvent Sample.hdr Sample.env (Sample.record 29 119 0 0 0 9) Sample.idle with
  | Done id s =>
      id = 29 /\ l_timestamp s = 1002 /\ g_timestamp s = 0
      /\ trace s = [IoOpen "/sys/class/htc_sensorhub/sensor_hub/flush";
                    IoWrite "/sys/class/htc_sensorhub/sensor_hub/flush" (Ints [98]);
                    IoClock]
  | Fault _ => False
  end.
Proof. vm_compute. repeat split. Qed.

(** * Properties *)

(** ** Switches *)

Section Switches.

Context (hdr : Header).

Lemma tag_eqb (a b : CW_SENSORS_ID) :
  (tag hdr a =? tag hdr b) = bool_decide (a = b).
Proof.
  destruct (decide (a = b)) as [->|Hne].
  - rewrite Z.eqb_refl. symmetry. now apply bool_decide_eq_true.
  - rewrite bool_decide_eq_false_2 by assumption.
    apply Z.eqb_neq. intros Heq. apply Hne. now apply (tag_inj hdr).
Qed.

Lemma handle_eqb (a b : SensorHandle) :
  (handle hdr a =? handle hdr b) = bool_decide (a = b).
Proof.
  destruct (decide (a = b)) as [->|Hne].
  - rewrite Z.eqb_refl. symmetry. now apply bool_decide_eq_true.
  - rewrite bool_decide_eq_false_2 by assumption.
    apply Z.eqb_neq. intros Heq. apply Hne. now apply (handle_inj hdr).
Qed.

(** A switch on the value of an enumerator takes that enumerator's case
    when it has one, and the default otherwise. *)
Lemma select_tag (labels : list CW_SENSORS_ID) (k : CW_SENSORS_ID) :
  select (tag hdr) labels (tag hdr k)
  = find (fun k' => bool_decide (k' = k)) labels.
Proof.
  unfold select. induction labels as [|l labels IH]; simpl; [reflexivity|].
  rewrite tag_eqb, IH. reflexivity.
Qed.

Lemma select_handle (labels : list SensorHandle) (h : SensorHandle) :
  select (handle hdr) labels (handle hdr h)
  = find (fun h' => bool_decide (h' = h)) labels.
Proof.
  unfold select. induction labels as [|l labels IH]; simpl; [reflexivity|].
  rewrite handle_eqb, IH. reflexivity.
Qed.

Lemma select_Some {K : Type} (value : K -> Z) labels v k :
  select value labels v = Some k -> value k = v /\ In k labels.
Proof.
  unfold select. intros H. apply find_some in H as [Hin Heq].
  split; [now apply Z.eqb_eq | assumption].
Qed.

(** [find_sensor] inverts the handle table. *)
Lemma find_sensor_handle (h : SensorHandle) :
  find_sensor hdr (handle hdr h) = tag hdr (kind_of_handle h).
Proof.
  unfold find_sensor. rewrite select_handle. now destruct h.
Qed.

(** A handle outside the table maps to no kind. *)
Lemma find_sensor_unknown (h : Z) :
  (forall l, handle hdr l <> h) -> find_sensor hdr h = -1.
Proof.
  intros Hno. unfold find_sensor.
  destruct (select (handle hdr) find_sensor_labels h) as [l|] eqn:E; [|reflexivity].
  apply select_Some in E as [E _]. now apply Hno in E.
Qed.

End Switches.

(** ** Reasoning about runs *)

(** [wp m Q s]: if the run of [m] from [s] stays within defined behaviour,
    its result and final state satisfy [Q]. *)
Definition wp {A : Type} (m : M A) (Q : A -> CwMcuSensor -> Prop) (s : CwMcuSensor) : Prop :=
  match m s with
  | Done a s' => Q a s'
  | Fault _ => True
  end.

(** [stable R m]: every run of [m] relates its initial to its final state. *)
Definition stable {A : Type} (R : relation CwMcuSensor) (m : M A) : Prop :=
  forall s, wp m (fun _ s' => R s s') s.

(** The field [f] is not changed. *)
Definition same {B : Type} (f : CwMcuSensor -> B) : relation CwMcuSensor :=
  fun s s' => f s' = f s.

(** The trace only grows. *)
Definition grows : relation CwMcuSensor :=
  fun s s' => trace s `prefix_of` trace s'.

(** The conjunction of two frame relations. *)
Definition both (R1 R2 : relation CwMcuSensor) : relation CwMcuSensor :=
  fun s s' => R1 s s' /\ R2 s s'.

#[global] Instance same_preorder {B : Type} (f : CwMcuSensor -> B) : PreOrder (same f).
Proof.
  split; [intros s; reflexivity|].
  intros s1 s2 s3 H12 H23. unfold same in *. congruence.
Qed.

#[global] Instance grows_preorder : PreOrder grows.
Proof.
  split; [intros s; unfold grows; reflexivity|].
  intros s1 s2 s3 H12 H23. unfold grows in *. etransitivity; eassumption.
Qed.

#[global] Instance both_preorder R1 R2 :
  PreOrder R1 -> PreOrder R2 -> PreOrder (both R1 R2).
Proof.
  intros P1 P2. split.
  - intros s. split; reflexivity.
  - intros s1 s2 s3 [H12 H12'] [H23 H23']. split; etransitivity; eassumption.
Qed.

Section Rules.

Lemma wp_done {A} (m : M A) Q s a s' : wp m Q s -> m s = Done a s' -> Q a s'.
Proof. unfold wp. intros H E. now rewrite E in H. Qed.

Lemma wp_conseq {A} (m : M A) (Q Q' : A -> CwMcuSensor -> Prop) s :
  wp m Q s -> (forall a s', Q a s' -> Q' a s') -> wp m Q' s.
Proof. unfold wp. destruct (m s); auto. Qed.

Lemma wp_and {A} (m : M A) (Q Q' : A -> CwMcuSensor -> Prop) s :
  wp m Q s -> wp m Q' s -> wp m (fun a s' => Q a s' /\ Q' a s') s.
Proof. unfold wp. destruct (m s); auto. Qed.

Lemma wp_any {A} (m : M A) s : wp m (fun _ _ => True) s.
Proof. unfold wp. now destruct (m s). Qed.

Lemma wp_ret {A} (a : A) Q s : Q a s -> wp (ret a) Q s.
Proof. exact id. Qed.

Lemma wp_raise {A} f (Q : A -> CwMcuSensor -> Prop) s : wp (raise f) Q s.
Proof. exact I. Qed.

Lemma wp_bind {A B} (m : M A) (k : A -> M B) Q s :
  wp m (fun a s' => wp (k a) Q s') s -> wp (bind m k) Q s.
Proof. unfold wp, bind. destruct (m s); auto. Qed.

(** Sequencing after a step of which only some property is needed. *)
Lemma wp_bind_with {A B} (m : M A) (k : A -> M B) P Q s :
  wp m P s -> (forall a s', P a s' -> wp (k a) Q s') -> wp (bind m k) Q s.
Proof. intros H HK. apply wp_bind. eapply wp_conseq; eauto. Qed.

Lemma stable_ret {A} R `{!PreOrder R} (a : A) : stable R (ret a).
Proof. intros s. apply wp_ret. reflexivity. Qed.

Lemma stable_raise {A} R f : stable R (raise f : M A).
Proof. intros s. exact I. Qed.

Lemma stable_bind {A B} R `{!PreOrder R} (m : M A) (k : A -> M B) :
  stable R m -> (forall a, stable R (k a)) -> stable R (bind m k).
Proof.
  intros Hm Hk s. apply wp_bind. eapply wp_conseq; [apply Hm|].
  intros a s1 H1. eapply wp_conseq; [apply Hk|].
  intros b s2 H2. simpl in *. etransitivity; eassumption.
Qed.

End Rules.

Section RulesPrimitive.

Context (hdr : Header) (env : Env).

Lemma wp_get Q s : Q s s -> wp get Q s.
Proof. exact id. Qed.

Lemma wp_modify f Q s : Q tt (f s) -> wp (modify f) Q s.
Proof. exact id. Qed.

Lemma wp_errno Q s : Q (env_errno env (length (trace s))) s -> wp (errno env) Q s.
Proof. exact id. Qed.

Lemma wp_ask {A} (c : io_call) (answer : nat -> A) Q s :
  Q (answer (length (trace s))) (set_trace (trace s ++ [c]) s) ->
  wp (ask c answer) Q s.
Proof. exact id. Qed.

Lemma stable_ask {A} R (c : io_call) (answer : nat -> A) :
  (forall s, R s (set_trace (trace s ++ [c]) s)) -> stable R (ask c answer).
Proof. intros H s. apply wp_ask, H. Qed.

Lemma wp_read_slot i Q s :
  (forall e, 0 <= i -> mPendingEvents s !! Z.to_nat i = Some e -> Q e s) ->
  wp (read_slot i) Q s.
Proof.
  intros H. unfold wp, read_slot.
  destruct (i <? 0) eqn:Ei; [exact I|]. apply Z.ltb_ge in Ei.
  destruct (mPendingEvents s !! Z.to_nat i) eqn:El; [|exact I]. now apply H.
Qed.

Lemma wp_update_slot i f Q s :
  (forall e, 0 <= i -> mPendingEvents s !! Z.to_nat i = Some e ->
     Q tt (set_mPendingEvents (<[Z.to_nat i := f e]> (mPendingEvents s)) s)) ->
  wp (update_slot i f) Q s.
Proof.
  intros H. unfold update_slot. apply wp_bind, wp_read_slot.
  intros e Hi He. apply wp_modify. now apply H.
Qed.

Lemma wp_shl1 k Q s :
  (0 <= k < 32 -> Q (Z.shiftl 1 k) s) -> wp (shl1 k) Q s.
Proof.
  intros H. unfold shl1.
  destruct (0 <=? k) eqn:E1; simpl; [|exact I].
  destruct (k <? 32) eqn:E2; simpl; [|exact I].
  apply wp_ret, H. apply Z.leb_le in E1. apply Z.ltb_lt in E2. lia.
Qed.

Lemma stable_get R `{!PreOrder R} : stable R get.
Proof. intros s. apply wp_get. reflexivity. Qed.

Lemma stable_modify R f : (forall s, R s (f s)) -> stable R (modify f).
Proof. intros H s. apply wp_modify, H. Qed.

Lemma stable_errno R `{!PreOrder R} : stable R (errno env).
Proof. intros s. apply wp_errno. reflexivity. Qed.

Lemma stable_read_slot R `{!PreOrder R} i : stable R (read_slot i).
Proof. intros s. apply wp_read_slot. intros. reflexivity. Qed.

Lemma stable_shl1 R `{!PreOrder R} k : stable R (shl1 k).
Proof. intros s. apply wp_shl1. intros. reflexivity. Qed.

Lemma stable_update_slot R i f :
  (forall s e, 0 <= i -> mPendingEvents s !! Z.to_nat i = Some e ->
     R s (set_mPendingEvents (<[Z.to_nat i := f e]> (mPendingEvents s)) s)) ->
  stable R (update_slot i f).
Proof. intros H s. apply wp_update_slot. intros e Hi He. now apply H. Qed.

End RulesPrimitive.

(** The member functions, for unfolding. *)
Create HintDb driver.
#[global] Hint Unfold
  getTimestamp property_get sys_open sys_write cw_read_calibrator_file
  cw_save_calibrator_file set_sysfs_attr sysfs_set_input_attr
  sysfs_set_input_attr_by_int mark_pending sync_timestamp_locked
  sync_timestamp assign_enabled_bit setEnable batch flush setDelay
  calculate_rv_4th_element store_vector decode_payload processEvent
  reader_fill reader_readEvent reader_next enabled_bit emit dispatch : driver.

(** Frame properties by traversal of the code: binds are split, branches
    are followed, and what remains is the effect of each assignment. *)
Ltac stable_step :=
  lazymatch goal with
  | |- stable _ (bind _ _) => apply stable_bind; [typeclasses eauto | | intros ?]
  | |- stable _ (ret _) => apply stable_ret; typeclasses eauto
  | |- stable _ (raise _) => apply stable_raise
  | |- stable _ get => apply stable_get; typeclasses eauto
  | |- stable _ (errno _) => apply stable_errno; typeclasses eauto
  | |- stable _ (read_slot _) => apply stable_read_slot; typeclasses eauto
  | |- stable _ (shl1 _) => apply stable_shl1; typeclasses eauto
  | |- stable _ (update_slot _ _) => apply stable_update_slot; intros ? ? ? ?
  | |- stable _ (modify _) => apply stable_modify; intros ?
  | |- stable _ (ask _ _) => apply stable_ask; intros ?
  | |- stable _ (if ?b then _ else _) => destruct b
  | |- stable _ (match ?x with _ => _ end) => destruct x
  end.

Ltac stable_frame :=
  autounfold with driver; cbv zeta;
  repeat stable_step;
  unfold both, same, grows; simpl;
  repeat split; try reflexivity; try (apply prefix_app_r; reflexivity).

(** Symbolic execution, one statement at a time. *)
Ltac wp_step :=
  lazymatch goal with
  | |- wp (bind _ _) _ _ => apply wp_bind
  | |- wp (ret _) _ _ => apply wp_ret
  | |- wp (raise _) _ _ => apply wp_raise
  | |- wp get _ _ => apply wp_get
  | |- wp (modify _) _ _ => apply wp_modify
  | |- wp (errno _) _ _ => apply wp_errno
  | |- wp (ask _ _) _ _ => apply wp_ask
  | |- wp (read_slot _) _ _ => apply wp_read_slot; intros ? ? ?
  | |- wp (update_slot _ _) _ _ => apply wp_update_slot; intros ? ? ?
  | |- wp (shl1 _) _ _ => apply wp_shl1; intros ?
  | |- wp (if ?b then _ else _) _ _ => destruct b eqn:?
  | |- wp (match ?x with _ => _ end) _ _ => destruct x eqn:?
  end.


(** [simpl] is to compute the setters of the driver record and to leave
    the statements of a program as they are. *)
Arguments wp : simpl never.
Arguments bind : simpl never.
Arguments ret : simpl never.
Arguments raise : simpl never.
Arguments get : simpl never.
Arguments modify : simpl never.
Arguments ask : simpl never.
Arguments errno : simpl never.
Arguments read_slot : simpl never.
Arguments update_slot : simpl never.
Arguments shl1 : simpl never.

Ltac wp_run := autounfold with driver; cbv zeta; repeat (wp_step; simpl).



(** ** Single steps that succeed *)

Section Steps.

Context (hdr : Header) (env : Env).

Lemma bind_done {A B} (m : M A) (k : A -> M B) s a s' :
  m s = Done a s' -> bind m k s = k a s'.
Proof. unfold bind. now intros ->. Qed.

Lemma bind_fault {A B} (m : M A) (k : A -> M B) s f :
  m s = Fault f -> bind m k s = Fault f.
Proof. unfold bind. now intros ->. Qed.

Lemma bind_assoc {A B C} (m : M A) (k : A -> M B) (k' : B -> M C) s :
  bind (bind m k) k' s = bind m (fun a => bind (k a) k') s.
Proof. unfold bind. now destruct (m s). Qed.

Lemma bind_ret {A B} (a : A) (k : A -> M B) s : bind (ret a) k s = k a s.
Proof. reflexivity. Qed.

Lemma read_slot_done i s e :
  0 <= i -> mPendingEvents s !! Z.to_nat i = Some e -> read_slot i s = Done e s.
Proof.
  intros Hi He. unfold read_slot.
  replace (i <? 0) with false by (symmetry; apply Z.ltb_ge; lia).
  now rewrite He.
Qed.

Lemma read_slot_fault i s :
  (Z.of_nat (length (mPendingEvents s)) <= i) -> read_slot i s = Fault (OutOfBounds i).
Proof.
  intros Hi. unfold read_slot.
  replace (i <? 0) with false by (symmetry; apply Z.ltb_ge; lia).
  rewrite lookup_ge_None_2 by lia. reflexivity.
Qed.

Lemma update_slot_done i f s e :
  0 <= i -> mPendingEvents s !! Z.to_nat i = Some e ->
  update_slot i f s
  = Done tt (set_mPendingEvents (<[Z.to_nat i := f e]> (mPendingEvents s)) s).
Proof.
  intros Hi He. unfold update_slot.
  now rewrite (bind_done _ _ _ _ _ (read_slot_done i s e Hi He)).
Qed.

Lemma update_slot_fault i f s :
  (Z.of_nat (length (mPendingEvents s)) <= i) ->
  update_slot i f s = Fault (OutOfBounds i).
Proof.
  intros Hi. unfold update_slot. apply bind_fault. now apply read_slot_fault.
Qed.

Lemma ev_id_range ev : 0 <= ev_id ev < 256.
Proof. unfold ev_id, byte_at. apply Z.mod_pos_bound. lia. Qed.

End Steps.

(** ** Bit masks *)

Section BitMasks.

Lemma shiftl_1_testbit k n :
  0 <= k -> 0 <= n -> Z.testbit (Z.shiftl 1 k) n = (n =? k).
Proof.
  intros Hk Hn. rewrite Z.shiftl_spec by assumption.
  destruct (n =? k) eqn:E.
  - apply Z.eqb_eq in E. subst. now rewrite Z.sub_diag.
  - apply Z.eqb_neq in E. destruct (Z.lt_ge_cases n k).
    + apply Z.testbit_neg_r. lia.
    + change 1 with (2 ^ 0). apply Z.pow2_bits_false. lia.
Qed.

Lemma uint32_testbit m n :
  0 <= n < 32 -> Z.testbit (Int.uint32 m) n = Z.testbit m n.
Proof. intros H. unfold Int.uint32, Int.unsigned. apply Z.mod_pow2_bits_low. lia. Qed.

(** [(m & (1 << k)) == 0] means bit [k] of [m] is clear. *)
Lemma land_bit_testbit m k :
  0 <= k -> (Z.land m (Z.shiftl 1 k) =? 0) = negb (Z.testbit m k).
Proof.
  intros Hk. destruct (Z.testbit m k) eqn:Eb; simpl.
  - apply Z.eqb_neq. intros H0.
    assert (Hbit : Z.testbit (Z.land m (Z.shiftl 1 k)) k = true).
    { rewrite Z.land_spec, Eb, shiftl_1_testbit, Z.eqb_refl by assumption. reflexivity. }
    rewrite H0, Z.bits_0 in Hbit. discriminate.
  - apply Z.eqb_eq. apply Z.bits_inj'. intros n Hn.
    rewrite Z.land_spec, Z.bits_0, shiftl_1_testbit by assumption.
    destruct (n =? k) eqn:E; [|apply andb_false_r].
    apply Z.eqb_eq in E. subst. now rewrite Eb.
Qed.


End BitMasks.

(** ** Frame properties of the member functions *)

Section Frames.

Context (hdr : Header) (env : Env).

(** Decoding never touches the input reader or the enabled mask. *)
Lemma processEvent_frame ev :
  stable (both (same mInputReader) (both (same mEnabled) grows))
         (processEvent hdr env ev).
Proof. stable_frame. Qed.



(** [processEvent] returns the tag byte. *)
Lemma processEvent_id ev s :
  wp (processEvent hdr env ev) (fun id _ => id = ev_id ev) s.
Proof.
  unfold processEvent.
  eapply wp_bind_with; [apply wp_any | intros _ s1 _].
  eapply wp_bind_with; [apply wp_any | intros _ s2 _].
  now wp_step.
Qed.

End Frames.

(** ** The tag byte as an index (C1) *)

(** C1.  The tag byte of a record is used as an index into the table of
    pending samples without a bounds check: for a record whose tag byte is
    not below the number of slots, the first assignment of [processEvent]
    ([mPendingEvents[sensorsid].timestamp = time]) is out of bounds, and so
    is the turn of the dispatch loop that decodes the record.  The
    out-of-range branch of the checked indexing is therefore reachable. *)
Theorem processEvent_index_unchecked (hdr : Header) (env : Env)
    (s : CwMcuSensor) (ev : cw_event) :
  length ev = 24%nat ->
  Z.of_nat (length (mPendingEvents s)) <= ev_id ev ->
  processEvent hdr env ev s = Fault (OutOfBounds (ev_id ev))
  /\ dispatch hdr env ev s = Fault (OutOfBounds (ev_id ev)).
Proof.
  intros _ Hout.
  assert (E : processEvent hdr env ev s = Fault (OutOfBounds (ev_id ev))).
  { unfold processEvent. apply bind_fault. now apply update_slot_fault. }
  split; [exact E|]. unfold dispatch. now apply bind_fault.
Qed.

Lemma processEvent_index_unchecked_witness :
  processEvent Sample.hdr Sample.env (Sample.record 255 0 0 0 0 0) Sample.idle
    = Fault (OutOfBounds 255)
  /\ dispatch Sample.hdr Sample.env (Sample.record 255 0 0 0 0 0) Sample.idle
    = Fault (OutOfBounds 255).
Proof.
  apply (processEvent_index_unchecked Sample.hdr Sample.env Sample.idle
           (Sample.record 255 0 0 0 0 0)).
  - reflexivity.
  - vm_compute. discriminate.
Defined.

(** ** Decoding and finalizing one record (C2) *)

(** The driver [s] with slot [i] replaced by [e] and the dirty mask by [m]:
    every other slot and every other member is that of [s]. *)
Definition with_slot (i : nat) (e : sensors_event_t) (m : Z) (s : CwMcuSensor) : CwMcuSensor :=
  set_mPendingMask m (set_mPendingEvents (<[i := e]> (mPendingEvents s)) s).

Lemma with_slot_id i e s :
  mPendingEvents s !! i = Some e -> with_slot i e (mPendingMask s) s = s.
Proof.
  intros He. unfold with_slot. rewrite list_insert_id by assumption. now destruct s.
Qed.

Lemma with_slot_lookup i e m s :
  (i < length (mPendingEvents s))%nat ->
  mPendingEvents (with_slot i e m s) !! i = Some e.
Proof. intros Hi. simpl. now apply list_lookup_insert_eq. Qed.

Section Confined.

Context (hdr : Header) (env : Env).

(** Decoding a record, then deriving the fields that are not transmitted. *)
Definition decode_finalize (ev : cw_event) : M Z :=
  id <- processEvent hdr env ev ;;
  calculate_rv_4th_element hdr id ;;;
  ret id.

Lemma update_slot_with_slot id f e m s :
  0 <= id -> (Z.to_nat id < length (mPendingEvents s))%nat ->
  update_slot id f (with_slot (Z.to_nat id) e m s)
  = Done tt (with_slot (Z.to_nat id) (f e) m s).
Proof.
  intros Hid Hlen.
  rewrite (update_slot_done id f _ e Hid (with_slot_lookup _ e m s Hlen)).
  f_equal. unfold with_slot. destruct s. simpl. now rewrite list_insert_insert_eq.
Qed.

Lemma read_slot_with_slot id e m s :
  0 <= id -> (Z.to_nat id < length (mPendingEvents s))%nat ->
  read_slot id (with_slot (Z.to_nat id) e m s)
  = Done e (with_slot (Z.to_nat id) e m s).
Proof.
  intros Hid Hlen. apply read_slot_done; [assumption|]. now apply with_slot_lookup.
Qed.

Lemma mark_pending_with_slot id i e m s :
  0 <= id < 32 ->
  mark_pending id (with_slot i e m s)
  = Done tt (with_slot i e (Int.uint32 (Z.lor m (Z.shiftl 1 id))) s).
Proof.
  intros Hid. unfold mark_pending, shl1, bind.
  replace (0 <=? id) with true by (symmetry; apply Z.leb_le; lia).
  replace (id <? 32) with true by (symmetry; apply Z.ltb_lt; lia).
  now destruct s.
Qed.

End Confined.

(** Sensor kinds decode into their own slot: in [with_slot] form, the run
    replaces the sample and sets the dirty bit, and nothing else. *)
Lemma decode_finalize_with_slot (hdr : Header) (h : SensorHandle)
    (ev : cw_event) (e : sensors_event_t) :
  h <> ID_CW_STEP_DETECTOR ->
  ev_id ev = tag hdr (kind_of_handle h) ->
  ev_id ev < 32 ->
  exists e', forall env m s,
    (Z.to_nat (ev_id ev) < length (mPendingEvents s))%nat ->
    decode_finalize hdr env ev (with_slot (Z.to_nat (ev_id ev)) e m s)
    = Done (ev_id ev)
        (with_slot (Z.to_nat (ev_id ev)) e'
           (Int.uint32 (Z.lor m (Z.shiftl 1 (ev_id ev)))) s).
Proof.
  intros Hnot Htag Hlt.
  pose proof (ev_id_range ev) as [Hid _].
  assert (Hr : 0 <= ev_id ev < 32) by lia.
  unfold decode_finalize, processEvent, decode_payload, store_vector,
    calculate_rv_4th_element.
  rewrite Htag in *. clear Htag.
  destruct h; try (now contradiction Hnot); clear Hnot;
    eexists; intros env m s Hlen; simpl kind_of_handle in *;
    repeat
      (first
         [ rewrite bind_assoc
         | rewrite bind_ret
         | erewrite bind_done by (apply update_slot_with_slot; [exact Hid | exact Hlen])
         | erewrite bind_done by (apply mark_pending_with_slot; exact Hr)
         | erewrite bind_done by (apply read_slot_with_slot; [exact Hid | exact Hlen])
         | rewrite update_slot_with_slot by first [exact Hid | exact Hlen]
         | rewrite Z.eqb_refl
         | rewrite tag_eqb
         | rewrite select_tag ];
       simpl);
    reflexivity.
Qed.

(** For every sensor kind, decoding then finalizing a record gives the same
    sample in any two runs, changes no slot but the record's own and
    performs no I/O. *)
Definition decode_confined (hdr : Header) : Prop :=
  forall h env1 env2 s ev s1 s2,
    ev_id ev = tag hdr (kind_of_handle h) ->
    decode_finalize hdr env1 ev s = Done (ev_id ev) s1 ->
    decode_finalize hdr env2 ev s = Done (ev_id ev) s2 ->
    mPendingEvents s1 !! Z.to_nat (ev_id ev) = mPendingEvents s2 !! Z.to_nat (ev_id ev)
    /\ (forall j, j <> Z.to_nat (ev_id ev) ->
          mPendingEvents s1 !! j = mPendingEvents s !! j)
    /\ trace s1 = trace s.

(** C2, as the code has it.  For every sensor kind other than StepDetector,
    decoding then finalizing a record is a function of the 24 bytes and of
    the sample the slot held before: the new sample [e'] is the same in
    every environment and for every driver whose slot held [e].  The run
    replaces that one sample and sets the kind's bit in the dirty mask;
    every other slot and every other member of the driver is unchanged,
    and the environment is not consulted (no clock read, no file access).
    A StepDetector record is outside this: it also writes [data[0]] of
    StepCounter's slot and stamps its own slot with the host clock. *)
Theorem decode_finalize_confined (hdr : Header) (h : SensorHandle)
    (ev : cw_event) (e : sensors_event_t) :
  h <> ID_CW_STEP_DETECTOR ->
  ev_id ev = tag hdr (kind_of_handle h) ->
  ev_id ev < 32 ->
  exists e', forall env s,
    mPendingEvents s !! Z.to_nat (ev_id ev) = Some e ->
    exists s',
      decode_finalize hdr env ev s = Done (ev_id ev) s'
      /\ mPendingEvents s' = <[Z.to_nat (ev_id ev) := e']> (mPendingEvents s)
      /\ (forall j, j <> Z.to_nat (ev_id ev) ->
            mPendingEvents s' !! j = mPendingEvents s !! j)
      /\ mPendingMask s'
         = Int.uint32 (Z.lor (mPendingMask s) (Z.shiftl 1 (ev_id ev)))
      /\ trace s' = trace s
      /\ s' = with_slot (Z.to_nat (ev_id ev)) e' (mPendingMask s') s.
Proof.
  intros Hnot Htag Hlt.
  destruct (decode_finalize_with_slot hdr h ev e Hnot Htag Hlt) as [e' Hrun].
  exists e'. intros env s He.
  specialize (Hrun env (mPendingMask s) s (lookup_lt_Some _ _ _ He)).
  rewrite (with_slot_id _ e s He) in Hrun.
  eexists. split; [exact Hrun|].
  refine (conj eq_refl (conj _ (conj eq_refl (conj eq_refl eq_refl)))).
  intros j Hj. simpl. now apply list_lookup_insert_ne.
Qed.

(** A rotation-vector record and a StepDetector record. *)
Definition rotation : cw_event := Sample.record 7 5000 5000 5000 0 40.
Definition step : cw_event := Sample.record 21 7 0 0 0 5.

Lemma decode_finalize_confined_witness :
  exists e' s',
    decode_finalize Sample.hdr Sample.env rotation Sample.idle = Done 7 s'
    /\ mPendingEvents s' = <[7%nat := e']> (mPendingEvents Sample.idle)
    /\ trace s' = [].
Proof.
  destruct (decode_finalize_confined Sample.hdr ID_RV rotation Sample.blank)
    as (e' & Hrun).
  - discriminate.
  - reflexivity.
  - vm_compute. reflexivity.
  - destruct (Hrun Sample.env Sample.idle eq_refl)
      as (s' & Hdone & Htable & _ & _ & Htrace & _).
    exists e', s'. split; [exact Hdone|]. split; [exact Htable | exact Htrace].
Defined.

Example decode_finalize_rotation :
  match decode_finalize Sample.hdr Sample.env rotation Sample.idle with
  | Done _ s' =>
      (data <$> mPendingEvents s' !! 7%nat)
      = Some ([S754_finite false 8388608 (-24); S754_finite false 8388608 (-24);
               S754_finite false 8388608 (-24); S754_finite false 8388608 (-24)]
              ++ replicate 12 F32.zero)
  | Fault _ => False
  end.
Proof. vm_compute. reflexivity. Qed.

(** The claim as stated fails for StepDetector: two runs on the same bytes
    stamp the slot with two different host times (and both overwrite
    [data[0]] of StepCounter's slot). *)
Lemma decode_confined_fails : ~ decode_confined Sample.hdr.
Proof.
  intros H.
  destruct (decode_finalize Sample.hdr Sample.env step Sample.idle)
    as [id1 s1|f1] eqn:Hrun1; [|vm_compute in Hrun1; discriminate Hrun1].
  destruct (decode_finalize Sample.hdr Sample.env_later step Sample.idle)
    as [id2 s2|f2] eqn:Hrun2; [|vm_compute in Hrun2; discriminate Hrun2].
  assert (Hid1 : id1 = 21) by (vm_compute in Hrun1; now inversion Hrun1).
  assert (Hid2 : id2 = 21) by (vm_compute in Hrun2; now inversion Hrun2).
  subst id1 id2.
  destruct (H ID_CW_STEP_DETECTOR Sample.env Sample.env_later Sample.idle step s1 s2
              eq_refl Hrun1 Hrun2) as (Hsame & _ & _).
  vm_compute in Hrun1. inversion Hrun1; subst s1. clear Hrun1.
  vm_compute in Hrun2. inversion Hrun2; subst s2. clear Hrun2.
  vm_compute in Hsame. discriminate Hsame.
Qed.

(** What a StepDetector record does besides. *)
Example step_detector_writes_step_counter :
  match decode_finalize Sample.hdr Sample.env step Sample.idle with
  | Done _ s' =>
      (get_data 0 <$> mPendingEvents s' !! 22%nat) = Some (F32.of_Z 7)
      /\ (get_data 0 <$> mPendingEvents Sample.idle !! 22%nat) = Some F32.zero
      /\ trace s' = [IoClock]
  | Fault _ => False
  end.
Proof. vm_compute. repeat split. Qed.

(** ** Control operations on an unknown handle (C3) *)

Section Control.

Context (hdr : Header) (env : Env).

(** Every control operation rejects a handle of no sensor with [-EINVAL]
    and leaves the driver exactly as it was. *)
Definition rejects_untouched : Prop :=
  forall s h en delay_ns flags period_ns timeout,
    find_sensor hdr h = -1 ->
    setEnable hdr env h en s = Done (- EINVAL) s
    /\ setDelay hdr env h delay_ns s = Done (- EINVAL) s
    /\ batch hdr env h flags period_ns timeout s = Done (- EINVAL) s
    /\ flush hdr env h s = Done (- EINVAL) s.

Lemma invalid_kind_rejected (bound : Z) :
  bound <= 4294967295 -> (Int.uint32 (-1) >=? bound) = true.
Proof. intros H. rewrite Int.uint32_minus_one. apply Z.geb_le. lia. Qed.

(** C3, as the code has it.  Each control operation answers [-EINVAL] to a
    handle of no sensor and writes nothing to the control files.  [setDelay]
    and [batch] leave the driver unchanged.  [setEnable] has by then
    refreshed [fill_block_debug] from the system property
    [debug.sensorhal.fill.block] and changes nothing else; [flush] changes
    no member other than [mFlushSensorEnabled]. *)
Theorem control_rejects_unknown_handle (s : CwMcuSensor) (h : Z) :
  find_sensor hdr h = -1 ->
  numSensors hdr <= 4294967295 ->
  CW_SENSORS_ID_END hdr <= 4294967295 ->
  (forall delay_ns, setDelay hdr env h delay_ns s = Done (- EINVAL) s)
  /\ (forall flags period_ns timeout,
        batch hdr env h flags period_ns timeout s = Done (- EINVAL) s)
  /\ (exists recorded,
        flush hdr env h s = Done (- EINVAL) (set_mFlushSensorEnabled recorded s))
  /\ (forall en,
        setEnable hdr env h en s
        = Done (- EINVAL)
            (set_fill_block_debug
               (if env_property env (length (trace s)) =? 1 then 1 else 0)
               (set_trace (trace s ++ [IoProperty "debug.sensorhal.fill.block"]) s))).
Proof.
  intros Hno Hnum Hend.
  refine (conj _ (conj _ (conj _ _))).
  - intros delay_ns. unfold setDelay.
    now rewrite Hno, invalid_kind_rejected.
  - intros flags period_ns timeout. unfold batch.
    now rewrite Hno, invalid_kind_rejected.
  - exists h. unfold flush, bind, modify. now rewrite Hno, invalid_kind_rejected.
  - intros en. unfold setEnable, property_get, ask, bind, modify.
    now rewrite Hno, invalid_kind_rejected.
Qed.

End Control.

Lemma control_rejects_unknown_handle_witness :
  (exists recorded,
     flush Sample.hdr Sample.env 1000 Sample.idle
     = Done (- EINVAL) (set_mFlushSensorEnabled recorded Sample.idle))
  /\ setDelay Sample.hdr Sample.env 1000 5000000 Sample.idle = Done (- EINVAL) Sample.idle.
Proof.
  destruct (control_rejects_unknown_handle Sample.hdr Sample.env Sample.idle 1000)
    as (Hdelay & _ & Hflush & _).
  - reflexivity.
  - vm_compute. discriminate.
  - vm_compute. discriminate.
  - split; [exact Hflush | apply Hdelay].
Defined.

(** The claim as stated fails: [flush] on an unknown handle changes
    [mFlushSensorEnabled]. *)
Lemma rejects_untouched_fails : ~ rejects_untouched Sample.hdr Sample.env.
Proof.
  intros H.
  destruct (H Sample.idle 1000 0 0 0 0 0 eq_refl) as (_ & _ & _ & Hflush).
  vm_compute in Hflush. discriminate Hflush.
Qed.

(** ** Significant motion is one-shot (C4) *)


Section OneShot.

Context (hdr : Header) (env : Env).

(** Bit [k] of the enabled mask. *)
Definition enabled (k : CW_SENSORS_ID) (s : CwMcuSensor) : bool :=
  Z.testbit (mEnabled s) (tag hdr k).








End OneShot.





(** ** The fourth quaternion component (C5) *)

(** *** Rounding never produces a NaN *)

Section NoNaN.

Lemma shr_1_nonneg mrs : 0 <= shr_m mrs -> 0 <= shr_m (shr_1 mrs).
Proof.
  destruct mrs as [m r s]. destruct m as [|p|p]; simpl; intros H.
  - lia.
  - destruct p; simpl; lia.
  - lia.
Qed.

Lemma iter_shr_1_nonneg p : forall mrs,
  0 <= shr_m mrs -> 0 <= shr_m (SpecFloat.iter_pos shr_1 p mrs).
Proof.
  induction p as [p IH|p IH|]; intros mrs H; simpl.
  - apply IH, IH. now apply shr_1_nonneg.
  - now apply IH, IH.
  - now apply shr_1_nonneg.
Qed.

Lemma shr_fexp_nonneg prec emax m e l :
  0 <= m -> 0 <= shr_m (fst (shr_fexp prec emax m e l)).
Proof.
  intros H. unfold shr_fexp, shr.
  assert (H0 : 0 <= shr_m (shr_record_of_loc m l)) by (now destruct l as [|[]]).
  destruct (fexp prec emax (Zdigits2 m + e) - e); simpl; try assumption.
  now apply iter_shr_1_nonneg.
Qed.

Lemma round_nearest_even_nonneg m l : 0 <= m -> 0 <= round_nearest_even m l.
Proof.
  intros H. destruct l as [|[]]; simpl; try assumption; try lia.
  destruct (Z.even m); lia.
Qed.

Lemma binary_round_aux_not_nan prec emax sx mx ex lx :
  0 <= mx -> F32.is_nan (binary_round_aux prec emax sx mx ex lx) = false.
Proof.
  intros H. unfold binary_round_aux.
  pose proof (shr_fexp_nonneg prec emax mx ex lx H) as H1.
  destruct (shr_fexp prec emax mx ex lx) as [mrs' e']. simpl in H1.
  pose proof (shr_fexp_nonneg prec emax _ e' loc_Exact
                (round_nearest_even_nonneg _ (loc_of_shr_record mrs') H1)) as H2.
  destruct (shr_fexp prec emax _ e' loc_Exact) as [mrs'' e'']. simpl in H2.
  destruct (shr_m mrs'') as [|p|p]; [reflexivity | | lia].
  now destruct (e'' <=? emax - prec).
Qed.

Lemma of_double_not_nan d : F32.is_nan d = false -> F32.is_nan (F32.of_double d) = false.
Proof.
  destruct d as [s|s| |s m e]; simpl; try (intros; assumption).
  intros _. unfold binary_round.
  destruct (shl_align m e _) as [mz ez].
  now apply binary_round_aux_not_nan.
Qed.

Lemma sqrt_not_nan x : F32.gtb x F32.zero = true -> F32.is_nan (F32.sqrt x) = false.
Proof.
  intros Hpos. unfold F32.sqrt. apply of_double_not_nan.
  destruct x as [s|[]| |[] m e]; try discriminate Hpos; try reflexivity.
  unfold SFsqrt, SFsqrt_core_binary.
  match goal with |- context [Z.sqrtrem ?a] =>
    pose proof (Z.sqrtrem_sqrt a) as Hq; pose proof (Z.sqrt_nonneg a) as Hn;
    destruct (Z.sqrtrem a) as [q r] end.
  simpl in Hq. subst q. now apply binary_round_aux_not_nan.
Qed.

(** The fourth component is never a NaN, whatever the radicand. *)
Lemma rv_4th_not_nan r : F32.is_nan (rv_4th r) = false.
Proof.
  unfold rv_4th. destruct (F32.gtb r F32.zero) eqn:E; [|reflexivity].
  now apply sqrt_not_nan.
Qed.

End NoNaN.

(** *** Rounding, in exact arithmetic *)

Section Digits.

Lemma digits2_pos_spec p :
  2 ^ (Zpos (digits2_pos p) - 1) <= Zpos p < 2 ^ Zpos (digits2_pos p).
Proof.
  induction p as [p IH|p IH|]; simpl digits2_pos.
  - rewrite Pos2Z.inj_succ, Z.pow_succ_r by lia.
    replace (Z.succ (Zpos (digits2_pos p)) - 1) with (Z.succ (Zpos (digits2_pos p) - 1)) by lia.
    rewrite Z.pow_succ_r by lia. lia.
  - rewrite Pos2Z.inj_succ, Z.pow_succ_r by lia.
    replace (Z.succ (Zpos (digits2_pos p)) - 1) with (Z.succ (Zpos (digits2_pos p) - 1)) by lia.
    rewrite Z.pow_succ_r by lia. lia.
  - simpl. lia.
Qed.

Lemma Zdigits2_nonneg m : 0 <= Zdigits2 m.
Proof. destruct m; simpl; lia. Qed.

Lemma Zdigits2_spec m :
  0 < m -> 2 ^ (Zdigits2 m - 1) <= m < 2 ^ Zdigits2 m.
Proof. destruct m as [|p|p]; try lia. intros _. apply digits2_pos_spec. Qed.

Lemma Zdigits2_pos m : 0 < m -> 0 < Zdigits2 m.
Proof. destruct m; simpl; lia. Qed.

(** A number below [2 ^ k] has at most [k] digits. *)
Lemma Zdigits2_le m k : 0 <= m -> 0 <= k -> m < 2 ^ k -> Zdigits2 m <= k.
Proof.
  intros Hm Hk Hlt. destruct (Z.eq_dec m 0) as [->|Hne]; [simpl; lia|].
  destruct (Zdigits2_spec m ltac:(lia)) as [Hlo _].
  destruct (Z.le_gt_cases (Zdigits2 m) k) as [H|H]; [exact H|].
  exfalso. assert (2 ^ k <= 2 ^ (Zdigits2 m - 1)) by (apply Z.pow_le_mono_r; lia). lia.
Qed.

(** A number from [2 ^ k] on has more than [k] digits. *)
Lemma Zdigits2_gt m k : 0 <= k -> 2 ^ k <= m -> k < Zdigits2 m.
Proof.
  intros Hk Hle. assert (0 < m) by (pose proof (Z.pow_pos_nonneg 2 k); lia).
  destruct (Zdigits2_spec m ltac:(lia)) as [_ Hhi].
  destruct (Z.lt_ge_cases k (Zdigits2 m)) as [H'|H']; [exact H'|].
  exfalso. assert (2 ^ Zdigits2 m <= 2 ^ k) by (apply Z.pow_le_mono_r; lia). lia.
Qed.

End Digits.

Section Shift.

(** One step to the right halves the mantissa. *)
Lemma shr_1_m mrs : 0 <= shr_m mrs -> shr_m (shr_1 mrs) = shr_m mrs / 2.
Proof.
  destruct mrs as [m r s]. cbn [shr_m]. intros H.
  destruct m as [|[p|p|]|p]; cbn [shr_1 shr_m]; try lia; try reflexivity.
  - apply Z.div_unique with (r := 1); lia.
  - apply Z.div_unique with (r := 0); lia.
Qed.

Lemma div_pow2 a x y : 0 <= x -> 0 <= y -> a / 2 ^ x / 2 ^ y = a / 2 ^ (x + y).
Proof.
  intros Hx Hy. rewrite Z.pow_add_r by lia.
  apply Z.div_div; [apply Z.pow_nonzero; lia | apply Z.pow_pos_nonneg; lia].
Qed.

Lemma iter_shr_1_m p : forall mrs,
  0 <= shr_m mrs ->
  shr_m (SpecFloat.iter_pos shr_1 p mrs) = shr_m mrs / 2 ^ Zpos p.
Proof.
  assert (Hnn : forall a x, 0 <= a -> 0 <= x -> 0 <= a / 2 ^ x)
    by (intros; apply Z.div_pos; [lia | apply Z.pow_pos_nonneg; lia]).
  induction p as [p IH|p IH|]; intros mrs H; simpl SpecFloat.iter_pos.
  - assert (H1 : 0 <= shr_m (shr_1 mrs)).
    { rewrite shr_1_m by exact H. apply Z.div_pos; lia. }
    rewrite IH by (rewrite IH by exact H1; apply Hnn; lia).
    rewrite IH by exact H1. rewrite shr_1_m by exact H.
    change (shr_m mrs / 2) with (shr_m mrs / 2 ^ 1).
    rewrite !div_pow2 by lia. f_equal. f_equal. lia.
  - rewrite IH by (rewrite IH by exact H; apply Hnn; lia).
    rewrite IH by exact H. rewrite div_pow2 by lia. f_equal. f_equal. lia.
  - rewrite shr_1_m by exact H. reflexivity.
Qed.

(** What the round and sticky bits of a record say after [k] steps: [M2]
    is twice the number that was shifted. *)
Definition tracks (M2 k : Z) (mrs : shr_record) : Prop :=
  0 <= shr_m mrs
  /\ exists sigma,
       0 <= sigma < 2 ^ k
       /\ M2 = shr_m mrs * 2 ^ (k + 1) + (if shr_r mrs then 2 ^ k else 0) + sigma
       /\ shr_s mrs = negb (sigma =? 0).

Lemma tracks_start m : 0 <= m -> tracks (2 * m) 0 (shr_record_of_loc m loc_Exact).
Proof.
  intros H. split; [exact H|]. exists 0. cbn [shr_record_of_loc shr_m shr_r shr_s].
  change (2 ^ (0 + 1)) with 2. change (2 ^ 0) with 1.
  split; [lia|]. split; [lia | reflexivity].
Qed.

Lemma shr_1_spec m r s :
  0 <= m ->
  shr_1 (Build_shr_record m r s) = Build_shr_record (m / 2) (Z.odd m) (r || s).
Proof.
  intros H. destruct m as [|[p|p|]|p]; cbn [shr_1]; try lia; try reflexivity.
  - f_equal. apply Z.div_unique with (r := 1); lia.
  - f_equal. apply Z.div_unique with (r := 0); lia.
Qed.

Lemma tracks_shr_1 M2 k mrs :
  0 <= k -> tracks M2 k mrs -> tracks M2 (k + 1) (shr_1 mrs).
Proof.
  intros Hk (Hm & sigma & Hs & HM & Hst).
  destruct mrs as [m r s]. cbn [shr_m shr_r shr_s] in *.
  rewrite shr_1_spec by exact Hm.
  assert (Hp : 0 < 2 ^ k) by (apply Z.pow_pos_nonneg; lia).
  assert (E1 : 2 ^ (k + 1) = 2 * 2 ^ k) by (rewrite Z.pow_add_r by lia; lia).
  assert (E2 : 2 ^ (k + 1 + 1) = 4 * 2 ^ k) by (rewrite !Z.pow_add_r by lia; lia).
  assert (Hodd : m = 2 * (m / 2) + (if Z.odd m then 1 else 0)).
  { rewrite <- Zmod_odd. apply Z.div_mod. lia. }
  split; [cbn [shr_m]; apply Z.div_pos; lia|].
  exists ((if r then 2 ^ k else 0) + sigma). cbn [shr_m shr_r shr_s].
  rewrite E2, E1 in *. split; [destruct r; lia|]. split.
  - rewrite HM. destruct (Z.odd m); destruct r; nia.
  - subst s. destruct r; cbn [orb].
    + symmetry. apply negb_true_iff, Z.eqb_neq. lia.
    + reflexivity.
Qed.

Lemma tracks_iter M2 p : forall k mrs,
  0 <= k -> tracks M2 k mrs -> tracks M2 (k + Zpos p) (SpecFloat.iter_pos shr_1 p mrs).
Proof.
  induction p as [p IH|p IH|]; intros k mrs Hk H; simpl SpecFloat.iter_pos.
  - replace (k + Zpos p~1) with (k + 1 + Zpos p + Zpos p) by lia.
    apply IH; [lia|]. apply IH; [lia|]. now apply tracks_shr_1.
  - replace (k + Zpos p~0) with (k + Zpos p + Zpos p) by lia.
    apply IH; [lia|]. now apply IH.
  - now apply tracks_shr_1.
Qed.

(** Rounding to nearest: the mantissa or its successor, at most half a unit
    away. *)
Lemma round_nearest_even_cases m l :
  round_nearest_even m l = m \/ round_nearest_even m l = m + 1.
Proof. destruct l as [|[]]; simpl; auto. destruct (Z.even m); auto. Qed.

Lemma round_nearest_even_tracks M2 k mrs :
  0 <= k -> tracks M2 k mrs ->
  Z.abs (M2 - round_nearest_even (shr_m mrs) (loc_of_shr_record mrs) * 2 ^ (k + 1))
  <= 2 ^ k.
Proof.
  intros Hk (Hm & sigma & Hs & HM & Hst).
  assert (Hp : 0 < 2 ^ k) by (apply Z.pow_pos_nonneg; lia).
  assert (E1 : 2 ^ (k + 1) = 2 * 2 ^ k) by (rewrite Z.pow_add_r by lia; lia).
  destruct mrs as [m r s]. cbn [shr_m shr_r shr_s] in *. rewrite E1 in *.
  destruct r, s; cbn [loc_of_shr_record round_nearest_even].
  - symmetry in Hst. apply negb_true_iff, Z.eqb_neq in Hst. nia.
  - symmetry in Hst. apply negb_false_iff, Z.eqb_eq in Hst. subst sigma.
    destruct (Z.even m); nia.
  - nia.
  - symmetry in Hst. apply negb_false_iff, Z.eqb_eq in Hst. nia.
Qed.

End Shift.

Section Round.

Variables prec emax : Z.
Hypothesis Hprec : 0 < prec.

Local Abbreviation emin := (SpecFloat.emin prec emax).
Local Abbreviation fexp := (SpecFloat.fexp prec emax).

Lemma fexp_ge_emin e : emin <= fexp e.
Proof. unfold SpecFloat.fexp. lia. Qed.

Lemma fexp_mono e e' : e <= e' -> fexp e <= fexp e'.
Proof. unfold SpecFloat.fexp. lia. Qed.

Lemma fexp_succ e : fexp (e + 1) <= fexp e + 1.
Proof. unfold SpecFloat.fexp. lia. Qed.

Lemma fexp_le e : emin <= e -> fexp e <= e.
Proof. unfold SpecFloat.fexp. lia. Qed.

Lemma fexp_lt e : emin < e -> fexp e < e.
Proof. unfold SpecFloat.fexp. lia. Qed.

(** The first shift of [binary_round_aux]: by [n] places, when the
    mantissa has too many digits for its exponent. *)
Definition shift (m e : Z) : Z := Z.max 0 (fexp (Zdigits2 m + e) - e).

Lemma shr_fexp_spec m e l :
  0 <= m ->
  snd (shr_fexp prec emax m e l) = e + shift m e
  /\ shr_m (fst (shr_fexp prec emax m e l)) = m / 2 ^ shift m e
  /\ (shift m e = 0 -> fst (shr_fexp prec emax m e l) = shr_record_of_loc m l).
Proof.
  intros Hm. unfold shr_fexp, shr, shift.
  assert (H0 : shr_m (shr_record_of_loc m l) = m) by (now destruct l as [|[]]).
  destruct (fexp (Zdigits2 m + e) - e) as [|p|p] eqn:E; cbn [fst snd].
  - rewrite Z.max_l by lia. rewrite Z.add_0_r, Z.div_1_r. auto.
  - rewrite Z.max_r by lia. rewrite iter_shr_1_m by lia. rewrite H0.
    split; [reflexivity|]. split; [reflexivity | lia].
  - rewrite Z.max_l by lia. rewrite Z.add_0_r, Z.div_1_r. auto.
Qed.

Lemma shr_fexp_tracks m e :
  0 <= m ->
  tracks (2 * m) (shift m e) (fst (shr_fexp prec emax m e loc_Exact)).
Proof.
  intros Hm. unfold shr_fexp, shr, shift.
  destruct (fexp (Zdigits2 m + e) - e) as [|p|p] eqn:E; cbn [fst].
  - rewrite Z.max_l by lia. now apply tracks_start.
  - rewrite Z.max_r by lia. apply (tracks_iter (2 * m) p 0); [lia|].
    now apply tracks_start.
  - rewrite Z.max_l by lia. now apply tracks_start.
Qed.

(** After the first shift the mantissa has no more digits than its
    exponent allows. *)
Lemma shift_fits m e :
  0 <= m -> fexp (Zdigits2 (m / 2 ^ shift m e) + (e + shift m e)) <= e + shift m e.
Proof.
  intros Hm. unfold shift.
  destruct (Z.le_gt_cases (fexp (Zdigits2 m + e) - e) 0) as [Hn|Hn].
  - rewrite Z.max_l by lia. rewrite Z.div_1_r, Z.add_0_r. lia.
  - rewrite Z.max_r by lia. set (n := fexp (Zdigits2 m + e) - e) in *.
    replace (e + n) with (fexp (Zdigits2 m + e)) by (unfold n; lia).
    assert (Hpn : 0 < 2 ^ n) by (apply Z.pow_pos_nonneg; lia).
    destruct (Z.eq_dec (m / 2 ^ n) 0) as [E0|E0].
    + rewrite E0. cbn [Zdigits2]. rewrite Z.add_0_l. apply fexp_le, fexp_ge_emin.
    + assert (H1 : 0 < m / 2 ^ n) by (pose proof (Z.div_pos m (2 ^ n)); lia).
      assert (Hge : 2 ^ n <= m).
      { destruct (Z.lt_ge_cases m (2 ^ n)) as [Hlt|Hge]; [|exact Hge].
        rewrite Z.div_small in H1 by lia. lia. }
      assert (Hd : n < Zdigits2 m) by (apply Zdigits2_gt; lia).
      apply fexp_mono.
      enough (Zdigits2 (m / 2 ^ n) <= Zdigits2 m - n) by (unfold n in *; lia).
      apply Zdigits2_le; [lia | lia|].
      apply Z.div_lt_upper_bound; [lia|].
      rewrite <- Z.pow_add_r by lia. replace (n + (Zdigits2 m - n)) with (Zdigits2 m) by lia.
      apply Zdigits2_spec. lia.
Qed.

(** The second shift of [binary_round_aux] loses nothing: it moves the
    mantissa by one place when rounding up has given it one digit more, and
    that mantissa is a power of two. *)
Lemma second_shift m1 m2 e1 :
  0 <= m1 -> fexp (Zdigits2 m1 + e1) <= e1 ->
  m2 = m1 \/ m2 = m1 + 1 ->
  shr_m (fst (shr_fexp prec emax m2 e1 loc_Exact)) * 2 ^ shift m2 e1 = m2
  /\ shift m2 e1 <= 1.
Proof.
  intros Hm1 Hfit Hm2.
  assert (Hm2' : 0 <= m2) by lia.
  destruct (shr_fexp_spec m2 e1 loc_Exact Hm2') as (_ & Hm & _). rewrite Hm.
  unfold shift in *.
  destruct (Z.le_gt_cases (fexp (Zdigits2 m2 + e1) - e1) 0) as [Hn|Hn].
  - rewrite Z.max_l by lia. rewrite Z.div_1_r. change (2 ^ 0) with 1. lia.
  - rewrite Z.max_r by lia.
    assert (Hemin : emin <= e1) by (pose proof (fexp_ge_emin (Zdigits2 m1 + e1)); lia).
    (* the mantissa has one digit more than before *)
    assert (Hdig : Zdigits2 m1 < Zdigits2 m2).
    { destruct (Z.lt_ge_cases (Zdigits2 m1) (Zdigits2 m2)) as [H|H]; [exact H|].
      pose proof (fexp_mono (Zdigits2 m2 + e1) (Zdigits2 m1 + e1) ltac:(lia)). lia. }
    assert (Hpos : 0 < m1).
    { destruct (Z.eq_dec m1 0) as [->|]; [|lia]. exfalso.
      assert (Zdigits2 m2 <= 1)
        by (apply Zdigits2_le; [lia | lia | change (2 ^ 1) with 2; lia]).
      pose proof (fexp_mono (Zdigits2 m2 + e1) (1 + e1) ltac:(lia)).
      assert (fexp (1 + e1) <= e1) by (unfold SpecFloat.fexp; lia). lia. }
    assert (Hpow : m2 = 2 ^ Zdigits2 m1).
    { destruct (Zdigits2_spec m1 Hpos) as [_ Hhi].
      destruct (Z.lt_ge_cases m2 (2 ^ Zdigits2 m1)) as [Hlt|Hge]; [|lia].
      pose proof (Zdigits2_le m2 (Zdigits2 m1) Hm2' (Zdigits2_nonneg m1) Hlt). lia. }
    assert (Hd2 : Zdigits2 m2 <= Zdigits2 m1 + 1).
    { apply Zdigits2_le; [lia | pose proof (Zdigits2_nonneg m1); lia|].
      rewrite Hpow, Z.pow_add_r by (pose proof (Zdigits2_nonneg m1); lia).
      pose proof (Z.pow_pos_nonneg 2 (Zdigits2 m1) ltac:(lia) (Zdigits2_nonneg m1)). lia. }
    assert (Hone : fexp (Zdigits2 m2 + e1) - e1 = 1).
    { pose proof (fexp_mono (Zdigits2 m2 + e1) (Zdigits2 m1 + e1 + 1) ltac:(lia)).
      pose proof (fexp_succ (Zdigits2 m1 + e1)). lia. }
    rewrite Hone. split; [|lia]. change (2 ^ 1) with 2.
    pose proof (Zdigits2_pos m1 Hpos) as Hd1.
    rewrite Hpow.
    replace (Zdigits2 m1) with (Z.succ (Zdigits2 m1 - 1)) at 1 2 by lia.
    rewrite Z.pow_succ_r by lia.
    rewrite (Z.mul_comm 2), Z.div_mul by lia. reflexivity.
Qed.

(** The shape of a rounded number: the mantissa [m2] after rounding at the
    exponent [ex + shift mx ex], renormalized without loss. *)
Lemma binary_round_aux_shape sx mx ex lx :
  0 <= mx ->
  let n := shift mx ex in
  let m1 := mx / 2 ^ n in
  let m2 := round_nearest_even
              (shr_m (fst (shr_fexp prec emax mx ex lx)))
              (loc_of_shr_record (fst (shr_fexp prec emax mx ex lx))) in
  (m2 = m1 \/ m2 = m1 + 1)
  /\ ((m2 = 0 /\ binary_round_aux prec emax sx mx ex lx = S754_zero sx)
      \/ exists m3 e3,
           Zpos m3 * 2 ^ (e3 - (ex + n)) = m2
           /\ ex + n <= e3 <= ex + n + 1
           /\ binary_round_aux prec emax sx mx ex lx
              = if e3 <=? emax - prec then S754_finite sx m3 e3 else S754_infinity sx).
Proof.
  intros Hmx n m1 m2.
  destruct (shr_fexp_spec mx ex lx Hmx) as (He1 & Hm1 & _).
  fold n in He1, Hm1. fold m1 in Hm1.
  assert (Hcases : m2 = m1 \/ m2 = m1 + 1).
  { unfold m2. rewrite Hm1. apply round_nearest_even_cases. }
  split; [exact Hcases|].
  assert (H1 : 0 <= m1)
    by (apply Z.div_pos; [lia | apply Z.pow_pos_nonneg; unfold n, shift; lia]).
  pose proof (shift_fits mx ex Hmx) as Hfit. fold n in Hfit. fold m1 in Hfit.
  destruct (second_shift m1 m2 (ex + n) H1 Hfit Hcases) as (Hex & Hn2).
  destruct (shr_fexp_spec m2 (ex + n) loc_Exact ltac:(lia)) as (He3 & _ & _).
  unfold binary_round_aux.
  destruct (shr_fexp prec emax mx ex lx) as [mrs' e'] eqn:E1.
  cbn [fst snd] in *. subst e'. fold m2.
  destruct (shr_fexp prec emax m2 (ex + n) loc_Exact) as [mrs'' e''] eqn:E2.
  cbn [fst snd] in *.
  assert (Hn2' : 0 <= shift m2 (ex + n)) by (unfold shift; lia).
  destruct (shr_m mrs'') as [|m3|m3] eqn:E3.
  - left. split; [lia | reflexivity].
  - right. exists m3, e''. subst e''.
    replace (ex + n + shift m2 (ex + n) - (ex + n)) with (shift m2 (ex + n)) by lia.
    split; [exact Hex|]. split; [lia | reflexivity].
  - exfalso. pose proof (Z.pow_pos_nonneg 2 (shift m2 (ex + n)) ltac:(lia) Hn2'). nia.
Qed.

(** Rounding an exact number: at most half a unit of the last place. *)
Lemma binary_round_aux_exact mx ex :
  0 <= mx ->
  let n := shift mx ex in
  let m2 := round_nearest_even
              (shr_m (fst (shr_fexp prec emax mx ex loc_Exact)))
              (loc_of_shr_record (fst (shr_fexp prec emax mx ex loc_Exact))) in
  Z.abs (2 * mx - m2 * 2 ^ (n + 1)) <= 2 ^ n.
Proof.
  intros Hmx n m2. apply round_nearest_even_tracks; [unfold n, shift; lia|].
  now apply shr_fexp_tracks.
Qed.

End Round.

Section Powers.

Local Open Scope Q_scope.

Lemma pow2_pos e : 0 < 2 ^ e.
Proof. apply Qpower_0_lt. reflexivity. Qed.

Lemma pow2_add a b : 2 ^ (a + b) == 2 ^ a * 2 ^ b.
Proof. apply Qpower_plus. discriminate. Qed.

Lemma pow2_Z k : (0 <= k)%Z -> inject_Z (2 ^ k) == 2 ^ k.
Proof. intros H. now rewrite Zpower_Qpower. Qed.

Lemma pow2_le a b : (a <= b)%Z -> 2 ^ a <= 2 ^ b.
Proof. intros H. apply Qpower_le_compat_l; [exact H | discriminate]. Qed.

Lemma pow2_lt a b : (a < b)%Z -> 2 ^ a < 2 ^ b.
Proof. intros H. apply Qpower_lt_compat_l; [exact H | reflexivity]. Qed.

Lemma pow2_lt_inv a b : 2 ^ a < 2 ^ b -> (a < b)%Z.
Proof.
  intros H. destruct (Z.lt_ge_cases a b) as [Hlt|Hge]; [exact Hlt|].
  exfalso. apply (Qlt_not_le _ _ H). now apply pow2_le.
Qed.

Lemma pow2_succ a : 2 ^ (a + 1) == 2 * 2 ^ a.
Proof. rewrite pow2_add. change (2 ^ 1) with 2. ring. Qed.

Lemma pow2_pred a : 2 ^ a == 2 * 2 ^ (a - 1).
Proof. rewrite <- pow2_succ. now replace (a - 1 + 1)%Z with a by lia. Qed.

(** An integer scaled by a power of two. *)
Lemma scale_pow2 a k e : (0 <= k)%Z -> inject_Z (a * 2 ^ k) * 2 ^ e == inject_Z a * 2 ^ (e + k).
Proof.
  intros Hk. rewrite inject_Z_mult, pow2_Z by exact Hk. rewrite pow2_add. ring.
Qed.

(** A number below [2 ^ K] has its digits below [K]. *)
Lemma digits_bound m e K :
  (0 < m)%Z -> inject_Z m * 2 ^ e < 2 ^ K -> (Zdigits2 m + e <= K)%Z.
Proof.
  intros Hm Hlt.
  destruct (Zdigits2_spec m Hm) as [Hlo _].
  pose proof (Zdigits2_pos m Hm) as Hd.
  assert (H : 2 ^ (Zdigits2 m - 1 + e) < 2 ^ K).
  { eapply Qle_lt_trans; [|exact Hlt].
    rewrite pow2_add. apply Qmult_le_compat_r; [|apply Qlt_le_weak, pow2_pos].
    rewrite <- pow2_Z by lia. now rewrite <- Zle_Qle. }
  apply pow2_lt_inv in H. lia.
Qed.

End Powers.

(** The number a float stands for; infinities and NaN count as 0 and are
    told apart by [is_finite]. *)
Definition toQ (x : spec_float) : Q :=
  match x with
  | S754_finite s m e => (if s then -1 else 1) * (inject_Z (Zpos m) * 2 ^ e)
  | _ => 0
  end.

Definition is_finite (x : spec_float) : bool :=
  match x with
  | S754_finite _ _ _ | S754_zero _ => true
  | _ => false
  end.

Section Error.

Variables prec emax : Z.
Hypothesis Hprec : (0 < prec)%Z.

Local Open Scope Q_scope.

Definition signed (s : bool) (q : Q) : Q := (if s then -1 else 1) * q.

Lemma Qabs_signed s q : Qabs (signed s q) == Qabs q.
Proof.
  unfold signed. destruct s.
  - setoid_replace (-1 * q) with (- q) using relation Qeq by ring. apply Qabs_opp.
  - setoid_replace (1 * q) with q using relation Qeq by ring. reflexivity.
Qed.

(** Rounding a number below [2 ^ K]: the result is finite and at most
    [2 ^ (K - prec - 1)] away. *)
Lemma binary_round_aux_error sx mx ex K :
  (K <= emax - prec)%Z -> (emin prec emax <= K - prec)%Z ->
  inject_Z (Zpos mx) * 2 ^ ex < 2 ^ K ->
  let y := binary_round_aux prec emax sx (Zpos mx) ex loc_Exact in
  is_finite y = true
  /\ Qabs (toQ y - signed sx (inject_Z (Zpos mx) * 2 ^ ex)) <= 2 ^ (K - prec - 1).
Proof.
  intros HK Hemin Hlt y.
  pose proof (digits_bound (Zpos mx) ex K eq_refl Hlt) as Hd.
  pose proof (binary_round_aux_shape prec emax Hprec sx (Zpos mx) ex loc_Exact
                ltac:(lia)) as Hshape.
  pose proof (binary_round_aux_exact prec emax (Zpos mx) ex ltac:(lia)) as Herr.
  cbv zeta in Hshape, Herr.
  set (n := shift prec emax (Zpos mx) ex) in *.
  set (m2 := round_nearest_even _ _) in *.
  assert (Hn : (0 <= n)%Z) by (unfold n, shift; lia).
  assert (Hpn : (0 < 2 ^ n)%Z) by (apply Z.pow_pos_nonneg; lia).
  assert (E1 : (2 ^ (n + 1) = 2 * 2 ^ n)%Z) by (rewrite Z.pow_add_r by lia; lia).
  (* the value of the result *)
  assert (Hval : is_finite y = true /\ toQ y == signed sx (inject_Z m2 * 2 ^ (ex + n))).
  { destruct Hshape as (_ & [(H0 & Hy)|(m3 & e3 & Hm3 & He3 & Hy)]).
    - fold y in Hy. rewrite Hy, H0. split; [reflexivity|]. unfold signed. simpl. ring.
    - fold y in Hy. assert (Hfin : (e3 <=? emax - prec)%Z = true).
      { apply Z.leb_le. destruct (Z.eq_dec n 0%Z) as [E0|E0].
        - pose proof (Zdigits2_pos (Zpos mx) eq_refl). lia.
        - assert (ex + n = fexp prec emax (Zdigits2 (Zpos mx) + ex))%Z
            by (unfold n, shift in *; lia).
          pose proof (fexp_mono prec emax _ _ Hd).
          unfold fexp in *. lia. }
      rewrite Hfin in Hy. rewrite Hy. split; [reflexivity|].
      unfold toQ, signed. rewrite <- Hm3.
      rewrite scale_pow2 by lia.
      replace (ex + n + (e3 - (ex + n)))%Z with e3 by lia. reflexivity. }
  destruct Hval as [Hfin Hval]. split; [exact Hfin|].
  rewrite Hval.
  setoid_replace (signed sx (inject_Z m2 * 2 ^ (ex + n))
                  - signed sx (inject_Z (Z.pos mx) * 2 ^ ex))
    with (signed sx (inject_Z m2 * 2 ^ (ex + n) - inject_Z (Z.pos mx) * 2 ^ ex))
    using relation Qeq
    by (unfold signed; ring).
  rewrite Qabs_signed.
  destruct (Z.eq_dec n 0%Z) as [E0|E0].
  - (* no shift: the number is a float already *)
    rewrite E0 in *. change (2 ^ 0)%Z with 1%Z in *. change (2 ^ (0 + 1))%Z with 2%Z in Herr.
    assert (m2 = Zpos mx) as -> by lia.
    rewrite Z.add_0_r.
    setoid_replace (inject_Z (Z.pos mx) * 2 ^ ex - inject_Z (Z.pos mx) * 2 ^ ex) with 0
      using relation Qeq by ring.
    simpl. apply Qlt_le_weak, pow2_pos.
  - assert (He1 : (ex + n <= K - prec)%Z).
    { assert (ex + n = fexp prec emax (Zdigits2 (Zpos mx) + ex))%Z
        by (unfold n, shift in *; lia).
      pose proof (fexp_mono prec emax _ _ Hd). unfold fexp in *. lia. }
    apply Qle_trans with (2 ^ (ex + n - 1)); [|apply pow2_le; lia].
    (* in units of [2 ^ (ex - 1)] *)
    setoid_replace (inject_Z m2 * 2 ^ (ex + n) - inject_Z (Z.pos mx) * 2 ^ ex)
      with (inject_Z (m2 * 2 ^ (n + 1) - 2 * Zpos mx) * 2 ^ (ex - 1)) using relation Qeq.
    2:{ assert (Ha : inject_Z (m2 * 2 ^ (n + 1)) * 2 ^ (ex - 1)
                     == inject_Z m2 * 2 ^ (ex + n)).
        { rewrite scale_pow2 by lia. now replace (ex - 1 + (n + 1))%Z with (ex + n)%Z by lia. }
        rewrite <- Ha, (pow2_pred ex).
        replace (m2 * 2 ^ (n + 1) - 2 * Z.pos mx)%Z
          with (m2 * 2 ^ (n + 1) + - (2 * Z.pos mx))%Z by lia.
        rewrite inject_Z_plus, inject_Z_opp, (inject_Z_mult 2).
        change (inject_Z 2) with 2. ring. }
    rewrite Qabs_Qmult, (Qabs_pos (2 ^ (ex - 1))) by apply Qlt_le_weak, pow2_pos.
    setoid_replace (2 ^ (ex + n - 1)) with (inject_Z (2 ^ n) * 2 ^ (ex - 1)) using relation Qeq.
    2:{ rewrite pow2_Z by lia. rewrite <- pow2_add.
        now replace (n + (ex - 1))%Z with (ex + n - 1)%Z by lia. }
    apply Qmult_le_compat_r; [|apply Qlt_le_weak, pow2_pos].
    change (Qabs (inject_Z (m2 * 2 ^ (n + 1) - 2 * Z.pos mx)))
      with (inject_Z (Z.abs (m2 * 2 ^ (n + 1) - 2 * Z.pos mx))).
    rewrite <- Zle_Qle. lia.
Qed.

End Error.

Section Operations.

Variables prec emax : Z.
Hypothesis Hprec : (0 < prec)%Z.

Local Open Scope Q_scope.

Lemma iter_xO m d : Zpos (Pos.iter xO m d) = (Zpos m * 2 ^ Zpos d)%Z.
Proof.
  induction d as [|d IH] using Pos.peano_ind.
  - simpl. lia.
  - rewrite Pos.iter_succ, Pos2Z.inj_xO, IH, Pos2Z.inj_succ, Z.pow_succ_r by lia. lia.
Qed.

(** Aligning a mantissa to a smaller exponent keeps the number. *)
Lemma shl_align_spec mx ex ex' :
  (snd (shl_align mx ex ex') <= ex)%Z
  /\ Zpos (fst (shl_align mx ex ex'))
     = (Zpos mx * 2 ^ (ex - snd (shl_align mx ex ex')))%Z
  /\ ((ex' <= ex)%Z -> snd (shl_align mx ex ex') = ex').
Proof.
  unfold shl_align. destruct (ex' - ex)%Z as [|d|d] eqn:E; cbn [fst snd].
  - rewrite Z.sub_diag. change (2 ^ 0)%Z with 1%Z. lia.
  - rewrite Z.sub_diag. change (2 ^ 0)%Z with 1%Z. lia.
  - rewrite iter_xO. replace (ex - ex')%Z with (Zpos d) by lia. lia.
Qed.

Lemma shl_align_exact mx ex ex' :
  inject_Z (Zpos (fst (shl_align mx ex ex'))) * 2 ^ snd (shl_align mx ex ex')
  == inject_Z (Zpos mx) * 2 ^ ex.
Proof.
  destruct (shl_align_spec mx ex ex') as (Hle & Hm & _). rewrite Hm.
  rewrite scale_pow2 by lia.
  now replace (snd (shl_align mx ex ex') + (ex - snd (shl_align mx ex ex')))%Z with ex by lia.
Qed.

Section Bounded.

Variable K : Z.
Hypothesis HK : (K <= emax - prec)%Z.
Hypothesis Hemin : (emin prec emax <= K - prec)%Z.

Lemma binary_round_error sx mx ex :
  inject_Z (Zpos mx) * 2 ^ ex < 2 ^ K ->
  is_finite (binary_round prec emax sx mx ex) = true
  /\ Qabs (toQ (binary_round prec emax sx mx ex)
           - signed sx (inject_Z (Zpos mx) * 2 ^ ex)) <= 2 ^ (K - prec - 1).
Proof.
  intros Hlt. unfold binary_round.
  pose proof (shl_align_exact mx ex (fexp prec emax (Z.pos (digits2_pos mx) + ex))) as Hv.
  destruct (shl_align mx ex _) as [mz ez]. cbn [fst snd] in Hv.
  rewrite <- Hv in Hlt.
  destruct (binary_round_aux_error prec emax Hprec sx mz ez K HK Hemin Hlt) as [Hf He].
  split; [exact Hf|]. unfold signed in *. rewrite <- Hv. exact He.
Qed.

Lemma binary_normalize_error m e :
  Qabs (inject_Z m * 2 ^ e) < 2 ^ K ->
  is_finite (binary_normalize prec emax m e false) = true
  /\ Qabs (toQ (binary_normalize prec emax m e false) - inject_Z m * 2 ^ e)
     <= 2 ^ (K - prec - 1).
Proof.
  intros Hlt. destruct m as [|p|p]; cbn [binary_normalize].
  - split; [reflexivity|]. cbn [toQ].
    setoid_replace (0 - inject_Z 0 * 2 ^ e) with 0 using relation Qeq
      by (change (inject_Z 0) with 0; ring).
    simpl. apply Qlt_le_weak, pow2_pos.
  - rewrite Qabs_pos in Hlt
      by (apply Qmult_le_0_compat; [now rewrite <- (Zle_Qle 0) | apply Qlt_le_weak, pow2_pos]).
    destruct (binary_round_error false p e Hlt) as [Hf He]. split; [exact Hf|].
    unfold signed in He. setoid_replace (inject_Z (Z.pos p) * 2 ^ e)
      with (1 * (inject_Z (Z.pos p) * 2 ^ e)) using relation Qeq by ring. exact He.
  - assert (Hneg : inject_Z (Z.neg p) * 2 ^ e == - (inject_Z (Z.pos p) * 2 ^ e)).
    { change (Z.neg p) with (- Z.pos p)%Z. rewrite inject_Z_opp. ring. }
    rewrite Hneg, Qabs_opp in Hlt.
    rewrite Qabs_pos in Hlt
      by (apply Qmult_le_0_compat; [now rewrite <- (Zle_Qle 0) | apply Qlt_le_weak, pow2_pos]).
    destruct (binary_round_error true p e Hlt) as [Hf He]. split; [exact Hf|].
    unfold signed in He. rewrite Hneg.
    setoid_replace (- (inject_Z (Z.pos p) * 2 ^ e))
      with (-1 * (inject_Z (Z.pos p) * 2 ^ e)) using relation Qeq by ring. exact He.
Qed.

Lemma zero_error : Qabs (0 - 0) <= 2 ^ (K - prec - 1).
Proof. simpl. apply Qlt_le_weak, pow2_pos. Qed.

Lemma signed_xorb s1 s2 p q : signed (xorb s1 s2) (p * q) == signed s1 p * signed s2 q.
Proof. unfold signed. destruct s1, s2; simpl; ring. Qed.

(** A product below [2 ^ K]. *)
Lemma SFmul_error x y :
  is_finite x = true -> is_finite y = true ->
  Qabs (toQ x * toQ y) < 2 ^ K ->
  is_finite (SFmul prec emax x y) = true
  /\ Qabs (toQ (SFmul prec emax x y) - toQ x * toQ y) <= 2 ^ (K - prec - 1).
Proof.
  intros Hx Hy Hlt.
  destruct x as [sx|sx| |sx mx ex]; try discriminate Hx;
    destruct y as [sy|sy| |sy my ey]; try discriminate Hy; cbn [SFmul].
  1-3: split; [reflexivity|]; cbn [toQ];
    match goal with |- Qabs ?t <= _ => setoid_replace t with 0 using relation Qeq by ring end;
    simpl; apply Qlt_le_weak, pow2_pos.
  assert (Hprod : toQ (S754_finite sx mx ex) * toQ (S754_finite sy my ey)
                  == signed (xorb sx sy) (inject_Z (Zpos (mx * my)) * 2 ^ (ex + ey))).
  { cbn [toQ]. unfold signed. rewrite Pos2Z.inj_mul, inject_Z_mult, pow2_add.
    destruct sx, sy; cbn [xorb]; ring. }
  rewrite Hprod in *. rewrite Qabs_signed in Hlt.
  rewrite Qabs_pos in Hlt
    by (apply Qmult_le_0_compat; [now rewrite <- (Zle_Qle 0) | apply Qlt_le_weak, pow2_pos]).
  exact (binary_round_aux_error prec emax Hprec _ _ _ K HK Hemin Hlt).
Qed.

Lemma cond_Zopp_signed s m : inject_Z (cond_Zopp s m) == signed s (inject_Z m).
Proof. unfold cond_Zopp, signed. destruct s; [rewrite inject_Z_opp|]; ring. Qed.

(** A difference below [2 ^ K]. *)
Lemma SFsub_error x y :
  is_finite x = true -> is_finite y = true ->
  Qabs (toQ x - toQ y) < 2 ^ K ->
  is_finite (SFsub prec emax x y) = true
  /\ Qabs (toQ (SFsub prec emax x y) - (toQ x - toQ y)) <= 2 ^ (K - prec - 1).
Proof.
  intros Hx Hy Hlt.
  destruct x as [sx|sx| |sx mx ex]; try discriminate Hx;
    destruct y as [sy|sy| |sy my ey]; try discriminate Hy; cbn [SFsub].
  - split; [now destruct sx, sy|].
    cbn [toQ].
    match goal with
    | |- Qabs (toQ ?t - _) <= _ => assert (E : toQ t == 0) by (now destruct sx, sy)
    end.
    rewrite E. apply zero_error.
  - split; [reflexivity|]. cbn [toQ].
    match goal with
    | |- Qabs ?t <= _ =>
        setoid_replace t with 0 using relation Qeq by (destruct sy; simpl; ring)
    end.
    simpl. apply Qlt_le_weak, pow2_pos.
  - split; [reflexivity|]. cbn [toQ].
    match goal with |- Qabs ?t <= _ => setoid_replace t with 0 using relation Qeq by ring end.
    simpl. apply Qlt_le_weak, pow2_pos.
  - pose proof (shl_align_spec mx ex (Z.min ex ey)) as (_ & Hmx & Hex).
    pose proof (shl_align_spec my ey (Z.min ex ey)) as (_ & Hmy & Hey).
    pose proof (shl_align_exact mx ex (Z.min ex ey)) as Hvx.
    pose proof (shl_align_exact my ey (Z.min ex ey)) as Hvy.
    rewrite (Hex ltac:(lia)) in Hvx. rewrite (Hey ltac:(lia)) in Hvy.
    set (ax := fst (shl_align mx ex (Z.min ex ey))) in *.
    set (ay := fst (shl_align my ey (Z.min ex ey))) in *.
    assert (Hdiff : toQ (S754_finite sx mx ex) - toQ (S754_finite sy my ey)
                    == inject_Z (cond_Zopp sx (Zpos ax) - cond_Zopp sy (Zpos ay))
                       * 2 ^ Z.min ex ey).
    { cbn [toQ]. rewrite <- Hvx, <- Hvy.
      replace (cond_Zopp sx (Z.pos ax) - cond_Zopp sy (Z.pos ay))%Z
        with (cond_Zopp sx (Z.pos ax) + - cond_Zopp sy (Z.pos ay))%Z by lia.
      rewrite inject_Z_plus, inject_Z_opp, !cond_Zopp_signed. unfold signed. ring. }
    rewrite Hdiff in *. now apply binary_normalize_error.
Qed.

End Bounded.

End Operations.

Section Nonzero.

Variables prec emax : Z.
Hypothesis Hprec : (0 < prec)%Z.

(** A number from [2 ^ emin] on is not rounded to zero. *)
Lemma binary_round_aux_nonzero sx mx ex lx :
  (0 < mx)%Z -> (emin prec emax < Zdigits2 mx + ex)%Z ->
  let n := shift prec emax mx ex in
  exists m3 e3,
    (Zdigits2 mx + ex <= Zdigits2 (Zpos m3) + e3)%Z
    /\ (ex + n <= e3 <= ex + n + 1)%Z
    /\ (mx / 2 ^ n <= Zpos m3 * 2 ^ (e3 - (ex + n)) <= mx / 2 ^ n + 1)%Z
    /\ binary_round_aux prec emax sx mx ex lx
       = if (e3 <=? emax - prec)%Z then S754_finite sx m3 e3 else S754_infinity sx.
Proof.
  intros Hmx Hd n.
  pose proof (binary_round_aux_shape prec emax Hprec sx mx ex lx ltac:(lia)) as Hshape.
  cbv zeta in Hshape.
  fold n in Hshape.
  set (m2 := round_nearest_even _ _) in *.
  assert (Hn : (0 <= n)%Z) by (unfold n, shift; lia).
  assert (Hpn : (0 < 2 ^ n)%Z) by (apply Z.pow_pos_nonneg; lia).
  destruct (Zdigits2_spec mx Hmx) as [Hlo Hhi].
  pose proof (Zdigits2_pos mx Hmx) as Hdp.
  (* the shifted mantissa keeps its leading digit *)
  assert (Hn' : (n < Zdigits2 mx)%Z).
  { unfold n, shift, fexp in *. lia. }
  assert (Hm1 : (2 ^ (Zdigits2 mx - 1 - n) <= mx / 2 ^ n)%Z).
  { apply Z.div_le_lower_bound; [lia|].
    rewrite <- Z.pow_add_r by lia.
    now replace (n + (Zdigits2 mx - 1 - n))%Z with (Zdigits2 mx - 1)%Z by lia. }
  assert (Hp1 : (0 < 2 ^ (Zdigits2 mx - 1 - n))%Z) by (apply Z.pow_pos_nonneg; lia).
  destruct Hshape as (Hcases & [(H0 & _)|(m3 & e3 & Hm3 & He3 & Hy)]); [lia|].
  exists m3, e3. split; [|split; [exact He3|split; [lia|exact Hy]]].
  (* the result is no smaller than the shifted mantissa *)
  assert (Hge : (2 ^ (Zdigits2 mx - 1 - n) <= Zpos m3 * 2 ^ (e3 - (ex + n)))%Z) by lia.
  assert (Hk : (0 <= e3 - (ex + n))%Z) by lia.
  assert (Hd3 : (Zdigits2 mx - 1 - n < Zdigits2 (Zpos m3) + (e3 - (ex + n)))%Z).
  { destruct (Zdigits2_spec (Zpos m3) eq_refl) as [_ Hhi3].
    pose proof (Zdigits2_pos (Zpos m3) eq_refl) as Hd3.
    destruct (Z.lt_ge_cases (Zdigits2 mx - 1 - n)
                (Zdigits2 (Zpos m3) + (e3 - (ex + n)))) as [H|H]; [exact H|].
    exfalso.
    assert (Hpow : (Zpos m3 * 2 ^ (e3 - (ex + n))
                    < 2 ^ (Zdigits2 (Zpos m3) + (e3 - (ex + n))))%Z).
    { rewrite Z.pow_add_r by lia.
      apply Z.mul_lt_mono_pos_r; [apply Z.pow_pos_nonneg; lia | exact Hhi3]. }
    assert (2 ^ (Zdigits2 (Zpos m3) + (e3 - (ex + n))) <= 2 ^ (Zdigits2 mx - 1 - n))%Z
      by (apply Z.pow_le_mono_r; lia).
    lia. }
  lia.
Qed.

End Nonzero.

Section Root.

Local Abbreviation prec := 53%Z.
Local Abbreviation emax := 1024%Z.

(** The integer square root taken by [SFsqrt] on a positive single below 2. *)
Lemma SFsqrt_core m e :
  (-149 <= e)%Z -> (Zdigits2 (Zpos m) + e <= 1)%Z ->
  exists q e' l,
    SFsqrt_core_binary prec emax (Zpos m) e = (q, e', l)
    /\ (1 <= q)%Z /\ (e' <= -52)%Z /\ (0 <= e - 2 * e')%Z
    /\ (q * q <= Zpos m * 2 ^ (e - 2 * e') < (q + 1) * (q + 1))%Z
    /\ (-75 <= Zdigits2 q + e' <= 1)%Z.
Proof.
  intros He Hd. unfold SFsqrt_core_binary.
  set (d := Zdigits2 (Zpos m)) in *.
  set (e' := Z.min (fexp prec emax (Z.div2 (d + e + 1))) (Z.div2 e)).
  set (s := (e - 2 * e')%Z).
  assert (Hdp : (0 < d)%Z) by (apply Zdigits2_pos; reflexivity).
  destruct (Zdigits2_spec (Zpos m) eq_refl) as [Hlo Hhi]. fold d in Hlo, Hhi.
  assert (He2 : (2 * (e / 2) <= e < 2 * (e / 2) + 2)%Z).
  { pose proof (Z.div_mod e 2 ltac:(lia)). pose proof (Z.mod_pos_bound e 2 ltac:(lia)). lia. }
  assert (Hd2 : ((d + e + 1) / 2 <= 1)%Z).
  { apply Z.div_le_upper_bound; lia. }
  assert (Hd3 : (2 * ((d + e + 1) / 2) <= d + e + 1 < 2 * ((d + e + 1) / 2) + 2)%Z).
  { pose proof (Z.div_mod (d + e + 1) 2 ltac:(lia)).
    pose proof (Z.mod_pos_bound (d + e + 1) 2 ltac:(lia)). lia. }
  assert (He' : (e' <= -52 /\ 2 * e' <= e)%Z).
  { unfold e', fexp, emin. rewrite !Z.div2_div. lia. }
  assert (Hs : (0 <= s)%Z) by (unfold s; lia).
  assert (Hm' : match s with
                | Zpos p => Z.shiftl (Zpos m) s
                | Z0 => Zpos m
                | Zneg _ => Z0
                end = (Zpos m * 2 ^ s)%Z).
  { destruct s as [|p|p] eqn:Es.
    - change (2 ^ 0)%Z with 1%Z. lia.
    - apply Z.shiftl_mul_pow2. lia.
    - lia. }
  rewrite Hm'.
  assert (Hps : (0 < 2 ^ s)%Z) by (apply Z.pow_pos_nonneg; lia).
  assert (Hpos : (0 < Zpos m * 2 ^ s)%Z) by lia.
  pose proof (Z.sqrtrem_spec (Zpos m * 2 ^ s) ltac:(lia)) as Hsq.
  destruct (Z.sqrtrem (Zpos m * 2 ^ s)) as [q r].
  destruct Hsq as (Hsq & Hr).
  eexists q, e', _. split; [reflexivity|].
  assert (Hq : (1 <= q)%Z) by nia.
  assert (Hqq : (q * q <= Zpos m * 2 ^ s < (q + 1) * (q + 1))%Z) by nia.
  split; [exact Hq|]. split; [lia|]. split; [exact Hs|]. split; [exact Hqq|].
  destruct (Zdigits2_spec q ltac:(lia)) as [Hqlo Hqhi].
  pose proof (Zdigits2_pos q ltac:(lia)) as Hdq.
  set (dq := Zdigits2 q) in *.
  split.
  - (* 2 ^ (d - 1 + s) <= m * 2 ^ s < (2 q) ^ 2 < 2 ^ (2 dq + 2) *)
    assert (H1 : (2 ^ (d - 1 + s) <= Zpos m * 2 ^ s)%Z).
    { rewrite Z.pow_add_r by lia. apply Z.mul_le_mono_nonneg_r; lia. }
    assert (H2 : ((q + 1) * (q + 1) <= 2 ^ (2 * dq + 2))%Z).
    { replace (2 * dq + 2)%Z with ((dq + 1) + (dq + 1))%Z by lia.
      rewrite Z.pow_add_r by lia.
      assert (q + 1 <= 2 ^ (dq + 1))%Z.
      { rewrite Z.pow_add_r by lia. change (2 ^ 1)%Z with 2%Z. lia. }
      apply Z.mul_le_mono_nonneg; lia. }
    assert (H3 : (2 ^ (d - 1 + s) < 2 ^ (2 * dq + 2))%Z) by lia.
    apply Z.pow_lt_mono_r_iff in H3; [|lia|lia].
    unfold s in H3. lia.
  - (* q ^ 2 <= m * 2 ^ s < 2 ^ (d + s) <= 2 ^ (1 - 2 e'), so q < 2 ^ (1 - e') *)
    assert (H1 : (Zpos m * 2 ^ s < 2 ^ (d + s))%Z).
    { rewrite Z.pow_add_r by lia. apply Z.mul_lt_mono_pos_r; lia. }
    assert (H2 : (2 ^ (d + s) <= 2 ^ (1 - e') * 2 ^ (1 - e'))%Z).
    { rewrite <- Z.pow_add_r by lia. apply Z.pow_le_mono_r; unfold s; lia. }
    assert (H3 : (q < 2 ^ (1 - e'))%Z).
    { assert (HP : (0 < 2 ^ (1 - e'))%Z) by (apply Z.pow_pos_nonneg; lia).
      destruct (Z.lt_ge_cases q (2 ^ (1 - e'))) as [Hlt|Hge]; [exact Hlt|].
      assert (H0 : (0 <= 2 ^ (1 - e'))%Z) by lia.
      pose proof (Z.mul_le_mono_nonneg _ _ _ _ H0 Hge H0 Hge). lia. }
    pose proof (Zdigits2_le q (1 - e') ltac:(lia) ltac:(lia) H3). fold dq in H. lia.
Qed.

End Root.

Section RootValue.

Local Abbreviation prec := 53%Z.
Local Abbreviation emax := 1024%Z.

Local Open Scope Q_scope.

(** The binary64 root of a positive single below 2 is a positive double
    whose distance [h] to the real root is at most [2 ^ -52]. *)
Lemma SFsqrt_value m e :
  (-149 <= e)%Z -> (Zdigits2 (Zpos m) + e <= 1)%Z ->
  exists m3 e3 h,
    SFsqrt prec emax (S754_finite false m e) = S754_finite false m3 e3
    /\ (-75 <= Zdigits2 (Zpos m3) + e3)%Z
    /\ 0 < h /\ h <= 2 ^ (-52)
    /\ h <= inject_Z (Zpos m3) * 2 ^ e3
    /\ (inject_Z (Zpos m3) * 2 ^ e3 - h) * (inject_Z (Zpos m3) * 2 ^ e3 - h)
       <= inject_Z (Zpos m) * 2 ^ e
    /\ inject_Z (Zpos m) * 2 ^ e
       <= (inject_Z (Zpos m3) * 2 ^ e3 + h) * (inject_Z (Zpos m3) * 2 ^ e3 + h).
Proof.
  intros He Hd.
  destruct (SFsqrt_core m e He Hd) as (q & e' & l & Hcore & Hq & He' & Hs & Hqq & Hdq).
  unfold SFsqrt. rewrite Hcore.
  destruct (binary_round_aux_nonzero prec emax eq_refl false q e' l ltac:(lia))
    as (m3 & e3 & Hd3 & He3 & Hm3 & Hy).
  { unfold SpecFloat.emin. lia. }
  set (n := shift prec emax q e') in *.
  assert (Hn : (0 <= n /\ e' + n <= -52)%Z).
  { unfold n, shift, fexp, SpecFloat.emin. lia. }
  assert (Hfin : (e3 <=? emax - prec)%Z = true) by (apply Z.leb_le; lia).
  rewrite Hfin in Hy.
  exists m3, e3, (2 ^ (e' + n)).
  split; [exact Hy|]. split; [lia|]. split; [apply pow2_pos|].
  split; [apply pow2_le; lia|].
  (* everything in units of 2 ^ e' *)
  set (A := (Zpos m3 * 2 ^ (e3 - (e' + n)))%Z) in *.
  set (N := (2 ^ n)%Z) in *.
  assert (HN : (0 < N)%Z) by (apply Z.pow_pos_nonneg; lia).
  assert (Hm1 : (q / N * N <= q < q / N * N + N)%Z).
  { pose proof (Z.div_mod q N ltac:(lia)). pose proof (Z.mod_pos_bound q N HN). lia. }
  assert (Hm1pos : (1 <= q / N)%Z).
  { apply Z.div_le_lower_bound; [exact HN|].
    destruct (Z.eq_dec n 0%Z) as [E|E].
    - unfold N. rewrite E. change (2 ^ 0)%Z with 1%Z. lia.
    - destruct (Zdigits2_spec q ltac:(lia)) as [Hlo _].
      assert (n <= Zdigits2 q - 1)%Z by (unfold n, shift, fexp, SpecFloat.emin in *; lia).
      assert (2 ^ n <= 2 ^ (Zdigits2 q - 1))%Z by (apply Z.pow_le_mono_r; lia).
      unfold N. lia. }
  assert (HD : inject_Z (Zpos m3) * 2 ^ e3 == inject_Z (A * N) * 2 ^ e').
  { unfold A, N. rewrite <- Z.mul_assoc, <- Z.pow_add_r by lia.
    rewrite scale_pow2 by lia.
    now replace (e' + (e3 - (e' + n) + n))%Z with e3 by lia. }
  assert (Hh : 2 ^ (e' + n) == inject_Z N * 2 ^ e').
  { unfold N. rewrite pow2_Z by lia. rewrite pow2_add. ring. }
  assert (HR : inject_Z (Zpos m) * 2 ^ e
               == inject_Z (Zpos m * 2 ^ (e - 2 * e')) * (2 ^ e' * 2 ^ e')).
  { rewrite <- pow2_add, scale_pow2 by lia.
    now replace (e' + e' + (e - 2 * e'))%Z with e by lia. }
  assert (HAN : ((q / N) * N <= A * N <= (q / N) * N + N)%Z).
  { assert (q / N * N <= A * N)%Z by (apply Z.mul_le_mono_nonneg_r; lia).
    assert (A * N <= (q / N + 1) * N)%Z by (apply Z.mul_le_mono_nonneg_r; lia).
    lia. }
  assert (HN1 : (N <= q / N * N)%Z).
  { assert (1 * N <= q / N * N)%Z by (apply Z.mul_le_mono_nonneg_r; lia). lia. }
  assert (Hlow : ((A * N - N) * (A * N - N) <= Zpos m * 2 ^ (e - 2 * e'))%Z).
  { assert (0 <= A * N - N <= q)%Z by lia.
    assert ((A * N - N) * (A * N - N) <= q * q)%Z by (apply Z.mul_le_mono_nonneg; lia).
    lia. }
  assert (Hupp : (Zpos m * 2 ^ (e - 2 * e') <= (A * N + N) * (A * N + N))%Z).
  { assert (0 <= q + 1 <= A * N + N)%Z by lia.
    assert ((q + 1) * (q + 1) <= (A * N + N) * (A * N + N))%Z
      by (apply Z.mul_le_mono_nonneg; lia).
    lia. }
  assert (Ht : 0 <= 2 ^ e' * 2 ^ e').
  { pose proof (pow2_pos e'). nra. }
  rewrite HD, Hh, HR.
  split; [|split].
  - setoid_replace (inject_Z (A * N) * 2 ^ e') with (2 ^ e' * inject_Z (A * N))
      using relation Qeq by ring.
    setoid_replace (inject_Z N * 2 ^ e') with (2 ^ e' * inject_Z N) using relation Qeq by ring.
    apply Qmult_le_l; [apply pow2_pos|].
    rewrite <- Zle_Qle. lia.
  - setoid_replace ((inject_Z (A * N) * 2 ^ e' - inject_Z N * 2 ^ e')
                    * (inject_Z (A * N) * 2 ^ e' - inject_Z N * 2 ^ e'))
      with (inject_Z ((A * N - N) * (A * N - N)) * (2 ^ e' * 2 ^ e')) using relation Qeq
      by (rewrite !inject_Z_mult; unfold Z.sub; rewrite !inject_Z_plus, !inject_Z_opp,
           !inject_Z_mult; ring).
    apply Qmult_le_compat_r; [|exact Ht]. now rewrite <- Zle_Qle.
  - setoid_replace ((inject_Z (A * N) * 2 ^ e' + inject_Z N * 2 ^ e')
                    * (inject_Z (A * N) * 2 ^ e' + inject_Z N * 2 ^ e'))
      with (inject_Z ((A * N + N) * (A * N + N)) * (2 ^ e' * 2 ^ e')) using relation Qeq
      by (rewrite !inject_Z_mult, !inject_Z_plus, !inject_Z_mult; ring).
    apply Qmult_le_compat_r; [|exact Ht]. now rewrite <- Zle_Qle.
Qed.

End RootValue.

Section Ground.

Variables prec emax : Z.
Hypothesis Hprec : (0 < prec)%Z.

(** Rounding never produces an exponent below [emin]. *)
Lemma binary_round_aux_ground sx mx ex lx s m e :
  (0 <= mx)%Z ->
  binary_round_aux prec emax sx mx ex lx = S754_finite s m e ->
  (emin prec emax <= e)%Z.
Proof.
  intros Hmx Hy.
  destruct (binary_round_aux_shape prec emax Hprec sx mx ex lx Hmx)
    as (_ & [(_ & H0)|(m3 & e3 & _ & He3 & H3)]).
  - rewrite H0 in Hy. discriminate Hy.
  - rewrite H3 in Hy. destruct (e3 <=? emax - prec)%Z; [|discriminate Hy].
    inversion Hy; subst.
    pose proof (fexp_ge_emin prec emax (Zdigits2 mx + ex)).
    unfold shift in He3. lia.
Qed.

Lemma binary_round_ground sx mx ex s m e :
  binary_round prec emax sx mx ex = S754_finite s m e -> (emin prec emax <= e)%Z.
Proof.
  unfold binary_round. destruct (shl_align _ _ _) as [mz ez].
  now apply binary_round_aux_ground.
Qed.

Lemma binary_normalize_ground mz ez s m e :
  binary_normalize prec emax mz ez false = S754_finite s m e -> (emin prec emax <= e)%Z.
Proof.
  destruct mz; cbn [binary_normalize]; [discriminate | apply binary_round_ground ..].
Qed.

End Ground.

(** *** binary32 in exact arithmetic *)

Section Single.

Local Open Scope Q_scope.

(** A single whose exponent is not below the smallest one of the format. *)
Definition grounded (x : spec_float) : Prop :=
  match x with
  | S754_finite _ _ e => (-149 <= e)%Z
  | _ => True
  end.

Lemma toQ_one : toQ F32.one == 1.
Proof. reflexivity. Qed.

Lemma mul_grounded x y : grounded (F32.mul x y).
Proof.
  destruct (F32.mul x y) as [| | |s m e] eqn:E; try exact I.
  destruct x as [sx|sx| |sx mx ex], y as [sy|sy| |sy my ey]; try discriminate E.
  refine (binary_round_aux_ground F32.prec F32.emax eq_refl _ _ _ _ _ _ _ _ E). lia.
Qed.

Lemma sub_grounded x y : grounded x -> grounded y -> grounded (F32.sub x y).
Proof.
  intros Hx Hy.
  destruct (F32.sub x y) as [| | |s m e] eqn:E; try exact I.
  destruct x as [sx|sx| |sx mx ex], y as [sy|sy| |sy my ey];
    try discriminate E; cbn in E.
  - now destruct sx, sy.
  - inversion E; subst. exact Hy.
  - now destruct sx, sy.
  - inversion E; subst. exact Hx.
  - exact (binary_normalize_ground F32.prec F32.emax eq_refl _ _ _ _ _ E).
Qed.

Lemma mul_error K x y :
  (K <= 104)%Z -> (-125 <= K)%Z ->
  is_finite x = true -> is_finite y = true ->
  Qabs (toQ x * toQ y) < 2 ^ K ->
  is_finite (F32.mul x y) = true
  /\ Qabs (toQ (F32.mul x y) - toQ x * toQ y) <= 2 ^ (K - 25).
Proof.
  intros HK Hemin Hx Hy Hlt.
  replace (K - 25)%Z with (K - F32.prec - 1)%Z by (unfold F32.prec; lia).
  apply (SFmul_error F32.prec F32.emax eq_refl K); unfold F32.prec, F32.emax, emin; try lia;
    assumption.
Qed.

Lemma sub_error K x y :
  (K <= 104)%Z -> (-125 <= K)%Z ->
  is_finite x = true -> is_finite y = true ->
  Qabs (toQ x - toQ y) < 2 ^ K ->
  is_finite (F32.sub x y) = true
  /\ Qabs (toQ (F32.sub x y) - (toQ x - toQ y)) <= 2 ^ (K - 25).
Proof.
  intros HK Hemin Hx Hy Hlt.
  replace (K - 25)%Z with (K - F32.prec - 1)%Z by (unfold F32.prec; lia).
  apply (SFsub_error F32.prec F32.emax eq_refl K); unfold F32.prec, F32.emax, emin; try lia;
    assumption.
Qed.

(** The comparison with zero reads the sign. *)
Lemma gtb_zero_true r :
  is_finite r = true -> F32.gtb r F32.zero = true ->
  exists m e, r = S754_finite false m e.
Proof.
  intros Hf Hg. destruct r as [s|s| |[] m e]; try discriminate Hf; try discriminate Hg.
  now exists m, e.
Qed.

Lemma gtb_zero_false r :
  is_finite r = true -> F32.gtb r F32.zero = false -> toQ r <= 0.
Proof.
  intros Hf Hg. destruct r as [s|s| |[] m e]; try discriminate Hf; try discriminate Hg;
    cbn [toQ].
  - apply Qle_refl.
  - pose proof (pow2_pos e).
    assert (0 < inject_Z (Zpos m)) by (now rewrite <- (Zlt_Qlt 0)).
    nra.
Qed.

Lemma toQ_positive m e : 0 < toQ (S754_finite false m e).
Proof.
  cbn [toQ]. pose proof (pow2_pos e).
  assert (0 < inject_Z (Zpos m)) by (now rewrite <- (Zlt_Qlt 0)).
  nra.
Qed.

End Single.

Section SingleRoot.

Local Open Scope Q_scope.

(** [(float)sqrt(r)] of a positive single [r] below 2 is a positive single
    whose square is within [2 ^ -21] of [r]. *)
Lemma sqrt_error m e :
  (-149 <= e)%Z -> toQ (S754_finite false m e) < 2 ->
  exists mw ew,
    F32.sqrt (S754_finite false m e) = S754_finite false mw ew
    /\ Qabs (toQ (S754_finite false mw ew) * toQ (S754_finite false mw ew)
             - toQ (S754_finite false m e)) <= 2 ^ (-21).
Proof.
  intros He Hlt.
  assert (HR : toQ (S754_finite false m e) == inject_Z (Zpos m) * 2 ^ e)
    by (cbn [toQ]; ring).
  rewrite HR in *.
  assert (Hd : (Zdigits2 (Zpos m) + e <= 1)%Z) by (now apply digits_bound).
  destruct (SFsqrt_value m e He Hd)
    as (m3 & e3 & h & HD & Hdig & Hh0 & Hh & HhD & Hlow & Hupp).
  unfold F32.sqrt. rewrite HD. cbn [F32.of_double].
  set (R := inject_Z (Zpos m) * 2 ^ e) in *.
  set (D := inject_Z (Zpos m3) * 2 ^ e3) in *.
  assert (E52 : 2 ^ (-52) == 1 # 4503599627370496) by reflexivity.
  rewrite E52 in Hh.
  assert (HD2 : D < 2 ^ 1).
  { change (2 ^ 1) with 2. nra. }
  destruct (binary_round_error F32.prec F32.emax eq_refl 1 ltac:(unfold F32.prec, F32.emax; lia)
              ltac:(unfold F32.prec, F32.emax, emin; lia) false m3 e3 HD2) as [Hfin Herr].
  (* the result is not zero *)
  assert (Hpos : exists mw ew,
             binary_round F32.prec F32.emax false m3 e3 = S754_finite false mw ew).
  { unfold binary_round in *.
    pose proof (shl_align_exact m3 e3
                  (fexp F32.prec F32.emax (Z.pos (digits2_pos m3) + e3))) as Hv.
    destruct (shl_align m3 e3 _) as [mz ez]. cbn [fst snd] in Hv. fold D in Hv.
    destruct (binary_round_aux_nonzero F32.prec F32.emax eq_refl false (Zpos mz) ez
                loc_Exact eq_refl) as (mw & ew & _ & _ & _ & Hy).
    { destruct (Zdigits2_spec (Zpos m3) eq_refl) as [Hlo3 _].
      destruct (Zdigits2_spec (Zpos mz) eq_refl) as [_ Hhiz].
      pose proof (Zdigits2_pos (Zpos m3) eq_refl) as Hd3.
      pose proof (Zdigits2_pos (Zpos mz) eq_refl) as Hdz.
      assert (H1 : 2 ^ (Zdigits2 (Zpos m3) - 1 + e3) <= D).
      { unfold D. rewrite pow2_add. apply Qmult_le_compat_r; [|apply Qlt_le_weak, pow2_pos].
        rewrite <- pow2_Z by lia. now rewrite <- Zle_Qle. }
      assert (H2 : D < 2 ^ (Zdigits2 (Zpos mz) + ez)).
      { rewrite <- Hv, pow2_add. apply Qmult_lt_compat_r; [apply pow2_pos|].
        rewrite <- pow2_Z by lia. now rewrite <- Zlt_Qlt. }
      assert (H3 : 2 ^ (Zdigits2 (Zpos m3) - 1 + e3) < 2 ^ (Zdigits2 (Zpos mz) + ez))
        by (eapply Qle_lt_trans; eassumption).
      apply pow2_lt_inv in H3. unfold emin, F32.prec, F32.emax. lia. }
    rewrite Hy in Hfin |- *.
    destruct (ew <=? F32.emax - F32.prec)%Z; [|discriminate Hfin].
    now exists mw, ew. }
  destruct Hpos as (mw & ew & Hw). rewrite Hw in *.
  exists mw, ew. split; [reflexivity|].
  pose proof (toQ_positive mw ew) as HW.
  set (W := toQ (S754_finite false mw ew)) in *.
  unfold signed in Herr. fold D in Herr.
  apply Qabs_Qle_condition in Herr. destruct Herr as [Herr1 Herr2].
  assert (E24 : 2 ^ (1 - F32.prec - 1) == 1 # 16777216) by reflexivity.
  rewrite E24 in *.
  assert (E21 : 2 ^ (-21) == 1 # 2097152) by reflexivity.
  rewrite HR, E21.
  (* everything within T = 2 ^ -23 of W *)
  assert (Ha : D - h < 3 # 2) by nra.
  assert (Hb : 0 <= D + h <= W + (1 # 8388608)) by lra.
  assert (Hc : W - (1 # 8388608) <= D - h) by lra.
  assert (HW2 : W < 2) by lra.
  assert (Hup : R <= (W + (1 # 8388608)) * (W + (1 # 8388608))) by nra.
  apply Qabs_Qle_condition. split.
  - destruct (Qlt_le_dec W (1 # 8388608)) as [Hs|Hs]; [nra|].
    assert ((W - (1 # 8388608)) * (W - (1 # 8388608)) <= R) by nra.
    nra.
  - nra.
Qed.

End SingleRoot.

Section Radicand.

Local Open Scope Q_scope.

(** [x*x + y*y + z*z] in exact arithmetic. *)
Definition norm2 (x y z : float) : Q :=
  toQ x * toQ x + toQ y * toQ y + toQ z * toQ z.

Lemma square_bound a : Qabs a <= 4 -> Qabs (a * a) < 2 ^ 5.
Proof.
  intros H. apply Qabs_Qle_condition in H. destruct H.
  change (2 ^ 5) with 32. apply Qabs_Qlt_condition. split; nra.
Qed.

Lemma square_error x :
  is_finite x = true -> Qabs (toQ x) <= 4 ->
  is_finite (F32.mul x x) = true
  /\ - (1 # 1048576) <= toQ (F32.mul x x) - toQ x * toQ x <= 1 # 1048576.
Proof.
  intros Hx Hb.
  destruct (mul_error 5 x x ltac:(lia) ltac:(lia) Hx Hx (square_bound _ Hb)) as [Hf He].
  split; [exact Hf|]. now apply Qabs_Qle_condition in He.
Qed.

Lemma one_grounded : grounded F32.one.
Proof. vm_compute. discriminate. Qed.

Lemma rv_radicand_grounded x y z : grounded (rv_radicand x y z).
Proof.
  unfold rv_radicand.
  repeat first [apply mul_grounded | apply one_grounded | apply sub_grounded].
Qed.

(** The radicand computed in [float] is within [2 ^ -17] of
    [1 - (x*x + y*y + z*z)]. *)
Lemma rv_radicand_error x y z :
  is_finite x = true -> is_finite y = true -> is_finite z = true ->
  Qabs (toQ x) <= 4 -> Qabs (toQ y) <= 4 -> Qabs (toQ z) <= 4 ->
  is_finite (rv_radicand x y z) = true
  /\ grounded (rv_radicand x y z)
  /\ Qabs (toQ (rv_radicand x y z) - (1 - norm2 x y z)) <= 2 ^ (-17).
Proof.
  intros Hx Hy Hz Bx By Bz. unfold rv_radicand, norm2.
  destruct (square_error x Hx Bx) as [F1 [L1 U1]].
  destruct (square_error y Hy By) as [F2 [L2 U2]].
  destruct (square_error z Hz Bz) as [F3 [L3 U3]].
  apply Qabs_Qle_condition in Bx, By, Bz.
  destruct Bx as [Bx1 Bx2], By as [By1 By2], Bz as [Bz1 Bz2].
  set (p1 := F32.mul x x) in *. set (p2 := F32.mul y y) in *. set (p3 := F32.mul z z) in *.
  assert (S1 : 0 <= toQ x * toQ x <= 16) by nra.
  assert (S2 : 0 <= toQ y * toQ y <= 16) by nra.
  assert (S3 : 0 <= toQ z * toQ z <= 16) by nra.
  pose proof toQ_one as E1.
  destruct (sub_error 5 F32.one p1 ltac:(lia) ltac:(lia) eq_refl F1) as [Fa Ea].
  { change (2 ^ 5) with 32. apply Qabs_Qlt_condition. rewrite E1. split; lra. }
  change (2 ^ (5 - 25)) with (2 ^ (-20)) in Ea.
  assert (E20 : 2 ^ (-20) == 1 # 1048576) by reflexivity.
  rewrite E20, E1 in Ea. apply Qabs_Qle_condition in Ea. destruct Ea as [La Ua].
  set (a := F32.sub F32.one p1) in *.
  destruct (sub_error 6 a p2 ltac:(lia) ltac:(lia) Fa F2) as [Fb Eb].
  { change (2 ^ 6) with 64. apply Qabs_Qlt_condition. split; lra. }
  change (2 ^ (6 - 25)) with (2 ^ (-19)) in Eb.
  assert (E19 : 2 ^ (-19) == 1 # 524288) by reflexivity.
  rewrite E19 in Eb. apply Qabs_Qle_condition in Eb. destruct Eb as [Lb Ub].
  set (b := F32.sub a p2) in *.
  destruct (sub_error 6 b p3 ltac:(lia) ltac:(lia) Fb F3) as [Fr Er].
  { change (2 ^ 6) with 64. apply Qabs_Qlt_condition. split; lra. }
  change (2 ^ (6 - 25)) with (2 ^ (-19)) in Er.
  rewrite E19 in Er. apply Qabs_Qle_condition in Er. destruct Er as [Lr Ur].
  split; [exact Fr|]. split.
  - apply rv_radicand_grounded.
  - assert (E17 : 2 ^ (-17) == 1 # 131072) by reflexivity.
    rewrite E17. apply Qabs_Qle_condition. split; lra.
Qed.

(** The value finalization stores, against the exact radicand. *)
Lemma rv_4th_exact x y z :
  is_finite x = true -> is_finite y = true -> is_finite z = true ->
  Qabs (toQ x) <= 4 -> Qabs (toQ y) <= 4 -> Qabs (toQ z) <= 4 ->
  let w := rv_4th (rv_radicand x y z) in
  is_finite w = true
  /\ ((w = F32.zero /\ 1 - norm2 x y z <= 2 ^ (-17))
      \/ (0 < toQ w
          /\ Qabs (toQ w * toQ w - (1 - norm2 x y z)) <= 2 ^ (-16))).
Proof.
  intros Hx Hy Hz Bx By Bz w.
  destruct (rv_radicand_error x y z Hx Hy Hz Bx By Bz) as (Fr & Gr & Er).
  assert (E17 : 2 ^ (-17) == 1 # 131072) by reflexivity.
  assert (E16 : 2 ^ (-16) == 1 # 65536) by reflexivity.
  assert (E21 : 2 ^ (-21) == 1 # 2097152) by reflexivity.
  rewrite E17 in *. rewrite E16.
  apply Qabs_Qle_condition in Er. destruct Er as [Lr Ur].
  assert (S0 : 0 <= norm2 x y z).
  { unfold norm2. nra. }
  unfold w, rv_4th.
  destruct (F32.gtb (rv_radicand x y z) F32.zero) eqn:Hg.
  - destruct (gtb_zero_true _ Fr Hg) as (m & e & Hr). rewrite Hr in *.
    destruct (sqrt_error m e Gr ltac:(lra)) as (mw & ew & Hw & Hsq).
    rewrite Hw. split; [reflexivity|]. right.
    split; [apply toQ_positive|].
    rewrite E21 in Hsq. apply Qabs_Qle_condition in Hsq. destruct Hsq as [Ls Us].
    apply Qabs_Qle_condition. split; lra.
  - split; [reflexivity|]. left. split; [reflexivity|].
    pose proof (gtb_zero_false _ Fr Hg). lra.
Qed.

(** Away from the unit sphere the sign of the exact radicand decides. *)
Lemma rv_4th_outside_ball x y z :
  is_finite x = true -> is_finite y = true -> is_finite z = true ->
  Qabs (toQ x) <= 4 -> Qabs (toQ y) <= 4 -> Qabs (toQ z) <= 4 ->
  1 + 2 ^ (-17) <= norm2 x y z ->
  rv_4th (rv_radicand x y z) = F32.zero.
Proof.
  intros Hx Hy Hz Bx By Bz HS.
  destruct (rv_radicand_error x y z Hx Hy Hz Bx By Bz) as (Fr & Gr & Er).
  assert (E17 : 2 ^ (-17) == 1 # 131072) by reflexivity.
  rewrite E17 in *.
  apply Qabs_Qle_condition in Er. destruct Er as [Lr Ur].
  unfold rv_4th.
  destruct (F32.gtb (rv_radicand x y z) F32.zero) eqn:Hg; [|reflexivity].
  destruct (gtb_zero_true _ Fr Hg) as (m & e & Hr). rewrite Hr in *.
  pose proof (toQ_positive m e). lra.
Qed.

Lemma rv_4th_inside_ball x y z :
  is_finite x = true -> is_finite y = true -> is_finite z = true ->
  Qabs (toQ x) <= 4 -> Qabs (toQ y) <= 4 -> Qabs (toQ z) <= 4 ->
  norm2 x y z < 1 - 2 ^ (-17) ->
  0 < toQ (rv_4th (rv_radicand x y z)).
Proof.
  intros Hx Hy Hz Bx By Bz HS.
  destruct (rv_4th_exact x y z Hx Hy Hz Bx By Bz) as (_ & [[_ H]|[H _]]).
  - lra.
  - exact H.
Qed.

End Radicand.

Section Decoded.

Local Open Scope Q_scope.

(** Every 16-bit component scaled by 0.0001f is a finite float of magnitude
    below 4. *)
Lemma scaled_in_range v :
  (-32768 <= v <= 32767)%Z ->
  is_finite (scaled v Sample.ten_thousandth) = true
  /\ Qabs (toQ (scaled v Sample.ten_thousandth)) <= 4.
Proof.
  intros Hv. unfold scaled, F32.of_Z.
  assert (Hin : - (32768 # 1) <= inject_Z v <= 32768 # 1).
  { change (32768 # 1) with (inject_Z 32768). rewrite <- inject_Z_opp, <- !Zle_Qle. lia. }
  destruct (binary_normalize_error F32.prec F32.emax eq_refl 16
              ltac:(unfold F32.prec, F32.emax; lia)
              ltac:(unfold F32.prec, F32.emax, emin; lia) v 0) as [Fv Ev].
  { change (2 ^ 0) with 1. change (2 ^ 16) with (65536 # 1).
    apply Qabs_Qlt_condition. split; lra. }
  change (2 ^ 0) with 1 in Ev.
  assert (E9 : 2 ^ (16 - F32.prec - 1) == 1 # 512) by reflexivity.
  rewrite E9 in Ev. apply Qabs_Qle_condition in Ev. destruct Ev as [Lv Uv].
  set (fv := binary_normalize F32.prec F32.emax v 0 false) in *.
  assert (Ec : toQ Sample.ten_thousandth == 13743895 # 137438953472) by reflexivity.
  destruct (mul_error 2 fv Sample.ten_thousandth ltac:(lia) ltac:(lia) Fv eq_refl) as [Fm Em].
  { change (2 ^ 2) with 4. rewrite Ec. apply Qabs_Qlt_condition. split; lra. }
  split; [exact Fm|].
  assert (E23 : 2 ^ (2 - 25) == 1 # 8388608) by reflexivity.
  rewrite E23, Ec in Em. apply Qabs_Qle_condition in Em. destruct Em as [Lm Um].
  apply Qabs_Qle_condition. split; lra.
Qed.

End Decoded.

(** *** The stored value *)

(** C5.  For the three rotation-vector kinds, finalization stores in
    [data[3]] the value [w = (r > 0) ? (float)sqrt(r) : 0], where [r] is
    [1 - x*x - y*y - z*z] evaluated in [float] on the already scaled
    [data[0..2]]; the slot keeps its other data entries, its version, sensor,
    type and timestamp, and the other slots are untouched.  [w] is never a
    NaN.  When [x], [y] and [z] are finite and of magnitude at most 4 (as
    every decoded component is), [w] is finite and, with [S] the exact
    sum [x*x + y*y + z*z]: if [S >= 1 + 2^-17] then [w] is exactly [+0]; if
    [S < 1 - 2^-17] then [w] is positive; and in every case either [w] is
    [+0] and [1 - S <= 2^-17], or [w] is positive and its exact square is
    within [2^-16] of [1 - S].  Closer than [2^-17] to the unit sphere the
    rounding of the products and differences decides which of the two
    happens.  For every other kind, finalization leaves the driver
    unchanged. *)
Theorem calculate_rv_4th_element_spec (hdr : Header) (s : CwMcuSensor) (id : Z) :
  ((forall k, In k rv_labels -> tag hdr k <> id) ->
     calculate_rv_4th_element hdr id s = Done tt s)
  /\ (forall k e,
        In k rv_labels -> id = tag hdr k -> 0 <= id ->
        mPendingEvents s !! Z.to_nat id = Some e ->
        let x := get_data 0 e in
        let y := get_data 1 e in
        let z := get_data 2 e in
        let w := rv_4th (rv_radicand x y z) in
        (exists e',
           calculate_rv_4th_element hdr id s
           = Done tt (set_mPendingEvents
                        (<[Z.to_nat id := e']> (mPendingEvents s)) s)
           /\ data e' = <[3%nat := w]> (data e)
           /\ version e' = version e /\ sensor e' = sensor e
           /\ type e' = type e /\ timestamp e' = timestamp e)
        /\ F32.is_nan w = false
        /\ (is_finite x = true -> is_finite y = true -> is_finite z = true ->
            (Qabs (toQ x) <= 4)%Q -> (Qabs (toQ y) <= 4)%Q -> (Qabs (toQ z) <= 4)%Q ->
            is_finite w = true
            /\ ((1 + 2 ^ (-17) <= norm2 x y z)%Q -> w = F32.zero)
            /\ ((norm2 x y z < 1 - 2 ^ (-17))%Q -> (0 < toQ w)%Q)
            /\ ((w = F32.zero /\ (1 - norm2 x y z <= 2 ^ (-17))%Q)
                \/ ((0 < toQ w)%Q
                    /\ (Qabs (toQ w * toQ w - (1 - norm2 x y z)) <= 2 ^ (-16))%Q)))).
Proof.
  split.
  - intros Hnot. unfold calculate_rv_4th_element.
    destruct (select (tag hdr) rv_labels id) as [k|] eqn:E; [|reflexivity].
    apply select_Some in E as [E Hin]. now apply Hnot in Hin.
  - intros k e Hin -> Hid He x y z w.
    split; [|split].
    + exists (set_data 3 w e). split; [|repeat split].
      unfold calculate_rv_4th_element. rewrite select_tag.
      replace (find (fun k' => bool_decide (k' = k)) rv_labels) with (Some k)
        by (destruct Hin as [<-|[<-|[<-|[]]]]; reflexivity).
      rewrite (bind_done _ _ _ _ _ (read_slot_done _ s e Hid He)).
      now rewrite (update_slot_done _ _ s e Hid He).
    + apply rv_4th_not_nan.
    + intros Hx Hy Hz Bx By Bz.
      destruct (rv_4th_exact x y z Hx Hy Hz Bx By Bz) as [Hf Hcases].
      split; [exact Hf|]. split; [|split; [|exact Hcases]].
      * now apply rv_4th_outside_ball.
      * now apply rv_4th_inside_ball.
Qed.

(** Three decoded triples, scaled by 0.0001f: inside the unit ball, on it and
    outside it. *)
Example rv_4th_inside :
  let q v := scaled v Sample.ten_thousandth in
  rv_4th (rv_radicand (q 5000) (q 5000) (q 5000)) = S754_finite false 8388608 (-24).
Proof. reflexivity. Qed.

Example rv_4th_on_sphere :
  let q v := scaled v Sample.ten_thousandth in
  rv_radicand (q 10000) (q 0) (q 0) = F32.zero
  /\ rv_4th (rv_radicand (q 10000) (q 0) (q 0)) = F32.zero.
Proof. split; reflexivity. Qed.

Example rv_4th_outside :
  let q v := scaled v Sample.ten_thousandth in
  rv_radicand (q 10000) (q 10000) (q 0) = F32.of_Z (-1)
  /\ rv_4th (rv_radicand (q 10000) (q 10000) (q 0)) = F32.zero.
Proof. split; reflexivity. Qed.

(** A pending rotation-vector sample with the decoded components [v],
    scaled by 0.0001f. *)
Definition rv_pending (v : list Z) : CwMcuSensor :=
  set_mPendingEvents
    (<[7%nat := mkEvent 104 6 11 0
                  (map (fun c => scaled c Sample.ten_thousandth) v
                   ++ replicate 13 F32.zero) 0 0 0 0]>
       (mPendingEvents Sample.idle))
    Sample.idle.

Definition rv_sample : CwMcuSensor := rv_pending [5000; 5000; 5000].

(** Just outside the unit sphere: the exact sum of squares exceeds 1 by about
    [1.5e-8]. *)
Definition rv_near : CwMcuSensor := rv_pending [1894; 9819; 3].

(** The reading of the comparison in exact arithmetic: a sum of squares
    above 1 gives exactly zero. *)
Definition zero_outside_unit_ball (hdr : Header) : Prop :=
  forall s k e s',
    In k rv_labels -> 0 <= tag hdr k ->
    mPendingEvents s !! Z.to_nat (tag hdr k) = Some e ->
    is_finite (get_data 0 e) = true ->
    is_finite (get_data 1 e) = true ->
    is_finite (get_data 2 e) = true ->
    (1 < norm2 (get_data 0 e) (get_data 1 e) (get_data 2 e))%Q ->
    calculate_rv_4th_element hdr (tag hdr k) s = Done tt s' ->
    exists e',
      mPendingEvents s' !! Z.to_nat (tag hdr k) = Some e'
      /\ get_data 3 e' = F32.zero.

(** The components 0.1894, 0.9819 and 0.0003 have a sum of squares above 1,
    yet the radicand computed in [float] is positive and the stored value is
    about [1.7e-4]. *)
Lemma zero_outside_unit_ball_fails : ~ zero_outside_unit_ball Sample.hdr.
Proof.
  intros H.
  destruct (calculate_rv_4th_element Sample.hdr 7 rv_near) as [[] s'|f] eqn:Hrun.
  - destruct (H rv_near CW_ROTATIONVECTOR
                (mkEvent 104 6 11 0
                   (map (fun c => scaled c Sample.ten_thousandth) [1894; 9819; 3]
                    ++ replicate 13 F32.zero) 0 0 0 0) s')
      as (e' & He' & Hw); try reflexivity.
    + left. reflexivity.
    + discriminate.
    + exact Hrun.
    + vm_compute in Hrun. inversion Hrun; subst.
      vm_compute in He'. inversion He'; subst. vm_compute in Hw. discriminate Hw.
  - vm_compute in Hrun. discriminate Hrun.
Qed.

Lemma calculate_rv_4th_element_spec_witness :
  calculate_rv_4th_element Sample.hdr 3 rv_sample = Done tt rv_sample
  /\ (exists e',
        calculate_rv_4th_element Sample.hdr 7 rv_sample
        = Done tt (set_mPendingEvents (<[7%nat := e']> (mPendingEvents rv_sample))
                     rv_sample)
        /\ get_data 3 e' = S754_finite false 8388608 (-24))
  /\ (0 < toQ (S754_finite false 8388608 (-24)))%Q.
Proof.
  destruct (calculate_rv_4th_element_spec Sample.hdr rv_sample 3) as [Hother _].
  destruct (calculate_rv_4th_element_spec Sample.hdr rv_sample 7) as [_ Hrv].
  split.
  - apply Hother. intros k [<-|[<-|[<-|[]]]]; discriminate.
  - destruct (Hrv CW_ROTATIONVECTOR
                (mkEvent 104 6 11 0
                   (map (fun c => scaled c Sample.ten_thousandth) [5000; 5000; 5000]
                    ++ replicate 13 F32.zero) 0 0 0 0))
      as ((e' & Hrun & Hdata & _) & _ & Hexact).
    + left. reflexivity.
    + reflexivity.
    + discriminate.
    + reflexivity.
    + split.
      * exists e'. split; [exact Hrun|]. unfold get_data. rewrite Hdata. reflexivity.
      * assert (Hsmall : forall c, In c [5000; 5000; 5000] ->
                  (Qabs (toQ (scaled c Sample.ten_thousandth)) <= 4)%Q)
          by (intros c [<-|[<-|[<-|[]]]]; vm_compute; discriminate).
        destruct Hexact as (_ & _ & Hpos & _);
          [reflexivity | reflexivity | reflexivity
          | apply Hsmall; now left | apply Hsmall; now left | apply Hsmall; now left |].
        exact (Hpos eq_refl).
Defined.

(** ** The light table *)

Lemma indexToValue_clamped (index : Z) :
  9 < index -> indexToValue index = F32.of_Z 2600.
Proof.
  intros H. unfold indexToValue, LIGHTSENSOR_LEVEL.
  replace (index >? 10 - 1) with true by (symmetry; apply Z.gtb_lt; lia).
  reflexivity.
Qed.

(** A negative 16-bit index, converted to [size_t] as [processEvent] does,
    is a huge index and therefore clamped as well. *)
Lemma indexToValue_negative (d : Z) :
  -32768 <= d < 0 -> indexToValue (Int.size_t d) = F32.of_Z 2600.
Proof.
  intros H. apply indexToValue_clamped.
  unfold Int.size_t, Int.unsigned.
  replace d with (d + 2 ^ 64 + (-1) * 2 ^ 64) by ring.
  rewrite Z.mod_add by lia. rewrite Z.mod_small; lia.
Qed.

(** C6.  The light lookup has exactly the ten entries
    0, 10, 40, 90, 160, 225, 320, 640, 1280, 2600, in strictly increasing
    order; index 0 gives 0.0 lux, index 9 gives 2600.0 lux, and every index
    of 10 or more is clamped to the last entry, 2600.0 lux. *)
Theorem indexToValue_table :
  indexToValue 0 = F32.of_Z 0
  /\ indexToValue 9 = F32.of_Z 2600
  /\ (forall index, 10 <= index -> indexToValue index = F32.of_Z 2600)
  /\ length luxValues = 10%nat
  /\ luxValues = map F32.of_Z [0; 10; 40; 90; 160; 225; 320; 640; 1280; 2600]
  /\ (forall i j, 0 <= i -> i < j -> j <= 9 ->
        F32.ltb (indexToValue i) (indexToValue j) = true).
Proof.
  repeat split.
  - intros index H. apply indexToValue_clamped. lia.
  - intros i j Hi Hij Hj.
    set (indices := map Z.of_nat (seq 0 10)).
    assert (Hin : forall n, 0 <= n <= 9 -> In n indices).
    { intros n Hn. replace n with (Z.of_nat (Z.to_nat n)) by lia.
      apply in_map, in_seq. lia. }
    assert (Hall : forallb (fun a => forallb (fun b =>
                     implb (a <? b) (F32.ltb (indexToValue a) (indexToValue b)))
                     indices) indices = true) by (vm_compute; reflexivity).
    rewrite forallb_forall in Hall. specialize (Hall i (Hin i ltac:(lia))).
    rewrite forallb_forall in Hall. specialize (Hall j (Hin j ltac:(lia))).
    replace (i <? j) with true in Hall by (symmetry; apply Z.ltb_lt; lia).
    exact Hall.
Qed.

Lemma indexToValue_table_witness :
  indexToValue 12 = F32.of_Z 2600
  /\ F32.ltb (indexToValue 4) (indexToValue 5) = true.
Proof.
  destruct indexToValue_table as (_ & _ & Hclamp & _ & _ & Hmono).
  split; [apply Hclamp; lia | apply Hmono; lia].
Defined.

(** ** Meta-data records (C7) *)

Section MetaData.

Context (hdr : Header) (env : Env).

(** The event a flush-complete record leaves in [mPendingEventsFlush]. *)
Definition flush_complete (ev : cw_event) (s : CwMcuSensor) : sensors_event_t :=
  set_meta_sensor (find_handle hdr (ev_data ev 0))
    (set_meta_what META_DATA_FLUSH_COMPLETE (mPendingEventsFlush s)).

Lemma processEvent_meta_data s ev e :
  ev_id ev = tag hdr CW_META_DATA ->
  mPendingEvents s !! Z.to_nat (ev_id ev) = Some e ->
  processEvent hdr env ev s
  = Done (ev_id ev)
      (set_mPendingEventsFlush (flush_complete ev s)
         (set_mPendingEvents
            (<[Z.to_nat (ev_id ev) := set_timestamp (ev_time ev) e]> (mPendingEvents s)) s)).
Proof.
  intros Htag He. pose proof (ev_id_range ev) as [Hid _].
  unfold processEvent.
  rewrite (bind_done _ _ _ _ _ (update_slot_done _ _ s e Hid He)).
  unfold decode_payload. rewrite Htag, select_tag. reflexivity.
Qed.

(** C7.  A meta-data record makes the dispatch loop emit exactly one event,
    the flush-complete event whose [meta_data.sensor] is [find_handle]
    applied to the record's first primary value.  Neither the enabled mask
    nor the dirty mask is read or written: the same event comes out for
    every value of the two masks, and both are left as they were.  (The
    record's tag must index a slot of the table, because [processEvent]
    stores the device time there before it looks at the tag.) *)
Theorem dispatch_meta_data (s : CwMcuSensor) (ev : cw_event) (e : sensors_event_t) :
  ev_id ev = tag hdr CW_META_DATA ->
  mPendingEvents s !! Z.to_nat (ev_id ev) = Some e ->
  exists s',
    dispatch hdr env ev s = Done [flush_complete ev s] s'
    /\ meta_sensor (flush_complete ev s) = find_handle hdr (ev_data ev 0)
    /\ meta_what (flush_complete ev s) = META_DATA_FLUSH_COMPLETE
    /\ mEnabled s' = mEnabled s
    /\ mPendingMask s' = mPendingMask s
    /\ mInputReader s' = tail (mInputReader s)
    /\ (forall enabled pending, exists s'',
          dispatch hdr env ev (set_mEnabled enabled (set_mPendingMask pending s))
          = Done [flush_complete ev s] s'').
Proof.
  intros Htag He.
  assert (Hrun : forall s0, mPendingEvents s0 = mPendingEvents s ->
            exists s', dispatch hdr env ev s0 = Done [flush_complete ev s0] s'
                       /\ mEnabled s' = mEnabled s0
                       /\ mPendingMask s' = mPendingMask s0
                       /\ mInputReader s' = tail (mInputReader s0)).
  { intros s0 Hs0. unfold dispatch.
    rewrite (bind_done _ _ _ _ _ (processEvent_meta_data s0 ev e Htag
               ltac:(now rewrite Hs0))).
    unfold emit. rewrite Htag, Z.eqb_refl. simpl. eexists. repeat split. }
  destruct (Hrun s eq_refl) as (s' & Hs' & Hen & Hpm & Hq).
  exists s'. repeat split; try assumption.
  intros enabled pending.
  destruct (Hrun (set_mEnabled enabled (set_mPendingMask pending s)) eq_refl)
    as (s'' & Hs'' & _).
  exists s''. exact Hs''.
Qed.

End MetaData.

Lemma dispatch_meta_data_witness :
  exists s',
    dispatch Sample.hdr Sample.env (Sample.record 31 7 0 0 0 9) Sample.idle
    = Done [set_meta_sensor 6 (set_meta_what 1 Sample.blank)] s'
    /\ mEnabled s' = 0.
Proof.
  destruct (dispatch_meta_data Sample.hdr Sample.env Sample.idle
              (Sample.record 31 7 0 0 0 9) Sample.blank eq_refl eq_refl)
    as (s' & Hrun & _ & _ & Hen & _).
  exists s'. split; [exact Hrun | exact Hen].
Defined.

(** ** The time-sync handshake (C8) *)

Section Sync.

Context (hdr : Header) (env : Env).

Lemma processEvent_sync_ack s ev e :
  ev_id ev = tag hdr CW_SYNC_ACK ->
  mPendingEvents s !! Z.to_nat (ev_id ev) = Some e ->
  let s1 := set_mPendingEvents
              (<[Z.to_nat (ev_id ev) := set_timestamp (ev_time ev) e]> (mPendingEvents s)) s in
  processEvent hdr env ev s
  = Done (ev_id ev)
      (if ev_data ev 0 =? SYNC_ACK_MAGIC then set_g_timestamp (l_timestamp s) s1 else s1).
Proof.
  intros Htag He. pose proof (ev_id_range ev) as [Hid _].
  unfold processEvent.
  rewrite (bind_done _ _ _ _ _ (update_slot_done _ _ s e Hid He)).
  unfold decode_payload. rewrite Htag, select_tag. simpl.
  now destruct (ev_data ev 0 =? SYNC_ACK_MAGIC).
Qed.

(** A sync request never touches the synchronized time; it records the host
    time as the candidate exactly when the request was written. *)
Lemma sync_timestamp_locked_spec s :
  wp (sync_timestamp_locked hdr env)
     (fun rc s' =>
        g_timestamp s' = g_timestamp s
        /\ (rc = 0 -> exists n, l_timestamp s' = env_clock env n)
        /\ (rc <> 0 -> l_timestamp s' = l_timestamp s)) s.
Proof.
  unfold wp, sync_timestamp_locked, set_sysfs_attr, sys_open, sys_write,
    getTimestamp, ask, bind, modify, get, ret. simpl.
  destruct (env_open env _ _); simpl.
  - destruct (env_write env _ <? 0); simpl.
    + refine (conj eq_refl (conj _ _)); intros H; [discriminate H | reflexivity].
    + refine (conj eq_refl (conj _ _)); intros H; [eexists; reflexivity | contradiction].
  - refine (conj eq_refl (conj _ _)); intros H; [discriminate H | reflexivity].
Qed.

(** C8.  A SyncAck record whose first primary value is not the magic byte
    0x66 leaves both the candidate [l_timestamp] and the synchronized
    [g_timestamp] as they were.  With the magic byte, the candidate recorded
    by the last sync request becomes the synchronized time and the candidate
    itself stays; a further acknowledgement without a new request changes
    neither, so the transition happens once per request.  The request itself
    ([sync_timestamp_locked]) never changes the synchronized time and
    records a new candidate only when it was written to the firmware. *)
Theorem sync_ack_handshake (s : CwMcuSensor) (ev : cw_event) (e : sensors_event_t) :
  ev_id ev = tag hdr CW_SYNC_ACK ->
  mPendingEvents s !! Z.to_nat (ev_id ev) = Some e ->
  exists s',
    processEvent hdr env ev s = Done (ev_id ev) s'
    /\ l_timestamp s' = l_timestamp s
    /\ (ev_data ev 0 <> SYNC_ACK_MAGIC -> g_timestamp s' = g_timestamp s)
    /\ (ev_data ev 0 = SYNC_ACK_MAGIC -> g_timestamp s' = l_timestamp s)
    /\ (forall ev2,
          ev_id ev2 = tag hdr CW_SYNC_ACK ->
          ev_data ev 0 = SYNC_ACK_MAGIC ->
          exists s'',
            processEvent hdr env ev2 s' = Done (ev_id ev2) s''
            /\ l_timestamp s'' = l_timestamp s'
            /\ g_timestamp s'' = g_timestamp s')
    /\ (forall s0 rc s1,
          sync_timestamp_locked hdr env s0 = Done rc s1 ->
          g_timestamp s1 = g_timestamp s0
          /\ (rc = 0 -> exists n, l_timestamp s1 = env_clock env n)
          /\ (rc <> 0 -> l_timestamp s1 = l_timestamp s0)).
Proof.
  intros Htag He.
  pose proof (processEvent_sync_ack s ev e Htag He) as Hrun. simpl in Hrun.
  eexists. split; [exact Hrun|].
  refine (conj _ (conj _ (conj _ (conj _ _)))).
  - now destruct (ev_data ev 0 =? SYNC_ACK_MAGIC).
  - intros Hne. apply Z.eqb_neq in Hne. now rewrite Hne.
  - intros Heq. apply Z.eqb_eq in Heq. now rewrite Heq.
  - intros ev2 Htag2 Heq. apply Z.eqb_eq in Heq. rewrite Heq.
    assert (He2 : exists e2,
              mPendingEvents
                (set_g_timestamp (l_timestamp s)
                   (set_mPendingEvents
                      (<[Z.to_nat (ev_id ev) := set_timestamp (ev_time ev) e]>
                         (mPendingEvents s)) s))
                !! Z.to_nat (ev_id ev2) = Some e2).
    { simpl. apply lookup_lt_is_Some_2. rewrite length_insert.
      rewrite Htag2, <- Htag. now apply lookup_lt_Some in He. }
    destruct He2 as [e2 He2].
    pose proof (processEvent_sync_ack _ ev2 e2 Htag2 He2) as Hrun2. simpl in Hrun2.
    eexists. split; [exact Hrun2|].
    now destruct (ev_data ev2 0 =? SYNC_ACK_MAGIC).
  - intros s0 rc s1 Hreq.
    exact (wp_done _ _ _ _ _ (sync_timestamp_locked_spec s0) Hreq).
Qed.

End Sync.

Lemma sync_ack_handshake_witness :
  exists s',
    processEvent Sample.hdr Sample.env (Sample.record 30 102 0 0 0 9)
      (set_l_timestamp 4242 Sample.idle) = Done 30 s'
    /\ g_timestamp s' = 4242.
Proof.
  destruct (sync_ack_handshake Sample.hdr Sample.env
              (set_l_timestamp 4242 Sample.idle)
              (Sample.record 30 102 0 0 0 9) Sample.blank eq_refl eq_refl)
    as (s' & Hrun & _ & _ & Hcommit & _).
  exists s'. split; [exact Hrun | now apply Hcommit].
Defined.

(** ** The budget of the dispatch loop (C9) *)

Section Budget.

Context (hdr : Header) (env : Env).

Lemma emit_frame id :
  stable (both (same mInputReader) grows) (emit hdr env id).
Proof. stable_frame. Qed.

(** A turn writes at most one event. *)
Lemma emit_length id s :
  wp (emit hdr env id) (fun out _ => (length out <= 1)%nat) s.
Proof.
  unfold emit. destruct (id =? tag hdr CW_META_DATA).
  - do 3 wp_step. reflexivity.
  - wp_step. unfold getTimestamp. wp_step.
    eapply wp_bind_with; [apply wp_any | intros _ s1 _].
    eapply wp_bind_with; [apply wp_any | intros on s2 _].
    destruct on; [|apply wp_ret; simpl; lia].
    eapply wp_bind_with; [apply wp_any | intros _ s3 _].
    eapply wp_bind_with; [apply wp_any | intros _ s4 _].
    do 3 wp_step. reflexivity.
Qed.

(** A turn removes exactly the record it decoded from the reader. *)
Lemma dispatch_turn ev s :
  wp (dispatch hdr env ev)
     (fun out s' => mInputReader s' = tail (mInputReader s)
                    /\ (length out <= 1)%nat) s.
Proof.
  unfold dispatch.
  eapply wp_bind_with; [apply (processEvent_frame hdr env ev)|].
  intros id s1 (Hq1 & _). simpl in Hq1.
  eapply wp_bind_with;
    [apply wp_and; [apply (emit_frame id) | apply emit_length]|].
  intros out s2 ((Hq2 & _) & Hlen). simpl in Hq2, Hlen.
  unfold reader_next. do 3 wp_step. simpl.
  unfold same in *. split; [congruence | exact Hlen].
Qed.

Lemma readEvents_loop_spec fuel : forall count s,
  0 <= count ->
  wp (readEvents_loop hdr env fuel count)
     (fun out s' =>
        Z.of_nat (length out) <= count
        /\ (exists consumed, mInputReader s = consumed ++ mInputReader s')
        /\ ((length (mInputReader s) <= fuel)%nat ->
            Z.of_nat (length out) < count -> mInputReader s' = [])) s.
Proof.
  induction fuel as [|fuel IH]; intros count s Hcount; simpl.
  - wp_step. split; [simpl; lia|]. split; [now exists []|].
    intros Hlen _. destruct (mInputReader s); [reflexivity | simpl in Hlen; lia].
  - destruct (count =? 0) eqn:Ec.
    + apply Z.eqb_eq in Ec. wp_step.
      split; [simpl; lia|]. split; [now exists []|]. simpl. lia.
    + apply Z.eqb_neq in Ec.
      unfold reader_readEvent. do 4 wp_step.
      destruct (mInputReader s) as [|event rest] eqn:Eq; simpl.
      * wp_step. cbv beta. rewrite Eq. split; [simpl; lia|]. split; [now exists []|].
        reflexivity.
      * eapply wp_bind_with; [apply dispatch_turn|].
        intros out s1 (Hq1 & Hlen1). rewrite Eq in Hq1. simpl in Hq1.
        eapply wp_bind_with;
          [apply (IH (count - Z.of_nat (length out)) s1); lia|].
        intros more s2 (Hle & (consumed & Hcons) & Hempty). wp_step.
        rewrite length_app, Hq1 in *. split; [lia|]. split.
        -- exists (event :: consumed). rewrite Hcons. reflexivity.
        -- intros Hfuel Hlt. apply Hempty; simpl in Hfuel; lia.
Qed.

(** The turns of the loop on the records of a list, one after the other and
    with no budget: what the specification calls dispatching them. *)
Fixpoint dispatch_all (records : list cw_event) : M (list sensors_event_t) :=
  match records with
  | [] => ret []
  | event :: rest =>
      out <- dispatch hdr env event ;;
      more <- dispatch_all rest ;;
      ret (out ++ more)
  end.

Lemma dispatch_all_app init rest s out0 s0 :
  dispatch_all init s = Done out0 s0 ->
  dispatch_all (init ++ rest) s
  = match dispatch_all rest s0 with
    | Done more s' => Done (out0 ++ more) s'
    | Fault f => Fault f
    end.
Proof.
  revert s out0 s0. induction init as [|ev init IH]; intros s out0 s0 Hrun; simpl in *.
  - unfold ret in Hrun. injection Hrun as <- <-. simpl. now destruct (dispatch_all rest s).
  - unfold bind in *. destruct (dispatch hdr env ev s) as [out1 s1|f]; [|discriminate Hrun].
    destruct (dispatch_all init s1) as [more1 s2|f] eqn:E1; [|discriminate Hrun].
    unfold ret in Hrun. injection Hrun as <- <-.
    rewrite (IH _ _ _ E1). destruct (dispatch_all rest s2) as [more s'|f]; [|reflexivity].
    unfold ret. now rewrite app_assoc.
Qed.

(** The loop is the pass over the shortest prefix of the buffered records
    that writes [count] events, or over all of them when they write fewer:
    the records it takes are dispatched, in order; the others stay in the
    reader; and it stops with the turn that uses up the budget. *)
Lemma readEvents_loop_pass fuel : forall count s out s',
  0 <= count ->
  (length (mInputReader s) <= fuel)%nat ->
  readEvents_loop hdr env fuel count s = Done out s' ->
  exists consumed,
    mInputReader s = consumed ++ mInputReader s'
    /\ dispatch_all consumed s = Done out s'
    /\ Z.of_nat (length out) <= count
    /\ (Z.of_nat (length out) < count -> mInputReader s' = [])
    /\ (0 < count -> Z.of_nat (length out) = count ->
        exists init last out0 s0,
          consumed = init ++ [last]
          /\ dispatch_all init s = Done out0 s0
          /\ Z.of_nat (length out0) < count).
Proof.
  induction fuel as [|fuel IH]; intros count s out s' Hcount Hfuel Hrun; simpl in Hrun.
  - unfold ret in Hrun. injection Hrun as <- <-.
    exists []. destruct (mInputReader s) eqn:Eq; [|simpl in Hfuel; lia].
    simpl. repeat split; try reflexivity; try lia.
  - destruct (count =? 0) eqn:Ec.
    + apply Z.eqb_eq in Ec. unfold ret in Hrun. injection Hrun as <- <-.
      exists []. simpl. repeat split; try reflexivity; lia.
    + apply Z.eqb_neq in Ec.
      unfold reader_readEvent, bind, get, ret in Hrun.
      destruct (mInputReader s) as [|event rest] eqn:Eq; simpl in Hrun.
      * injection Hrun as <- <-. exists []. rewrite Eq. simpl.
        repeat split; try reflexivity; lia.
      * destruct (dispatch hdr env event s) as [out1 s1|f] eqn:E1; [|discriminate Hrun].
        destruct (wp_done _ _ _ _ _ (dispatch_turn event s) E1) as (Hq1 & Hlen1).
        rewrite Eq in Hq1. simpl in Hq1.
        destruct (readEvents_loop hdr env fuel (count - Z.of_nat (length out1)) s1)
          as [more s2|f] eqn:E2; [|discriminate Hrun].
        injection Hrun as <- <-.
        assert (Hcount1 : 0 <= count - Z.of_nat (length out1)) by lia.
        assert (Hfuel1 : (length (mInputReader s1) <= fuel)%nat)
          by (rewrite Hq1; simpl in Hfuel; lia).
        destruct (IH _ _ _ _ Hcount1 Hfuel1 E2)
          as (consumed & Hcons & Hpass & Hle & Hempty & Hlast).
        exists (event :: consumed). rewrite length_app.
        split; [simpl; congruence|].
        split; [simpl; unfold bind, ret; now rewrite E1, Hpass|].
        split; [lia|]. split; [intros Hlt; apply Hempty; lia|].
        intros _ Hfull.
        destruct (Z.eq_dec (count - Z.of_nat (length out1)) 0) as [Hzero|Hmore].
        -- (* the first turn used up the budget *)
           assert (consumed = []) as ->.
           { destruct fuel; simpl in E2; [|rewrite Hzero in E2; simpl in E2];
               unfold ret in E2; injection E2 as <- <-;
               destruct consumed as [|c cs]; [reflexivity | | reflexivity |];
               apply (f_equal (@length _)) in Hcons; rewrite length_app in Hcons;
               simpl in Hcons; lia. }
           exists [], event, [], s. simpl. repeat split; try reflexivity. lia.
        -- destruct (Hlast ltac:(lia) ltac:(lia)) as (init & last & out0 & s0 & -> & Hinit & Hlt0).
           exists (event :: init), last, (out1 ++ out0), s0.
           split; [reflexivity|]. split.
           ++ simpl. unfold bind, ret. now rewrite E1, Hinit.
           ++ rewrite length_app. lia.
Qed.

(** C9.  A call [readEvents(data, N)] with [N >= 1] returns at most [N]:
    either a negative error code, with no event and the reader as it was,
    or the number of events it wrote.  In that case the loop has dispatched
    a prefix of the records buffered after [fill], one turn per record and
    in order, and the reader holds the rest, in order: every record that was
    not dispatched is still queued.  When fewer than [N] events were written
    the reader is empty; when [N] were written, the loop stopped with the
    turn that wrote the last of them: the records before it wrote fewer
    than [N] events, and no record after it was touched. *)
Theorem readEvents_budget (N : Z) (s : CwMcuSensor)
    (n : Z) (out : list sensors_event_t) (s' : CwMcuSensor) :
  1 <= N ->
  readEvents hdr env N s = Done (n, out) s' ->
  n <= N
  /\ (n < 0 /\ out = [] /\ mInputReader s' = mInputReader s
      \/ exists filled s1 fresh consumed,
           (getTimestamp env ;;; reader_fill env) s = Done filled s1
           /\ mInputReader s1 = mInputReader s ++ fresh
           /\ mInputReader s1 = consumed ++ mInputReader s'
           /\ dispatch_all consumed s1 = Done out s'
           /\ n = Z.of_nat (length out)
           /\ (n < N -> mInputReader s' = [])
           /\ (n = N ->
               exists init last out0 s0,
                 consumed = init ++ [last]
                 /\ dispatch_all init s1 = Done out0 s0
                 /\ Z.of_nat (length out0) < N)).
Proof.
  intros HN Hrun. unfold readEvents in Hrun.
  replace (N <? 1) with false in Hrun by (symmetry; apply Z.ltb_ge; lia).
  rewrite <- bind_assoc in Hrun.
  destruct ((getTimestamp env ;;; reader_fill env) s) as [filled s1|f] eqn:Efill;
    [|rewrite (bind_fault _ _ _ _ Efill) in Hrun; discriminate Hrun].
  rewrite (bind_done _ _ _ _ _ Efill) in Hrun.
  assert (Hfill : mInputReader s1 = mInputReader s
                  \/ (0 <= filled /\ exists fresh, mInputReader s1 = mInputReader s ++ fresh)).
  { unfold getTimestamp, reader_fill, ask, bind, get, modify, ret in Efill.
    destruct (env_fill env _) as [err|records]; injection Efill as <- <-; simpl.
    - now left.
    - right. split; [lia | now eexists]. }
  destruct (filled <? 0) eqn:Eneg.
  - apply Z.ltb_lt in Eneg. unfold ret in Hrun. injection Hrun as <- <- <-.
    split; [lia|]. left. split; [exact Eneg|]. split; [reflexivity|].
    destruct Hfill as [H|[H _]]; [exact H | lia].
  - unfold bind at 1 in Hrun. unfold get at 1 in Hrun. cbv beta iota in Hrun.
    destruct (readEvents_loop hdr env (length (mInputReader s1)) N s1)
      as [evs s2|f] eqn:Eloop;
      [|rewrite (bind_fault _ _ _ _ Eloop) in Hrun; discriminate Hrun].
    rewrite (bind_done _ _ _ _ _ Eloop) in Hrun. unfold ret in Hrun.
    injection Hrun as <- <- <-.
    destruct (readEvents_loop_pass _ N s1 evs s2 ltac:(lia) (Nat.le_refl _) Eloop)
      as (consumed & Hcons & Hpass & Hle & Hempty & Hlast).
    split; [exact Hle|]. right.
    assert (Hfresh : exists fresh, mInputReader s1 = mInputReader s ++ fresh).
    { destruct Hfill as [H|[_ H]]; [exists []; now rewrite app_nil_r | exact H]. }
    destruct Hfresh as [fresh Hfresh].
    exists filled, s1, fresh, consumed.
    repeat (split; [assumption || reflexivity|]).
    intros Hfull. apply Hlast; lia.
Qed.

End Budget.

Definition busy : CwMcuSensor :=
  set_mInputReader
    [Sample.record 0 1 2 3 0 5; Sample.record 31 0 0 0 0 6;
     Sample.record 0 4 5 6 0 7; Sample.record 0 7 8 9 0 8]
    (set_mEnabled 1 Sample.idle).

Example readEvents_two_of_four :
  match readEvents Sample.hdr Sample.env 2 busy with
  | Done (n, out) s' =>
      n = 2 /\ map timestamp out = [1002; 0]
      /\ mInputReader s' = [Sample.record 0 4 5 6 0 7; Sample.record 0 7 8 9 0 8]
  | Fault _ => False
  end.
Proof. vm_compute. repeat split. Qed.

Lemma readEvents_budget_witness :
  exists n out s',
    readEvents Sample.hdr Sample.env 2 busy = Done (n, out) s'
    /\ n = 2
    /\ mInputReader s' = [Sample.record 0 4 5 6 0 7; Sample.record 0 7 8 9 0 8].
Proof.
  destruct (readEvents Sample.hdr Sample.env 2 busy) as [[n out] s'|f] eqn:Hrun.
  - exists n, out, s'. split; [reflexivity|].
    destruct (readEvents_budget Sample.hdr Sample.env 2 busy n out s' ltac:(lia) Hrun)
      as (Hle & [(Hneg & _)|(filled & s1 & fresh & consumed & _ & _ & _ & _ & Hn & _)]).
    + vm_compute in Hrun. injection Hrun as <- _ _. lia.
    + vm_compute in Hrun. injection Hrun as <- <- <-. split; reflexivity.
  - vm_compute in Hrun. discriminate Hrun.
Defined.

(** ** Time stamps at dispatch (C10) *)

(** Slot [i] keeps its time stamp. *)
Definition stamped (i : nat) : relation CwMcuSensor :=
  fun s s' =>
    forall e, mPendingEvents s !! i = Some e ->
    exists e', mPendingEvents s' !! i = Some e' /\ timestamp e' = timestamp e.

#[global] Instance stamped_preorder i : PreOrder (stamped i).
Proof.
  split.
  - intros s e He. now exists e.
  - intros s1 s2 s3 H12 H23 e He.
    destruct (H12 e He) as (e2 & He2 & Ht2).
    destruct (H23 e2 He2) as (e3 & He3 & Ht3).
    exists e3. split; [assumption | congruence].
Qed.


Section Stamps.

Context (hdr : Header) (env : Env).










End Stamps.

(** An accelerometer record stamped 5 by the device, and a driver with the
    accelerometer enabled. *)
Definition accel : cw_event := Sample.record 0 100 200 300 0 5.
Definition listening : CwMcuSensor := set_mEnabled 1 Sample.idle.

Example dispatch_accel :
  match dispatch Sample.hdr Sample.env accel listening with
  | Done out s' =>
      ev_time accel = 5
      /\ map timestamp out = [1000]
      /\ (timestamp <$> mPendingEvents s' !! 0%nat) = Some 1000
  | Fault _ => False
  end.
Proof. vm_compute. repeat split. Qed.



(** * The driver as a whole *)

(** ** Kinds and handles, both ways *)

Section Handles.

Context (hdr : Header).

(** The kinds [find_handle] has a case for. *)
Lemma find_handle_tag (k : CW_SENSORS_ID) :
  find_handle hdr (tag hdr k)
  = match k with
    | CW_ACCELERATION => handle hdr ID_A
    | CW_MAGNETIC => handle hdr ID_M
    | CW_GYRO => handle hdr ID_GY
    | CW_PRESSURE => handle hdr ID_PS
    | CW_ORIENTATION => handle hdr ID_O
    | CW_ROTATIONVECTOR => handle hdr ID_RV
    | CW_LINEARACCELERATION => handle hdr ID_LA
    | CW_GRAVITY => handle hdr ID_G
    | CW_MAGNETIC_UNCALIBRATED => handle hdr ID_CW_MAGNETIC_UNCALIBRATED
    | CW_GYROSCOPE_UNCALIBRATED => handle hdr ID_CW_GYROSCOPE_UNCALIBRATED
    | CW_GAME_ROTATION_VECTOR => handle hdr ID_CW_GAME_ROTATION_VECTOR
    | CW_GEOMAGNETIC_ROTATION_VECTOR => handle hdr ID_CW_GEOMAGNETIC_ROTATION_VECTOR
    | CW_LIGHT => handle hdr ID_L
    | CW_STEP_DETECTOR => handle hdr ID_CW_STEP_DETECTOR
    | CW_STEP_COUNTER => handle hdr ID_CW_STEP_COUNTER
    | HTC_WAKE_UP_GESTURE => handle hdr ID_WAKE_UP_GESTURE
    | _ => 255
    end.
Proof. unfold find_handle. rewrite select_tag. now destruct k. Qed.

(** X1.  [find_handle] undoes [find_sensor] on every handle but the one of
    SignificantMotion: [find_handle] has no case for [CW_SIGNIFICANT_MOTION],
    so that kind (like every tag that is no sensor kind and every value that
    is no tag at all) is answered with 0xFF.  The other way round,
    [find_sensor] undoes [find_handle] on each of the sixteen kinds
    [find_handle] knows. *)
Theorem find_handle_find_sensor :
  (forall l, l <> ID_CW_SIGNIFICANT_MOTION ->
     find_handle hdr (find_sensor hdr (handle hdr l)) = handle hdr l)
  /\ find_handle hdr (find_sensor hdr (handle hdr ID_CW_SIGNIFICANT_MOTION)) = 255
  /\ (forall k, In k find_handle_labels ->
        find_sensor hdr (find_handle hdr (tag hdr k)) = tag hdr k)
  /\ (forall k, ~ In k find_handle_labels -> find_handle hdr (tag hdr k) = 255)
  /\ (forall id, (forall k, tag hdr k <> id) -> find_handle hdr id = 255).
Proof.
  refine (conj _ (conj _ (conj _ (conj _ _)))).
  - intros l Hl. rewrite find_sensor_handle, find_handle_tag.
    destruct l; try reflexivity. now contradiction Hl.
  - now rewrite find_sensor_handle, find_handle_tag.
  - intros k Hin. rewrite find_handle_tag.
    destruct k; rewrite ?find_sensor_handle; try reflexivity;
      exfalso; simpl in Hin; intuition discriminate.
  - intros k Hout. rewrite find_handle_tag.
    destruct k; try reflexivity; exfalso; apply Hout; simpl; tauto.
  - intros id Hno. unfold find_handle.
    destruct (select (tag hdr) find_handle_labels id) as [k|] eqn:E; [|reflexivity].
    apply select_Some in E as [E _]. now apply Hno in E.
Qed.

(** What [find_sensor] answers: [-1], or the tag of the kind of a handle. *)
Lemma find_sensor_cases (h : Z) :
  find_sensor hdr h = -1
  \/ exists l, h = handle hdr l /\ find_sensor hdr h = tag hdr (kind_of_handle l).
Proof.
  unfold find_sensor.
  destruct (select (handle hdr) find_sensor_labels h) as [l|] eqn:E; [|now left].
  right. apply select_Some in E as [E _]. exists l. split; [now symmetry | reflexivity].
Qed.

(** X2.  [find_sensor] answers [-1] exactly to the values that are no
    handle; for a handle it answers the tag of that handle's kind, which is
    never one of the protocol-internal tags [CW_META_DATA], [CW_SYNC_ACK]
    or [TIME_DIFF_EXHAUSTED]. *)
Theorem find_sensor_image (h : Z) :
  (find_sensor hdr h = -1 /\ forall l, handle hdr l <> h)
  \/ (exists l, h = handle hdr l
        /\ find_sensor hdr h = tag hdr (kind_of_handle l)
        /\ find_sensor hdr h <> tag hdr CW_META_DATA
        /\ find_sensor hdr h <> tag hdr CW_SYNC_ACK
        /\ find_sensor hdr h <> tag hdr TIME_DIFF_EXHAUSTED).
Proof.
  unfold find_sensor.
  destruct (select (handle hdr) find_sensor_labels h) as [l|] eqn:E.
  - right. apply select_Some in E as [E _]. exists l.
    split; [now symmetry|]. split; [reflexivity|].
    repeat split; intros H; apply (tag_inj hdr) in H; now destruct l.
  - left. split; [reflexivity|]. intros l Hl. subst h.
    rewrite select_handle in E. now destruct l.
Qed.

End Handles.

(** ** Runs that stay within defined behaviour *)

(** [twp m Q s]: the run of [m] from [s] returns, and its result and final
    state satisfy [Q]. *)
Definition twp {A : Type} (m : M A) (Q : A -> CwMcuSensor -> Prop) (s : CwMcuSensor) : Prop :=
  match m s with
  | Done a s' => Q a s'
  | Fault _ => False
  end.

Section TotalRules.

Lemma twp_done {A} (m : M A) Q s :
  twp m Q s <-> exists a s', m s = Done a s' /\ Q a s'.
Proof.
  unfold twp. split.
  - destruct (m s) as [a s'|f]; [|tauto]. intros H. now exists a, s'.
  - intros (a & s' & -> & H). exact H.
Qed.

Lemma twp_wp {A} (m : M A) Q s : twp m Q s -> wp m Q s.
Proof. unfold twp, wp. destruct (m s); tauto. Qed.

Lemma twp_conseq {A} (m : M A) (Q Q' : A -> CwMcuSensor -> Prop) s :
  twp m Q s -> (forall a s', Q a s' -> Q' a s') -> twp m Q' s.
Proof. unfold twp. destruct (m s); auto. Qed.

(** A partial-correctness fact holds of a run that is known to return. *)
Lemma twp_with {A} (m : M A) (Q Q' : A -> CwMcuSensor -> Prop) s :
  twp m Q s -> wp m Q' s -> twp m (fun a s' => Q a s' /\ Q' a s') s.
Proof. unfold twp, wp. destruct (m s); auto. Qed.

Lemma twp_ret {A} (a : A) Q s : Q a s -> twp (ret a) Q s.
Proof. exact id. Qed.

Lemma twp_bind {A B} (m : M A) (k : A -> M B) Q s :
  twp m (fun a s' => twp (k a) Q s') s -> twp (bind m k) Q s.
Proof. unfold twp, bind. destruct (m s); auto. Qed.

Lemma twp_bind_with {A B} (m : M A) (k : A -> M B) P Q s :
  twp m P s -> (forall a s', P a s' -> twp (k a) Q s') -> twp (bind m k) Q s.
Proof. intros H HK. apply twp_bind. eapply twp_conseq; eauto. Qed.

Lemma twp_get Q s : Q s s -> twp get Q s.
Proof. exact id. Qed.

Lemma twp_modify f Q s : Q tt (f s) -> twp (modify f) Q s.
Proof. exact id. Qed.

Lemma twp_errno env Q s : Q (env_errno env (length (trace s))) s -> twp (errno env) Q s.
Proof. exact id. Qed.

Lemma twp_ask {A} (c : io_call) (answer : nat -> A) Q s :
  Q (answer (length (trace s))) (set_trace (trace s ++ [c]) s) ->
  twp (ask c answer) Q s.
Proof. exact id. Qed.

Lemma twp_read_slot i e Q s :
  0 <= i -> mPendingEvents s !! Z.to_nat i = Some e -> Q e s ->
  twp (read_slot i) Q s.
Proof. intros Hi He H. unfold twp. now rewrite (read_slot_done i s e Hi He). Qed.

Lemma twp_update_slot i f e Q s :
  0 <= i -> mPendingEvents s !! Z.to_nat i = Some e ->
  Q tt (set_mPendingEvents (<[Z.to_nat i := f e]> (mPendingEvents s)) s) ->
  twp (update_slot i f) Q s.
Proof. intros Hi He H. unfold twp. now rewrite (update_slot_done i f s e Hi He). Qed.

Lemma twp_shl1 k Q s :
  0 <= k < 32 -> Q (Z.shiftl 1 k) s -> twp (shl1 k) Q s.
Proof.
  intros Hk H. unfold twp, shl1.
  replace (0 <=? k) with true by (symmetry; apply Z.leb_le; lia).
  replace (k <? 32) with true by (symmetry; apply Z.ltb_lt; lia).
  exact H.
Qed.

End TotalRules.

Arguments twp : simpl never.

(** [keeps I m]: from a state that satisfies [I], the run of [m] returns
    and ends in a state that satisfies [I]. *)
Definition keeps {A : Type} (I : CwMcuSensor -> Prop) (m : M A) : Prop :=
  forall s, I s -> twp m (fun _ s' => I s') s.

(** The table of pending samples has [n] slots. *)
Definition sized (n : nat) (s : CwMcuSensor) : Prop :=
  length (mPendingEvents s) = n.

(** The header agrees with a table of [n] slots and with 32-bit masks: the
    tag of every sensor kind is a bit position and the index of a slot. *)
Definition fits (hdr : Header) (n : nat) : Prop :=
  forall l, 0 <= tag hdr (kind_of_handle l) < 32
            /\ tag hdr (kind_of_handle l) < Z.of_nat n.

Section KeepsRules.

Context (env : Env) (I : CwMcuSensor -> Prop).

Lemma keeps_ret {A} (a : A) : keeps I (ret a).
Proof. intros s Hs. now apply twp_ret. Qed.

Lemma keeps_bind {A B} (m : M A) (k : A -> M B) :
  keeps I m -> (forall a, keeps I (k a)) -> keeps I (bind m k).
Proof.
  intros Hm Hk s Hs. apply twp_bind. eapply twp_conseq; [now apply Hm|].
  intros a s1 H1. now apply Hk.
Qed.

Lemma keeps_get : keeps I get.
Proof. intros s Hs. now apply twp_get. Qed.

Lemma keeps_errno : keeps I (errno env).
Proof. intros s Hs. now apply twp_errno. Qed.

Lemma keeps_modify f : (forall s, I s -> I (f s)) -> keeps I (modify f).
Proof. intros H s Hs. apply twp_modify. now apply H. Qed.

Lemma keeps_ask {A} (c : io_call) (answer : nat -> A) :
  (forall s, I s -> I (set_trace (trace s ++ [c]) s)) -> keeps I (ask c answer).
Proof. intros H s Hs. apply twp_ask. now apply H. Qed.

Lemma keeps_shl1 k : 0 <= k < 32 -> keeps I (shl1 k).
Proof. intros Hk s Hs. now apply twp_shl1. Qed.

End KeepsRules.

Section SizedRules.

Context (n : nat).

Lemma keeps_read_slot i : 0 <= i < Z.of_nat n -> keeps (sized n) (read_slot i).
Proof.
  intros Hi s Hs. unfold sized in Hs.
  destruct (lookup_lt_is_Some_2 (mPendingEvents s) (Z.to_nat i)) as [e He]; [lia|].
  apply (twp_read_slot i e); [lia | exact He | exact Hs].
Qed.

Lemma keeps_update_slot i f : 0 <= i < Z.of_nat n -> keeps (sized n) (update_slot i f).
Proof.
  intros Hi s Hs. unfold sized in Hs.
  destruct (lookup_lt_is_Some_2 (mPendingEvents s) (Z.to_nat i)) as [e He]; [lia|].
  apply (twp_update_slot i f e); [lia | exact He |].
  unfold sized. simpl. now rewrite length_insert.
Qed.

End SizedRules.

(** Totality by traversal of the code. *)
Ltac keeps_step :=
  lazymatch goal with
  | |- keeps _ (bind _ _) => apply keeps_bind; [ | intros ?]
  | |- keeps _ (ret _) => apply keeps_ret
  | |- keeps _ get => apply keeps_get
  | |- keeps _ (errno _) => apply keeps_errno
  | |- keeps _ (read_slot _) => apply keeps_read_slot
  | |- keeps _ (update_slot _ _) => apply keeps_update_slot
  | |- keeps _ (shl1 _) => apply keeps_shl1
  | |- keeps _ (modify _) => apply keeps_modify; intros ? ?
  | |- keeps _ (ask _ _) => apply keeps_ask; intros ? ?
  | |- keeps _ (if ?b then _ else _) => destruct b
  | |- keeps _ (match ?x with _ => _ end) => destruct x
  end.

Ltac keeps_sized :=
  autounfold with driver; cbv zeta;
  repeat keeps_step;
  try assumption; try lia.

Section Returns.

Context (hdr : Header) (env : Env) (n : nat).

Lemma sync_timestamp_locked_returns : keeps (sized n) (sync_timestamp_locked hdr env).
Proof. keeps_sized. Qed.

Lemma sysfs_set_input_attr_returns attr value :
  keeps (sized n) (sysfs_set_input_attr env attr value).
Proof. keeps_sized. Qed.

Lemma setDelay_returns h delay_ns : keeps (sized n) (setDelay hdr env h delay_ns).
Proof. keeps_sized. Qed.

Lemma flush_returns h : keeps (sized n) (flush hdr env h).
Proof. keeps_sized. Qed.

Lemma batch_returns h flags period_ns timeout :
  keeps (sized n) (batch hdr env h flags period_ns timeout).
Proof. keeps_sized. Qed.

End Returns.

Section ReturnsDecode.

Context (hdr : Header) (env : Env) (n : nat).

Hypothesis Hfits : fits hdr n.

Lemma fits_handle l : 0 <= tag hdr (kind_of_handle l) < 32.
Proof. apply Hfits. Qed.

Lemma fits_index l : 0 <= tag hdr (kind_of_handle l) < Z.of_nat n.
Proof. destruct (Hfits l). lia. Qed.

Lemma setEnable_returns h en :
  numSensors hdr <= 4294967295 ->
  keeps (sized n) (setEnable hdr env h en).
Proof.
  intros Hnum. unfold setEnable.
  keeps_step; [keeps_sized|]. keeps_step; [keeps_sized|].
  destruct (Int.uint32 (find_sensor hdr h) >=? numSensors hdr) eqn:Ewhat;
    [keeps_sized|].
  assert (Hwhat : 0 <= find_sensor hdr h < 32).
  { unfold find_sensor in *.
    destruct (select (handle hdr) find_sensor_labels h) as [l|].
    - apply fits_handle.
    - rewrite Int.uint32_minus_one in Ewhat.
      rewrite Z.geb_leb in Ewhat. apply Z.leb_gt in Ewhat. lia. }
  keeps_sized.
Qed.

Lemma calculate_rv_4th_element_returns id :
  0 <= id < Z.of_nat n ->
  keeps (sized n) (calculate_rv_4th_element hdr id).
Proof. intros Hid. keeps_sized. Qed.

Lemma decode_payload_returns ev :
  0 <= ev_id ev < Z.of_nat n ->
  keeps (sized n) (decode_payload hdr env ev).
Proof.
  intros Hid. unfold decode_payload.
  destruct (select (tag hdr) processEvent_labels (ev_id ev)) as [k|] eqn:E;
    [|apply keeps_ret].
  apply select_Some in E as [E _].
  pose proof (fits_handle ID_CW_STEP_COUNTER) as Hsc.
  pose proof (fits_index ID_CW_STEP_COUNTER) as Hsc'.
  pose proof (fits_index ID_CW_STEP_DETECTOR) as Hsd'.
  pose proof (fits_index ID_WAKE_UP_GESTURE) as Hwg'.
  simpl in Hsc, Hsc', Hsd', Hwg'.
  assert (Hbit : (exists l, k = kind_of_handle l) -> 0 <= ev_id ev < 32).
  { intros [l ->]. rewrite <- E. apply fits_handle. }
  destruct k;
    try (specialize (Hbit ltac:(first
           [ now exists ID_A | now exists ID_M | now exists ID_GY | now exists ID_L
           | now exists ID_PS | now exists ID_O | now exists ID_RV | now exists ID_LA
           | now exists ID_G | now exists ID_CW_MAGNETIC_UNCALIBRATED
           | now exists ID_CW_GYROSCOPE_UNCALIBRATED
           | now exists ID_CW_GAME_ROTATION_VECTOR
           | now exists ID_CW_GEOMAGNETIC_ROTATION_VECTOR
           | now exists ID_CW_SIGNIFICANT_MOTION | now exists ID_CW_STEP_DETECTOR
           | now exists ID_CW_STEP_COUNTER | now exists ID_WAKE_UP_GESTURE ])));
    keeps_sized.
Qed.

Lemma processEvent_returns ev :
  0 <= ev_id ev < Z.of_nat n ->
  keeps (sized n) (processEvent hdr env ev).
Proof.
  intros Hid. unfold processEvent.
  keeps_step; [now apply keeps_update_slot|].
  keeps_step; [now apply decode_payload_returns|].
  apply keeps_ret.
Qed.

End ReturnsDecode.

Ltac twp_step :=
  lazymatch goal with
  | |- twp (bind _ _) _ _ => apply twp_bind
  | |- twp (ret _) _ _ => apply twp_ret
  | |- twp get _ _ => apply twp_get
  | |- twp (modify _) _ _ => apply twp_modify
  | |- twp (errno _) _ _ => apply twp_errno
  | |- twp (ask _ _) _ _ => apply twp_ask
  end; cbv beta.

(** ** Where the driver stays within defined behaviour *)

(** A record the dispatch loop can take in a table of [n] slots: its tag
    byte indexes the table and, unless it is the meta-data tag, is a valid
    shift count. *)
Definition takes (hdr : Header) (n : nat) (ev : cw_event) : Prop :=
  ev_id ev < Z.of_nat n /\ (ev_id ev = tag hdr CW_META_DATA \/ ev_id ev < 32).

(** The table has [n] slots and every buffered record can be taken. *)
Definition sound (hdr : Header) (n : nat) (s : CwMcuSensor) : Prop :=
  sized n s /\ Forall (takes hdr n) (mInputReader s).

Section Safety.

Context (hdr : Header) (env : Env) (n : nat).

Hypothesis Hfits : fits hdr n.
Hypothesis Hnum : numSensors hdr <= 4294967295.

Lemma emit_returns id :
  0 <= id < Z.of_nat n ->
  id = tag hdr CW_META_DATA \/ id < 32 ->
  keeps (sized n) (emit hdr env id).
Proof.
  intros Hid Hbit. unfold emit.
  destruct (id =? tag hdr CW_META_DATA) eqn:E; [keeps_sized|].
  apply Z.eqb_neq in E. assert (Hlt : id < 32) by tauto.
  unfold getTimestamp, enabled_bit.
  repeat (keeps_step; try assumption; try lia).
  - now apply setEnable_returns.
  - now apply calculate_rv_4th_element_returns.
Qed.

(** A change of the reader alone leaves the table as it is. *)
Lemma sized_reader q s : sized n s -> sized n (set_mInputReader q s).
Proof. exact id. Qed.

Lemma dispatch_returns ev s :
  takes hdr n ev -> sized n s ->
  twp (dispatch hdr env ev)
      (fun _ s' => sized n s' /\ mInputReader s' = tail (mInputReader s)) s.
Proof.
  intros [Hlt Hbit] Hs. pose proof (ev_id_range ev) as [Hid _].
  assert (Hret : twp (dispatch hdr env ev) (fun _ s' => sized n s') s).
  { unfold dispatch. apply twp_bind.
    eapply twp_conseq.
    { apply twp_with; [apply (processEvent_returns hdr env n Hfits ev); [lia|exact Hs]
                      | apply processEvent_id]. }
    intros id s1 [Hs1 ->]. cbv beta. apply twp_bind.
    eapply twp_conseq; [apply emit_returns; [lia | exact Hbit | exact Hs1]|].
    intros out s2 Hs2. cbv beta. unfold reader_next.
    apply twp_bind, twp_modify, twp_ret. exact Hs2. }
  eapply twp_conseq; [exact (twp_with _ _ _ _ Hret (dispatch_turn hdr env ev s))|].
  intros out s' [Hs' [Hq _]]. now split.
Qed.

Lemma readEvents_loop_returns fuel : forall count s,
  sound hdr n s ->
  twp (readEvents_loop hdr env fuel count) (fun _ s' => sound hdr n s') s.
Proof.
  induction fuel as [|fuel IH]; intros count s [Hs Hq]; simpl.
  - twp_step. now split.
  - destruct (count =? 0); [twp_step; now split|].
    unfold reader_readEvent. do 4 twp_step.
    destruct (mInputReader s) as [|event rest] eqn:Eq; simpl.
    + twp_step. split; [exact Hs|]. now rewrite Eq.
    + apply Forall_cons in Hq as [Hev Hrest].
      twp_step.
      eapply twp_conseq; [now apply dispatch_returns|].
      intros out s1 [Hs1 Hq1]. cbv beta. rewrite Eq in Hq1. simpl in Hq1.
      twp_step.
      eapply twp_conseq; [apply IH; split; [exact Hs1 | now rewrite Hq1]|].
      intros more s2 H2. cbv beta. now twp_step.
Qed.

Hypothesis Hfill :
  forall k records, env_fill env k = inr records -> Forall (takes hdr n) records.

Lemma readEvents_returns count s :
  sound hdr n s ->
  twp (readEvents hdr env count) (fun _ s' => sound hdr n s') s.
Proof.
  intros [Hs Hq]. unfold readEvents, getTimestamp.
  do 2 twp_step. simpl.
  destruct (count <? 1); [twp_step; now split|].
  unfold reader_fill. do 3 twp_step. simpl.
  destruct (env_fill env _) as [err|records] eqn:Ef.
  - twp_step. destruct (err <? 0); [twp_step; now split|].
    do 3 twp_step.
    eapply twp_conseq; [apply readEvents_loop_returns; now split|].
    intros out s2 H2. now twp_step.
  - apply Hfill in Ef.
    do 5 twp_step. simpl.
    assert (Hsound : sound hdr n
              (set_mInputReader
                 (mInputReader s
                  ++ take (Z.to_nat IIO_MAX_BUFF_SIZE - length (mInputReader s)) records)
                 (set_trace (trace s ++ [IoClock] ++ [IoFill]) s))).
    { split; [exact Hs|]. simpl.
      apply Forall_app. split; [exact Hq | now apply Forall_take]. }
    rewrite <- app_assoc.
    match goal with |- twp (if ?b then _ else _) _ _ => destruct b end;
      [twp_step; exact Hsound|].
    do 3 twp_step.
    eapply twp_conseq; [apply readEvents_loop_returns; exact Hsound|].
    intros out s2 H2. now twp_step.
Qed.

(** Every call returns and keeps the driver sound. *)
Lemma perform_returns c : keeps (sound hdr n) (perform hdr env c).
Proof.
  assert (Hctl : forall (m : M Z),
            keeps (sized n) m -> stable (same mInputReader) m ->
            keeps (sound hdr n) (rc <- m ;; ret (rc, @nil sensors_event_t))).
  { intros m Hm Hq s [Hs Hr]. apply twp_bind.
    eapply twp_conseq; [apply twp_with; [now apply Hm | apply Hq]|].
    intros rc s' [Hs' Hq']. apply twp_ret. split; [exact Hs'|].
    unfold same in Hq'. now rewrite Hq'. }
  destruct c; simpl.
  - apply Hctl; [now apply setEnable_returns | stable_frame].
  - apply Hctl; [apply setDelay_returns | stable_frame].
  - apply Hctl; [apply batch_returns | stable_frame].
  - apply Hctl; [apply flush_returns | stable_frame].
  - apply Hctl; [apply sync_timestamp_locked_returns | stable_frame].
  - intros s Hs. unfold getEnable. now do 3 twp_step.
  - intros s Hs. unfold hasPendingEvents. now do 5 twp_step.
  - intros s Hs. now apply readEvents_returns.
Qed.

Lemma run_returns cs : keeps (sound hdr n) (run hdr env cs).
Proof.
  induction cs as [|c cs IH]; simpl.
  - apply keeps_ret.
  - apply keeps_bind; [apply perform_returns|]. intros r.
    apply keeps_bind; [exact IH|]. intros rs. apply keeps_ret.
Qed.

End Safety.

(** ** What no sequence of calls changes *)

Section RunFrames.

Context (hdr : Header) (env : Env) (R : relation CwMcuSensor) `{!PreOrder R}.

Lemma stable_readEvents_loop :
  (forall ev, stable R (dispatch hdr env ev)) ->
  forall fuel count, stable R (readEvents_loop hdr env fuel count).
Proof.
  intros Hturn. induction fuel as [|fuel IH]; intros count; simpl.
  - now apply stable_ret.
  - destruct (count =? 0); [now apply stable_ret|].
    apply stable_bind; [assumption | unfold reader_readEvent; stable_frame |].
    intros [event|]; [|now apply stable_ret].
    apply stable_bind; [assumption | apply Hturn |]. intros out.
    apply stable_bind; [assumption | apply IH |]. intros rest.
    now apply stable_ret.
Qed.

Lemma stable_readEvents :
  stable R (getTimestamp env) ->
  stable R (reader_fill env) ->
  (forall ev, stable R (dispatch hdr env ev)) ->
  forall count, stable R (readEvents hdr env count).
Proof.
  intros Hclock Hfill Hturn count. unfold readEvents.
  apply stable_bind; [assumption | exact Hclock |]. intros _.
  destruct (count <? 1); [now apply stable_ret|].
  apply stable_bind; [assumption | exact Hfill |]. intros k.
  destruct (k <? 0); [now apply stable_ret|].
  apply stable_bind; [assumption | now apply stable_get |]. intros s0.
  apply stable_bind; [assumption | now apply stable_readEvents_loop |]. intros out.
  now apply stable_ret.
Qed.

Lemma stable_perform :
  (forall h en, stable R (setEnable hdr env h en)) ->
  (forall h d, stable R (setDelay hdr env h d)) ->
  (forall h f p t, stable R (batch hdr env h f p t)) ->
  (forall h, stable R (flush hdr env h)) ->
  stable R (sync_timestamp hdr env) ->
  (forall count, stable R (readEvents hdr env count)) ->
  forall c, stable R (perform hdr env c).
Proof.
  intros Hen Hdelay Hbatch Hflush Hsync Hread c.
  destruct c; simpl; try apply Hread;
    (apply stable_bind; [assumption | | intros ?; now apply stable_ret]);
    first [ apply Hen | apply Hdelay | apply Hbatch | apply Hflush | apply Hsync
          | unfold getEnable; now apply stable_ret
          | unfold hasPendingEvents; apply stable_bind;
            [assumption | now apply stable_get | intros ?; now apply stable_ret] ].
Qed.

Lemma stable_run :
  (forall c, stable R (perform hdr env c)) -> forall cs, stable R (run hdr env cs).
Proof.
  intros Hcall. induction cs as [|c cs IH]; simpl.
  - now apply stable_ret.
  - apply stable_bind; [assumption | apply Hcall |]. intros r.
    apply stable_bind; [assumption | exact IH |]. intros rs.
    now apply stable_ret.
Qed.

End RunFrames.

(** The code of every call, laid open down to its assignments; [finish]
    settles what an assignment does to the relation at hand. *)
Ltac stable_calls finish :=
  intros; autounfold with driver; cbv zeta; repeat stable_step; finish.

Ltac stable_every_call_by calls :=
  apply stable_run; [typeclasses eauto|];
  apply stable_perform; [typeclasses eauto | .. ];
  [ calls | calls | calls | calls | calls
  | apply stable_readEvents; [typeclasses eauto | .. ]; calls ].

Ltac stable_every_call finish := stable_every_call_by ltac:(stable_calls finish).

(** The same, with the time-sync request left as one step. *)
Create HintDb outline.
#[global] Hint Unfold
  getTimestamp property_get sys_open sys_write cw_read_calibrator_file
  cw_save_calibrator_file set_sysfs_attr sysfs_set_input_attr
  sysfs_set_input_attr_by_int mark_pending sync_timestamp
  assign_enabled_bit setEnable batch flush setDelay
  calculate_rv_4th_element store_vector decode_payload processEvent
  reader_fill reader_readEvent reader_next enabled_bit emit dispatch : outline.

Ltac stable_outline finish :=
  intros; autounfold with outline; cbv zeta; repeat stable_step; finish.

(** *** Dirty bits *)

(** No bit of the 32-bit mask [f] that is set gets cleared. *)
Definition bits_kept (f : CwMcuSensor -> Z) : relation CwMcuSensor :=
  fun s s' => forall i, 0 <= i < 32 -> Z.testbit (f s) i = true -> Z.testbit (f s') i = true.

#[global] Instance bits_kept_preorder f : PreOrder (bits_kept f).
Proof.
  split.
  - intros s i _ H. exact H.
  - intros s1 s2 s3 H12 H23 i Hi H. apply H23, H12; assumption.
Qed.

Lemma bits_kept_lor m b i :
  0 <= i < 32 -> Z.testbit m i = true -> Z.testbit (Int.uint32 (Z.lor m b)) i = true.
Proof. intros Hi H. rewrite uint32_testbit, Z.lor_spec, H by assumption. reflexivity. Qed.

(** A mask of 32 bits that is not zero has a bit set. *)
Lemma nonzero_bit m :
  0 <= m < 2 ^ 32 -> m <> 0 -> exists i, 0 <= i < 32 /\ Z.testbit m i = true.
Proof.
  intros Hm Hne.
  destruct (Z.testbit m (Z.log2 m)) eqn:E.
  - exists (Z.log2 m). split; [|exact E].
    split; [apply Z.log2_nonneg|]. apply Z.log2_lt_pow2; lia.
  - rewrite Z.bit_log2 in E by lia. discriminate.
Qed.

Section DirtyMask.

Context (hdr : Header) (env : Env).

Lemma run_keeps_dirty_bits cs : stable (bits_kept mPendingMask) (run hdr env cs).
Proof.
  stable_every_call
    ltac:(unfold bits_kept; simpl; intros;
          first [assumption | now apply bits_kept_lor]).
Qed.

End DirtyMask.

(** *** The identity of the slots *)

(** The fields of a sample that say which sensor it belongs to. *)
Definition identity (e : sensors_event_t) : Z * Z * Z := (version e, sensor e, type e).

(** The table keeps its size, and every slot and the flush event keep
    their identity. *)
Definition identities_kept : relation CwMcuSensor :=
  fun s s' =>
    length (mPendingEvents s') = length (mPendingEvents s)
    /\ (forall i e, mPendingEvents s !! i = Some e ->
          exists e', mPendingEvents s' !! i = Some e' /\ identity e' = identity e)
    /\ identity (mPendingEventsFlush s') = identity (mPendingEventsFlush s).

#[global] Instance identities_kept_preorder : PreOrder identities_kept.
Proof.
  split.
  - intros s. split; [reflexivity|]. split; [|reflexivity].
    intros i e He. now exists e.
  - intros s1 s2 s3 (L12 & T12 & F12) (L23 & T23 & F23).
    split; [congruence|]. split; [|congruence].
    intros i e He. destruct (T12 i e He) as (e2 & He2 & I2).
    destruct (T23 i e2 He2) as (e3 & He3 & I3).
    exists e3. split; [assumption | congruence].
Qed.

Lemma identities_kept_update j f s e :
  (forall x, identity (f x) = identity x) ->
  mPendingEvents s !! j = Some e ->
  identities_kept s (set_mPendingEvents (<[j := f e]> (mPendingEvents s)) s).
Proof.
  intros Hf He. split; [simpl; apply length_insert|]. split; [|reflexivity].
  intros i e0 He0. simpl. destruct (decide (j = i)) as [->|Hne].
  - exists (f e). split.
    + apply list_lookup_insert_eq. now apply lookup_lt_Some in He.
    + rewrite Hf. congruence.
  - exists e0. split; [|reflexivity]. now rewrite list_lookup_insert_ne.
Qed.

Lemma identities_kept_outside s s' :
  mPendingEvents s' = mPendingEvents s ->
  identity (mPendingEventsFlush s') = identity (mPendingEventsFlush s) ->
  identities_kept s s'.
Proof.
  intros Ht Hf. split; [now rewrite Ht|]. split; [|exact Hf].
  intros i e He. exists e. now rewrite Ht.
Qed.

(** *** The enabled mask *)

(** A state predicate as a frame relation: once it holds, it holds. *)
Definition preserved (I : CwMcuSensor -> Prop) : relation CwMcuSensor :=
  fun s s' => I s -> I s'.

#[global] Instance preserved_preorder I : PreOrder (preserved I).
Proof. split; [intros s H; exact H | intros s1 s2 s3 H12 H23 H; auto]. Qed.

(** Only bits of sensor kinds are set in the enabled mask. *)
Definition tidy (hdr : Header) (s : CwMcuSensor) : Prop :=
  forall i, 0 <= i -> Z.testbit (mEnabled s) i = true ->
            exists l, i = tag hdr (kind_of_handle l).

Lemma uint32_testbit_true m i :
  0 <= i -> Z.testbit (Int.uint32 m) i = true -> Z.testbit m i = true.
Proof.
  intros Hi H. unfold Int.uint32, Int.unsigned in H.
  destruct (Z.lt_ge_cases i 32) as [Hlt|Hge].
  - now rewrite Z.mod_pow2_bits_low in H by lia.
  - rewrite Z.mod_pow2_bits_high in H by lia. discriminate.
Qed.

Section Tidy.

Context (hdr : Header).

Lemma tidy_cleared s b :
  tidy hdr s -> tidy hdr (set_mEnabled (Int.uint32 (Z.land (mEnabled s) b)) s).
Proof.
  intros Ht i Hi Hbit. simpl in Hbit. apply uint32_testbit_true in Hbit; [|exact Hi].
  rewrite Z.land_spec in Hbit. apply andb_true_iff in Hbit as [Hbit _]. now apply Ht.
Qed.

Lemma tidy_assigned s h en :
  tidy hdr s ->
  tidy hdr (set_mEnabled
              (Int.uint32 (Z.lor (mEnabled s)
                             (Z.shiftl (if en =? 0 then 0 else 1) (find_sensor hdr h)))) s).
Proof.
  intros Ht i Hi Hbit. simpl in Hbit. apply uint32_testbit_true in Hbit; [|exact Hi].
  rewrite Z.lor_spec in Hbit. apply orb_true_iff in Hbit as [Hbit|Hbit];
    [now apply Ht|].
  destruct (en =? 0); [rewrite Z.shiftl_0_l, Z.bits_0 in Hbit; discriminate|].
  destruct (find_sensor_cases hdr h) as [Hno|(l & _ & Hl)].
  - rewrite Hno in Hbit. change (Z.shiftl 1 (-1)) with 0 in Hbit.
    rewrite Z.bits_0 in Hbit. discriminate.
  - exists l. rewrite <- Hl.
    destruct (Z.lt_ge_cases (find_sensor hdr h) 0) as [Hneg|Hpos].
    + rewrite Z.shiftl_spec in Hbit by exact Hi.
      destruct (Z.eq_dec (i - find_sensor hdr h) 0) as [E|E]; [lia|].
      change 1 with (2 ^ 0) in Hbit. rewrite Z.pow2_bits_false in Hbit by lia.
      discriminate.
    + rewrite shiftl_1_testbit in Hbit by assumption. now apply Z.eqb_eq.
Qed.

End Tidy.

(** *** Host time and device time *)

(** The synchronized time and its candidate after a run: the candidate is
    the one before or a reading of the host clock; the synchronized time is
    the one before, the candidate before, or a reading of the host clock. *)
Definition host_times (env : Env) : relation CwMcuSensor :=
  fun s s' =>
    (l_timestamp s' = l_timestamp s \/ exists k, l_timestamp s' = env_clock env k)
    /\ (g_timestamp s' = g_timestamp s \/ g_timestamp s' = l_timestamp s
        \/ exists k, g_timestamp s' = env_clock env k).

#[global] Instance host_times_preorder env : PreOrder (host_times env).
Proof.
  split.
  - intros s. split; now left.
  - intros s1 s2 s3 [L12 G12] [L23 G23]. split.
    + destruct L23 as [->|L23]; [exact L12 | now right].
    + destruct G23 as [->|[->|G23]].
      * exact G12.
      * destruct L12 as [->|L12]; [right; now left | right; now right].
      * right. now right.
Qed.

Section RunInvariants.

Context (hdr : Header) (env : Env).

Lemma run_keeps_identities cs : stable identities_kept (run hdr env cs).
Proof.
  stable_every_call
    ltac:(first [ apply identities_kept_update; [intros; reflexivity | assumption]
                | apply identities_kept_outside; reflexivity ]).
Qed.

Lemma dispatch_keeps_identities ev : stable identities_kept (dispatch hdr env ev).
Proof.
  stable_calls
    ltac:(first [ apply identities_kept_update; [intros; reflexivity | assumption]
                | apply identities_kept_outside; reflexivity ]).
Qed.

Lemma run_keeps_tidy cs : stable (preserved (tidy hdr)) (run hdr env cs).
Proof.
  stable_every_call
    ltac:(unfold preserved; intros;
          first [ assumption | now apply tidy_cleared | now apply tidy_assigned ]).
Qed.

Lemma sync_timestamp_locked_host_times :
  stable (host_times env) (sync_timestamp_locked hdr env).
Proof.
  intros s. eapply wp_conseq; [apply sync_timestamp_locked_spec|].
  intros rc s' (Hg & Hok & Hko). split; [|now left].
  destruct (Z.eq_dec rc 0) as [E|E]; [right; now apply Hok | left; now apply Hko].
Qed.

Lemma run_host_times cs : stable (host_times env) (run hdr env cs).
Proof.
  stable_every_call_by
    ltac:(stable_outline
            ltac:(first [ apply sync_timestamp_locked_host_times
                        | split; [now left | now left]
                        | split; [now left | right; now left] ])).
Qed.

Lemma run_keeps_trigger cs :
  stable (preserved (fun s => init_trigger_done s = true)) (run hdr env cs).
Proof.
  stable_every_call ltac:(unfold preserved; simpl; intros; first [assumption | reflexivity]).
Qed.

End RunInvariants.

(** An environment whose device delivers [records] at every fill. *)
Definition feeding (records : list cw_event) : Env :=
  {| env_clock := fun k => 1000 + Z.of_nat k;
     env_property := fun _ => 0;
     env_open := fun _ _ => true;
     env_write := fun _ => 1;
     env_errno := fun _ => 0;
     env_fill := fun _ => inr records;
     env_calib_read := fun _ => 0 |}.

Lemma sample_fits : fits Sample.hdr 32.
Proof. intros l. destruct l; simpl; lia. Qed.

(** X3.  When the tag of every sensor kind is a bit position below 32 and
    the index of a slot, [processEvent] stays within defined behaviour
    exactly for the records whose tag byte indexes the table: it then
    returns the tag byte and keeps the size of the table; for any other
    record its first assignment is out of bounds. *)
Theorem processEvent_defined (hdr : Header) (env : Env) (s : CwMcuSensor) (ev : cw_event) :
  fits hdr (length (mPendingEvents s)) ->
  (ev_id ev < Z.of_nat (length (mPendingEvents s)) ->
     exists s', processEvent hdr env ev s = Done (ev_id ev) s'
                /\ length (mPendingEvents s') = length (mPendingEvents s))
  /\ (Z.of_nat (length (mPendingEvents s)) <= ev_id ev ->
        processEvent hdr env ev s = Fault (OutOfBounds (ev_id ev))).
Proof.
  intros Hfits. split.
  - intros Hlt. pose proof (ev_id_range ev) as [Hid _].
    pose proof (twp_with _ _ _ _
                  (processEvent_returns hdr env _ Hfits ev ltac:(lia) s eq_refl)
                  (processEvent_id hdr env ev s)) as H.
    apply twp_done in H as (id & s' & Hrun & Hlen & ->).
    exists s'. split; [exact Hrun | exact Hlen].
  - intros Hge. unfold processEvent. apply bind_fault. now apply update_slot_fault.
Qed.

Lemma processEvent_defined_witness :
  exists s',
    processEvent Sample.hdr Sample.env (Sample.record 21 7 0 0 0 5) Sample.idle = Done 21 s'
    /\ length (mPendingEvents s') = 32%nat.
Proof.
  destruct (processEvent_defined Sample.hdr Sample.env Sample.idle
              (Sample.record 21 7 0 0 0 5) sample_fits) as [Hin _].
  apply Hin. vm_compute. reflexivity.
Defined.

(** X4.  Under the same condition on the header, with [numSensors] a
    32-bit value, a table of [n] slots, and a device that only delivers
    records whose tag byte is below [n] and is the meta-data tag or below
    32: every sequence of calls of the driver returns, and leaves a table of
    [n] slots and a reader that holds only such records. *)
Theorem run_defined (hdr : Header) (env : Env) (n : nat)
    (s : CwMcuSensor) (cs : list call) :
  fits hdr n ->
  numSensors hdr <= 4294967295 ->
  (forall k records, env_fill env k = inr records -> Forall (takes hdr n) records) ->
  sound hdr n s ->
  exists rs s', run hdr env cs s = Done rs s' /\ sound hdr n s'.
Proof.
  intros Hfits Hnum Hfill Hs.
  pose proof (run_returns hdr env n Hfits Hnum Hfill cs s Hs) as H.
  apply twp_done in H as (rs & s' & Hrun & Hs'). now exists rs, s'.
Qed.

Definition burst : list cw_event :=
  [Sample.record 0 1 2 3 0 5; Sample.record 31 0 0 0 0 6;
   Sample.record 27 0 0 0 0 7; Sample.record 20 1 0 0 0 8].

Lemma run_defined_witness :
  exists rs s',
    run Sample.hdr (feeding burst)
      [CallSetEnable 0 1; CallSetEnable 13 1; CallReadEvents 8; CallFlush 77;
       CallBatch 3 0 1000000 0; CallReadEvents 1; CallHasPendingEvents]
      Sample.idle = Done rs s'
    /\ sound Sample.hdr 32 s'.
Proof.
  apply run_defined.
  - exact sample_fits.
  - vm_compute. discriminate.
  - intros k records E. injection E as <-.
    repeat (apply Forall_cons; split; [split; [vm_compute; reflexivity|];
              first [left; reflexivity | right; vm_compute; reflexivity]|]).
    apply Forall_nil_2.
  - split; [reflexivity | apply Forall_nil_2].
Defined.

(** X5.  No call ever clears a bit of the dirty mask [mPendingMask], nor
    resets [init_trigger_done]: over any sequence of calls a set bit stays
    set, so once [hasPendingEvents] has answered [true] (on a mask that is a
    32-bit value) it answers [true] for good. *)
Theorem run_never_clears (hdr : Header) (env : Env) (cs : list call)
    (s : CwMcuSensor) (rs : list (Z * list sensors_event_t)) (s' : CwMcuSensor) :
  run hdr env cs s = Done rs s' ->
  (forall i, 0 <= i < 32 ->
     Z.testbit (mPendingMask s) i = true -> Z.testbit (mPendingMask s') i = true)
  /\ (0 <= mPendingMask s < 2 ^ 32 ->
      hasPendingEvents s = Done true s -> hasPendingEvents s' = Done true s')
  /\ (init_trigger_done s = true -> init_trigger_done s' = true).
Proof.
  intros Hrun.
  pose proof (wp_done _ _ _ _ _ (run_keeps_dirty_bits hdr env cs s) Hrun) as Hbits.
  pose proof (wp_done _ _ _ _ _ (run_keeps_trigger hdr env cs s) Hrun) as Htrig.
  split; [exact Hbits|]. split; [|exact Htrig].
  intros Hrange Hdirty. unfold hasPendingEvents, bind, get, ret in *.
  destruct (mPendingMask s =? 0) eqn:E0; [discriminate Hdirty|].
  apply Z.eqb_neq in E0.
  destruct (nonzero_bit _ Hrange E0) as (i & Hi & Hbit).
  apply Hbits in Hbit; [|exact Hi].
  destruct (mPendingMask s' =? 0) eqn:E1; [|reflexivity].
  apply Z.eqb_eq in E1. rewrite E1, Z.bits_0 in Hbit. discriminate.
Qed.

(** A driver that holds a dirty bit for the gyroscope. *)
Definition dirty : CwMcuSensor := set_mPendingMask 4 Sample.idle.

Lemma run_never_clears_witness :
  exists rs s',
    run Sample.hdr (feeding burst) [CallReadEvents 8; CallSetEnable 2 0; CallReadEvents 8]
      dirty = Done rs s'
    /\ Z.testbit (mPendingMask s') 2 = true.
Proof.
  destruct (run Sample.hdr (feeding burst)
              [CallReadEvents 8; CallSetEnable 2 0; CallReadEvents 8] dirty)
    as [rs s'|f] eqn:Hrun.
  - exists rs, s'. split; [reflexivity|].
    apply (proj1 (run_never_clears _ _ _ _ _ _ Hrun)); [lia | reflexivity].
  - vm_compute in Hrun. discriminate Hrun.
Defined.

(** X6.  No sequence of calls changes the size of the table of pending
    samples, nor the fields [version], [sensor] and [type] of any slot or of
    the flush event: only the payload and the time stamp of a sample ever
    change. *)
Theorem run_keeps_identity (hdr : Header) (env : Env) (cs : list call)
    (s : CwMcuSensor) (rs : list (Z * list sensors_event_t)) (s' : CwMcuSensor) :
  run hdr env cs s = Done rs s' ->
  length (mPendingEvents s') = length (mPendingEvents s)
  /\ (forall i e, mPendingEvents s !! i = Some e ->
        exists e', mPendingEvents s' !! i = Some e'
                   /\ version e' = version e /\ sensor e' = sensor e /\ type e' = type e)
  /\ version (mPendingEventsFlush s') = version (mPendingEventsFlush s)
  /\ sensor (mPendingEventsFlush s') = sensor (mPendingEventsFlush s)
  /\ type (mPendingEventsFlush s') = type (mPendingEventsFlush s).
Proof.
  intros Hrun.
  destruct (wp_done _ _ _ _ _ (run_keeps_identities hdr env cs s) Hrun)
    as (Hlen & Hslots & Hflush).
  split; [exact Hlen|]. split.
  - intros i e He. destruct (Hslots i e He) as (e' & He' & Hid).
    exists e'. unfold identity in Hid. injection Hid as Hv Hs Ht. auto.
  - unfold identity in Hflush. injection Hflush as Hv Hs Ht. auto.
Qed.

Lemma run_keeps_identity_witness :
  exists rs s' e',
    run Sample.hdr (feeding burst) [CallSetEnable 0 1; CallReadEvents 8] Sample.idle
    = Done rs s'
    /\ mPendingEvents s' !! 0%nat = Some e'
    /\ version e' = 104.
Proof.
  destruct (run Sample.hdr (feeding burst) [CallSetEnable 0 1; CallReadEvents 8] Sample.idle)
    as [rs s'|f] eqn:Hrun.
  - destruct (run_keeps_identity _ _ _ _ _ _ Hrun) as (_ & Hslots & _).
    destruct (Hslots 0%nat Sample.blank eq_refl) as (e' & He' & Hv & _).
    exists rs, s', e'. split; [reflexivity|]. split; [exact He' | exact Hv].
  - vm_compute in Hrun. discriminate Hrun.
Defined.

(** *** The events that are written *)

Section Written.

Context (hdr : Header) (env : Env).

(** An event is a copy of the flush event or of a slot of the table. *)
Definition copied (s : CwMcuSensor) (e : sensors_event_t) : Prop :=
  e = mPendingEventsFlush s \/ exists i, mPendingEvents s !! i = Some e.

(** An event has the identity of the flush event or of a slot. *)
Definition known (s : CwMcuSensor) (e : sensors_event_t) : Prop :=
  identity e = identity (mPendingEventsFlush s)
  \/ exists i e0, mPendingEvents s !! i = Some e0 /\ identity e = identity e0.

Lemma copied_known s s' e : identities_kept s s' -> copied s' e -> known s e.
Proof.
  intros (Hlen & Hslots & Hflush) [->|[i He]]; [now left|].
  right. destruct (lookup_lt_is_Some_2 (mPendingEvents s) i) as [e0 He0].
  { rewrite <- Hlen. now apply lookup_lt_Some in He. }
  destruct (Hslots i e0 He0) as (e' & He' & Hid).
  exists i, e0. split; [exact He0|]. congruence.
Qed.

Lemma known_earlier s s' e : identities_kept s s' -> known s' e -> known s e.
Proof.
  intros (Hlen & Hslots & Hflush) [H|(i & e1 & He1 & H)]; [left; congruence|].
  right. destruct (lookup_lt_is_Some_2 (mPendingEvents s) i) as [e0 He0].
  { rewrite <- Hlen. now apply lookup_lt_Some in He1. }
  destruct (Hslots i e0 He0) as (e' & He' & Hid).
  exists i, e0. split; [exact He0|]. congruence.
Qed.

Lemma emit_copies id s :
  wp (emit hdr env id) (fun out s' => forall e, In e out -> copied s' e) s.
Proof.
  unfold emit. destruct (id =? tag hdr CW_META_DATA).
  - do 3 wp_step. intros e [<-|[]]. now left.
  - wp_step. unfold getTimestamp. wp_step.
    eapply wp_bind_with; [apply wp_any | intros _ s1 _].
    eapply wp_bind_with; [apply wp_any | intros on s2 _].
    destruct on; [|apply wp_ret; intros e []].
    eapply wp_bind_with; [apply wp_any | intros _ s3 _].
    eapply wp_bind_with; [apply wp_any | intros _ s4 _].
    do 3 wp_step. intros x [<-|[]]. right. now exists (Z.to_nat id).
Qed.

Lemma dispatch_copies ev s :
  wp (dispatch hdr env ev) (fun out s' => forall e, In e out -> known s e) s.
Proof.
  assert (Hcopy : wp (dispatch hdr env ev)
                    (fun out s' => forall e, In e out -> copied s' e) s).
  { unfold dispatch.
    eapply wp_bind_with; [apply wp_any | intros id s1 _].
    eapply wp_bind_with; [apply emit_copies | intros out s2 Hout].
    unfold reader_next. do 3 wp_step. exact Hout. }
  eapply wp_conseq; [exact (wp_and _ _ _ _ (dispatch_keeps_identities hdr env ev s) Hcopy)|].
  intros out s' [Hkept Hout] e Hin. cbv beta in *.
  eapply copied_known; [exact Hkept | now apply Hout].
Qed.

Lemma readEvents_loop_copies fuel : forall count s,
  wp (readEvents_loop hdr env fuel count)
     (fun out s' => forall e, In e out -> known s e) s.
Proof.
  induction fuel as [|fuel IH]; intros count s; simpl.
  - wp_step. intros e [].
  - destruct (count =? 0); [wp_step; intros e []|].
    unfold reader_readEvent. do 4 wp_step.
    destruct (mInputReader s) as [|event rest]; simpl; [wp_step; intros e []|].
    eapply wp_bind_with;
      [exact (wp_and _ _ _ _ (dispatch_keeps_identities hdr env event s)
                (dispatch_copies event s))|].
    intros out s1 [Hkept Hout]. cbv beta in *.
    eapply wp_bind_with; [apply IH|].
    intros more s2 Hmore. wp_step. intros e Hin.
    apply in_app_or in Hin as [Hin|Hin]; [now apply Hout|].
    eapply known_earlier; [exact Hkept | now apply Hmore].
Qed.

End Written.

(** X7.  Every event [readEvents] writes carries the [version], [sensor]
    and [type] of the flush event or of a slot of the table as they were
    before the call: the events are copies of those, whatever the records
    held. *)
Theorem readEvents_writes_known_sensors (hdr : Header) (env : Env) (count : Z)
    (s : CwMcuSensor) (n : Z) (out : list sensors_event_t) (s' : CwMcuSensor) :
  readEvents hdr env count s = Done (n, out) s' ->
  forall e, In e out ->
    (version e = version (mPendingEventsFlush s)
     /\ sensor e = sensor (mPendingEventsFlush s)
     /\ type e = type (mPendingEventsFlush s))
    \/ (exists i e0, mPendingEvents s !! i = Some e0
          /\ version e = version e0 /\ sensor e = sensor e0 /\ type e = type e0).
Proof.
  intros Hrun.
  enough (Hwp : wp (readEvents hdr env count)
                  (fun r _ => forall e, In e (snd r) -> known s e) s).
  { intros e Hin. pose proof (wp_done _ _ _ _ _ Hwp Hrun e Hin) as [H|(i & e0 & He0 & H)];
      unfold identity in H; injection H as Hv Hs Ht.
    - left. auto.
    - right. exists i, e0. auto. }
  clear Hrun. unfold readEvents, getTimestamp. do 2 wp_step.
  destruct (count <? 1); [wp_step; intros e []|].
  assert (Hfill : stable identities_kept (reader_fill env))
    by (stable_calls ltac:(apply identities_kept_outside; reflexivity)).
  eapply wp_bind_with; [apply Hfill|].
  intros k s1 Hkept. cbv beta in Hkept.
  destruct (k <? 0); [wp_step; intros e []|].
  do 2 wp_step.
  eapply wp_bind_with; [apply readEvents_loop_copies|].
  intros more s2 Hmore. wp_step. simpl. intros e Hin.
  eapply known_earlier; [|eapply known_earlier; [exact Hkept | now apply Hmore]].
  apply identities_kept_outside; reflexivity.
Qed.

Lemma readEvents_writes_known_sensors_witness :
  exists n out s',
    readEvents Sample.hdr (feeding burst) 8 (set_mEnabled 1 Sample.idle) = Done (n, out) s'
    /\ forall e, In e out ->
         (version e = version (mPendingEventsFlush Sample.idle)
          /\ sensor e = sensor (mPendingEventsFlush Sample.idle)
          /\ type e = type (mPendingEventsFlush Sample.idle))
         \/ (exists i e0, mPendingEvents Sample.idle !! i = Some e0
               /\ version e = version e0 /\ sensor e = sensor e0 /\ type e = type e0).
Proof.
  destruct (readEvents Sample.hdr (feeding burst) 8 (set_mEnabled 1 Sample.idle))
    as [[n out] s'|f] eqn:Hrun.
  - exists n, out, s'. split; [reflexivity|].
    exact (readEvents_writes_known_sensors _ _ _ _ _ _ _ Hrun).
  - vm_compute in Hrun. discriminate Hrun.
Defined.

Example readEvents_burst :
  match readEvents Sample.hdr (feeding burst) 8 (set_mEnabled 1 Sample.idle) with
  | Done (n, out) _ => n = 2 /\ length out = 2%nat
  | Fault _ => False
  end.
Proof. vm_compute. repeat split. Qed.

(** *** Which records are written *)

Section Filter.

Context (hdr : Header) (env : Env).

(** The number of events a turn writes for a record of tag [id] when the
    enabled mask is [m]: one for a meta-data record and for a record whose
    bit is set, none otherwise. *)
Definition written (m id : Z) : nat :=
  if id =? tag hdr CW_META_DATA then 1%nat
  else if Z.testbit m id then 1%nat else 0%nat.

Lemma emit_filter id s :
  wp (emit hdr env id)
     (fun out s' =>
        length out = written (mEnabled s) id
        /\ (written (mEnabled s) id = 0%nat -> mEnabled s' = mEnabled s)
        /\ (id = tag hdr CW_META_DATA -> mEnabled s' = mEnabled s)) s.
Proof.
  unfold emit, written. destruct (id =? tag hdr CW_META_DATA) eqn:Emeta.
  - do 3 wp_step. repeat split.
  - apply Z.eqb_neq in Emeta. unfold getTimestamp, enabled_bit.
    do 5 wp_step. simpl. do 5 wp_step. simpl.
    rewrite land_bit_testbit by lia. rewrite negb_involutive.
    destruct (Z.testbit (mEnabled s) id) eqn:Ebit.
    + eapply wp_bind_with; [apply wp_any | intros _ s3 _].
      eapply wp_bind_with; [apply wp_any | intros _ s4 _].
      do 3 wp_step. split; [reflexivity|]. split; [discriminate | contradiction].
    + wp_step. split; [reflexivity|]. split; [reflexivity | contradiction].
Qed.

Lemma dispatch_filter ev s :
  wp (dispatch hdr env ev)
     (fun out s' =>
        length out = written (mEnabled s) (ev_id ev)
        /\ (written (mEnabled s) (ev_id ev) = 0%nat -> mEnabled s' = mEnabled s)
        /\ (ev_id ev = tag hdr CW_META_DATA -> mEnabled s' = mEnabled s)
        /\ mInputReader s' = tail (mInputReader s)) s.
Proof.
  assert (Hfilter : wp (dispatch hdr env ev)
            (fun out s' =>
               length out = written (mEnabled s) (ev_id ev)
               /\ (written (mEnabled s) (ev_id ev) = 0%nat -> mEnabled s' = mEnabled s)
               /\ (ev_id ev = tag hdr CW_META_DATA -> mEnabled s' = mEnabled s)) s).
  { unfold dispatch.
    eapply wp_bind_with;
      [exact (wp_and _ _ _ _ (processEvent_id hdr env ev s)
                (processEvent_frame hdr env ev s))|].
    intros id s1 (-> & _ & Hen1 & _). unfold same in Hen1.
    eapply wp_bind_with; [apply emit_filter|].
    intros out s2 H2. rewrite Hen1 in H2. cbv beta in H2.
    unfold reader_next. do 3 wp_step. exact H2. }
  eapply wp_conseq; [exact (wp_and _ _ _ _ Hfilter (dispatch_turn hdr env ev s))|].
  intros out s' ((Hlen & Hoff & Hmeta) & Hq & _). auto.
Qed.

(** The meta-data records among [records]. *)
Definition meta_records (records : list cw_event) : list cw_event :=
  filter (fun ev => ev_id ev = tag hdr CW_META_DATA) records.

Lemma readEvents_loop_idle fuel : forall count s,
  mEnabled s = 0 ->
  wp (readEvents_loop hdr env fuel count)
     (fun out s' =>
        mEnabled s' = 0
        /\ exists consumed,
             mInputReader s = consumed ++ mInputReader s'
             /\ length out = length (meta_records consumed)) s.
Proof.
  induction fuel as [|fuel IH]; intros count s Hoff; simpl.
  - wp_step. split; [exact Hoff|]. now exists [].
  - destruct (count =? 0); [wp_step; split; [exact Hoff | now exists []]|].
    unfold reader_readEvent. do 4 wp_step.
    destruct (mInputReader s) as [|event rest] eqn:Eq; simpl.
    + wp_step. split; [exact Hoff|]. exists []. now rewrite Eq.
    + eapply wp_bind_with; [apply dispatch_filter|].
      intros out s1 (Hlen & Hidle & Hmeta & Hq). cbv beta in *.
      rewrite Eq in Hq. simpl in Hq.
      assert (Hoff1 : mEnabled s1 = 0).
      { unfold written in Hidle, Hlen. rewrite Hoff in *.
        destruct (ev_id event =? tag hdr CW_META_DATA) eqn:E.
        - apply Z.eqb_eq in E. rewrite Hmeta by exact E. reflexivity.
        - rewrite Z.bits_0 in Hidle. now apply Hidle. }
      eapply wp_bind_with; [now apply IH|].
      intros more s2 (Hoff2 & consumed & Hcons & Hmore). wp_step.
      split; [exact Hoff2|]. exists (event :: consumed). split.
      * rewrite Hq in Hcons. rewrite Hcons. reflexivity.
      * rewrite length_app, Hlen, Hmore. unfold meta_records, written.
        rewrite Hoff, Z.bits_0. rewrite filter_cons.
        destruct (ev_id event =? tag hdr CW_META_DATA) eqn:E.
        -- apply Z.eqb_eq in E. rewrite decide_True by exact E. reflexivity.
        -- apply Z.eqb_neq in E. rewrite decide_False by exact E. reflexivity.
Qed.

End Filter.

Section ReadEventsShape.

Context (hdr : Header) (env : Env).

(** The driver once [readEvents] has read the clock and filled the reader:
    only the reader and the trace have grown. *)
Definition filled (s s1 : CwMcuSensor) : Prop :=
  exists fresh asked,
    s1 = set_mInputReader (mInputReader s ++ fresh) (set_trace (trace s ++ asked) s).

(** [readEvents] is an early exit with no event, or the dispatch loop run
    on the filled reader. *)
Lemma readEvents_shape count s :
  wp (readEvents hdr env count)
     (fun r s' =>
        (fst r < 0 /\ snd r = [] /\ filled s s')
        \/ (exists s1,
              filled s s1
              /\ readEvents_loop hdr env (length (mInputReader s1)) count s1
                 = Done (snd r) s'
              /\ fst r = Z.of_nat (length (snd r)))) s.
Proof.
  unfold wp, readEvents, getTimestamp, reader_fill, ask, bind, get, ret, modify.
  destruct s as [en pm table fl fs lt gt itd fbd path plen dev trig q tr]. simpl.
  destruct (count <? 1).
  { left. split; [reflexivity|]. split; [reflexivity|].
    exists [], [IoClock]. simpl. now rewrite app_nil_r. }
  destruct (env_fill env _) as [err|records]; simpl.
  - destruct (err <? 0) eqn:Ee.
    + left. apply Z.ltb_lt in Ee. split; [exact Ee|]. split; [reflexivity|].
      exists [], [IoClock; IoFill]. simpl. now rewrite app_nil_r, <- app_assoc.
    + match goal with |- context [readEvents_loop _ _ ?f _ ?st] =>
        destruct (readEvents_loop hdr env f count st) as [out s'|f'] eqn:Hloop
      end; [|exact I].
      right. eexists. split; [|split; [exact Hloop | reflexivity]].
      exists [], [IoClock; IoFill]. simpl. now rewrite app_nil_r, <- app_assoc.
  - match goal with |- context [Z.of_nat ?x <? 0] =>
      replace (Z.of_nat x <? 0) with false by (symmetry; apply Z.ltb_ge; lia) end.
    match goal with |- context [readEvents_loop _ _ ?f _ ?st] =>
      destruct (readEvents_loop hdr env f count st) as [out s'|f'] eqn:Hloop
    end; [|exact I].
    right. eexists. split; [|split; [exact Hloop | reflexivity]].
    eexists _, [IoClock; IoFill]. simpl. now rewrite <- app_assoc.
Qed.

End ReadEventsShape.

(** X8.  One turn of the dispatch loop writes exactly one event for a
    meta-data record and for a record whose bit is set in the enabled mask,
    and none for any other record, in which case it also leaves the enabled
    mask as it was. *)
Theorem dispatch_writes (hdr : Header) (env : Env) (ev : cw_event)
    (s : CwMcuSensor) (out : list sensors_event_t) (s' : CwMcuSensor) :
  dispatch hdr env ev s = Done out s' ->
  (ev_id ev = tag hdr CW_META_DATA -> length out = 1%nat)
  /\ (ev_id ev <> tag hdr CW_META_DATA ->
      Z.testbit (mEnabled s) (ev_id ev) = true -> length out = 1%nat)
  /\ (ev_id ev <> tag hdr CW_META_DATA ->
      Z.testbit (mEnabled s) (ev_id ev) = false ->
      out = [] /\ mEnabled s' = mEnabled s).
Proof.
  intros Hrun.
  destruct (wp_done _ _ _ _ _ (dispatch_filter hdr env ev s) Hrun)
    as (Hlen & Hidle & _).
  unfold written in *.
  destruct (ev_id ev =? tag hdr CW_META_DATA) eqn:E.
  - apply Z.eqb_eq in E. repeat split; try (intros; contradiction). intros _. exact Hlen.
  - apply Z.eqb_neq in E. split; [intros; contradiction|]. split.
    + intros _ Hbit. now rewrite Hbit in Hlen.
    + intros _ Hbit. rewrite Hbit in *. split; [|now apply Hidle].
      now destruct out.
Qed.

Lemma dispatch_writes_witness :
  exists out s',
    dispatch Sample.hdr Sample.env (Sample.record 2 1 2 3 0 5) Sample.idle = Done out s'
    /\ out = [].
Proof.
  destruct (dispatch Sample.hdr Sample.env (Sample.record 2 1 2 3 0 5) Sample.idle)
    as [out s'|f] eqn:Hrun.
  - exists out, s'. split; [reflexivity|].
    apply (dispatch_writes _ _ _ _ _ _ Hrun); [vm_compute; discriminate | reflexivity].
  - vm_compute in Hrun. discriminate Hrun.
Defined.

(** X9.  With no sensor enabled, [readEvents] leaves the mask empty and
    either reports an error and writes nothing, or writes one event per
    meta-data record it consumed and nothing else and, unless the budget is
    used up, drains the reader: the records of disabled sensors are decoded
    and dropped. *)
Theorem readEvents_nothing_enabled (hdr : Header) (env : Env) (count : Z)
    (s : CwMcuSensor) (n : Z) (out : list sensors_event_t) (s' : CwMcuSensor) :
  mEnabled s = 0 ->
  readEvents hdr env count s = Done (n, out) s' ->
  mEnabled s' = 0
  /\ (n < 0 /\ out = []
      \/ exists fresh consumed,
           mInputReader s ++ fresh = consumed ++ mInputReader s'
           /\ n = Z.of_nat (length (meta_records hdr consumed))
           /\ n = Z.of_nat (length out)
           /\ (n < count -> mInputReader s' = [])).
Proof.
  intros Hoff Hrun.
  destruct (wp_done _ _ _ _ _ (readEvents_shape hdr env count s) Hrun)
    as [(Hn & Hout & fresh & asked & ->)|(s1 & (fresh & asked & ->) & Hloop & Hn)];
    simpl in *.
  - split; [exact Hoff|]. left. now split.
  - assert (Hoff1 : mEnabled (set_mInputReader (mInputReader s ++ fresh)
                                (set_trace (trace s ++ asked) s)) = 0) by exact Hoff.
    destruct (wp_done _ _ _ _ _ (readEvents_loop_idle hdr env _ count _ Hoff1) Hloop)
      as (Hoff' & consumed & Hcons & Hmeta).
    split; [exact Hoff'|]. right. simpl in Hcons.
    exists fresh, consumed. split; [exact Hcons|]. split; [lia|]. split; [exact Hn|].
    intros Hlt.
    destruct (Z.lt_ge_cases count 0) as [Hneg|Hpos]; [lia|].
    destruct (wp_done _ _ _ _ _
                (readEvents_loop_spec hdr env _ count _ Hpos) Hloop) as (_ & _ & Hempty).
    apply Hempty; [reflexivity | lia].
Qed.

(** A driver with three records buffered and no sensor enabled. *)
Definition backlog : CwMcuSensor :=
  set_mInputReader
    [Sample.record 0 1 2 3 0 5; Sample.record 31 0 0 0 0 6; Sample.record 2 4 5 6 0 7]
    Sample.idle.

Lemma readEvents_nothing_enabled_witness :
  exists n out s',
    readEvents Sample.hdr Sample.env 8 backlog = Done (n, out) s'
    /\ mEnabled s' = 0.
Proof.
  destruct (readEvents Sample.hdr Sample.env 8 backlog) as [[n out] s'|f] eqn:Hrun.
  - exists n, out, s'. split; [reflexivity|].
    exact (proj1 (readEvents_nothing_enabled Sample.hdr Sample.env 8 backlog
                    n out s' eq_refl Hrun)).
  - vm_compute in Hrun. discriminate Hrun.
Defined.

Example readEvents_backlog :
  match readEvents Sample.hdr Sample.env 8 backlog with
  | Done (n, out) s' => n = 1 /\ length out = 1%nat /\ mInputReader s' = []
  | Fault _ => False
  end.
Proof. vm_compute. repeat split. Qed.

(** X10.  The enabled mask only ever holds bits of sensor kinds: when
    that is so before a sequence of calls, it is so afterwards.  A record
    whose tag is neither the tag of a sensor kind nor the meta-data tag (a
    sync acknowledgement, a time-diff-exhausted notice, an unknown tag) then
    never makes the dispatch loop write an event. *)
Theorem run_enables_sensors_only (hdr : Header) (env : Env) (cs : list call)
    (s : CwMcuSensor) (rs : list (Z * list sensors_event_t)) (s' : CwMcuSensor) :
  (forall i, 0 <= i -> Z.testbit (mEnabled s) i = true ->
             exists l, i = tag hdr (kind_of_handle l)) ->
  run hdr env cs s = Done rs s' ->
  (forall i, 0 <= i -> Z.testbit (mEnabled s') i = true ->
             exists l, i = tag hdr (kind_of_handle l))
  /\ (forall ev out s'',
        (forall l, ev_id ev <> tag hdr (kind_of_handle l)) ->
        ev_id ev <> tag hdr CW_META_DATA ->
        dispatch hdr env ev s' = Done out s'' -> out = []).
Proof.
  intros Htidy Hrun.
  pose proof (wp_done _ _ _ _ _ (run_keeps_tidy hdr env cs s) Hrun Htidy) as Htidy'.
  split; [exact Htidy'|].
  intros ev out s'' Hkind Hmeta Hturn.
  destruct (wp_done _ _ _ _ _ (dispatch_filter hdr env ev s') Hturn) as (Hlen & _).
  unfold written in Hlen.
  replace (ev_id ev =? tag hdr CW_META_DATA) with false in Hlen
    by (symmetry; now apply Z.eqb_neq).
  destruct (Z.testbit (mEnabled s') (ev_id ev)) eqn:Ebit; [|now destruct out].
  destruct (Htidy' (ev_id ev)) as [l Hl]; [apply ev_id_range | exact Ebit |].
  now apply Hkind in Hl.
Qed.

Lemma run_enables_sensors_only_witness :
  exists rs s',
    run Sample.hdr Sample.env [CallSetEnable 0 1; CallSetEnable 13 1; CallSetEnable 30 1]
      Sample.idle = Done rs s'
    /\ forall out s'',
         dispatch Sample.hdr Sample.env (Sample.record 30 102 0 0 0 9) s' = Done out s'' ->
         out = [].
Proof.
  destruct (run Sample.hdr Sample.env
              [CallSetEnable 0 1; CallSetEnable 13 1; CallSetEnable 30 1] Sample.idle)
    as [rs s'|f] eqn:Hrun.
  - exists rs, s'. split; [reflexivity|].
    intros out s'' Hturn.
    refine (proj2 (run_enables_sensors_only Sample.hdr Sample.env _ Sample.idle rs s' _ Hrun)
              (Sample.record 30 102 0 0 0 9) out s'' _ _ Hturn).
    + intros i _ Hbit. simpl in Hbit. rewrite Z.bits_0 in Hbit. discriminate Hbit.
    + intros l. destruct l; vm_compute; discriminate.
    + vm_compute. discriminate.
  - vm_compute in Hrun. discriminate Hrun.
Defined.

(** X11.  Device time never becomes the time base.  After any sequence
    of calls the candidate [l_timestamp] is the one before or a reading of
    the host clock, and the synchronized time [g_timestamp] is the one
    before, the candidate before, or a reading of the host clock. *)
Theorem run_times_from_host_clock (hdr : Header) (env : Env) (cs : list call)
    (s : CwMcuSensor) (rs : list (Z * list sensors_event_t)) (s' : CwMcuSensor) :
  run hdr env cs s = Done rs s' ->
  (l_timestamp s' = l_timestamp s \/ exists k, l_timestamp s' = env_clock env k)
  /\ (g_timestamp s' = g_timestamp s \/ g_timestamp s' = l_timestamp s
      \/ exists k, g_timestamp s' = env_clock env k).
Proof. intros Hrun. exact (wp_done _ _ _ _ _ (run_host_times hdr env cs s) Hrun). Qed.

(** A device that asks for a time sync and then acknowledges it. *)
Definition resync : list cw_event :=
  [Sample.record 29 119 0 0 0 777; Sample.record 30 102 0 0 0 778].

Example run_resync :
  match run Sample.hdr (feeding resync) [CallReadEvents 8] Sample.idle with
  | Done rs s' =>
      map fst rs = [0] /\ l_timestamp s' = 1004 /\ g_timestamp s' = 1004
      /\ (timestamp <$> mPendingEvents s' !! 30%nat) = Some 1006
  | Fault _ => False
  end.
Proof. vm_compute. repeat split. Qed.

Lemma run_times_from_host_clock_witness :
  exists rs s',
    run Sample.hdr (feeding resync) [CallReadEvents 8] Sample.idle = Done rs s'
    /\ (g_timestamp s' = 0 \/ exists k, g_timestamp s' = 1000 + Z.of_nat k).
Proof.
  destruct (run Sample.hdr (feeding resync) [CallReadEvents 8] Sample.idle)
    as [rs s'|f] eqn:Hrun.
  - exists rs, s'. split; [reflexivity|].
    destruct (run_times_from_host_clock _ _ _ _ _ _ Hrun) as [_ [H|[H|H]]].
    + left. exact H.
    + left. exact H.
    + right. exact H.
  - vm_compute in Hrun. discriminate Hrun.
Defined.

(** X12.  A call other than [readEvents] writes no event and leaves
    the pending samples, the flush event, the dirty mask, the synchronized
    time, the reader, [mDevPath], [mTriggerName] and the length of the
    control directory as they were. *)
Theorem control_calls_frame (hdr : Header) (env : Env) (c : call)
    (s : CwMcuSensor) (r : Z * list sensors_event_t) (s' : CwMcuSensor) :
  (forall count, c <> CallReadEvents count) ->
  perform hdr env c s = Done r s' ->
  snd r = []
  /\ mPendingEvents s' = mPendingEvents s
  /\ mPendingEventsFlush s' = mPendingEventsFlush s
  /\ mPendingMask s' = mPendingMask s
  /\ g_timestamp s' = g_timestamp s
  /\ mInputReader s' = mInputReader s
  /\ mDevPath s' = mDevPath s
  /\ mTriggerName s' = mTriggerName s
  /\ fixed_sysfs_path_len s' = fixed_sysfs_path_len s.
Proof.
  intros Hctl Hrun.
  enough (Hwp : wp (perform hdr env c)
            (fun r s' =>
               snd r = []
               /\ both (same mPendingEvents) (both (same mPendingEventsFlush)
                   (both (same mPendingMask) (both (same g_timestamp)
                     (both (same mInputReader) (both (same mDevPath)
                       (both (same mTriggerName) (same fixed_sysfs_path_len)))))))
                    s s') s).
  { destruct (wp_done _ _ _ _ _ Hwp Hrun) as (H0 & H1 & H2 & H3 & H4 & H5 & H6 & H7 & H8).
    repeat split; assumption. }
  clear Hrun.
  set (R := both (same mPendingEvents) _).
  assert (Hret : forall (m : M Z), stable R m ->
            wp (rc <- m ;; ret (rc, @nil sensors_event_t))
               (fun r s' => snd r = [] /\ R s s') s).
  { intros m Hm. eapply wp_bind_with; [apply Hm|].
    intros rc s1 H1. wp_step. now split. }
  destruct c; cbn [perform]; try (now contradiction (Hctl count));
    try (apply Hret; unfold R, getEnable; stable_frame).
  unfold hasPendingEvents. do 5 wp_step. split; [reflexivity|].
  unfold R, both, same. repeat split.
Qed.

Lemma control_calls_frame_witness :
  exists r s',
    perform Sample.hdr Sample.env (CallBatch 0 0 20000000 0) dirty = Done r s'
    /\ mPendingMask s' = 4.
Proof.
  destruct (perform Sample.hdr Sample.env (CallBatch 0 0 20000000 0) dirty)
    as [r s'|f] eqn:Hrun.
  - exists r, s'. split; [reflexivity|].
    destruct (control_calls_frame Sample.hdr Sample.env (CallBatch 0 0 20000000 0)
                dirty r s') as (_ & _ & _ & Hmask & _).
    + intros count. discriminate.
    + exact Hrun.
    + exact Hmask.
  - vm_compute in Hrun. discriminate Hrun.
Defined.

(** ** The control operations on a valid handle *)

(** What the two assignments of [setEnable] leave in each of the 32 bits. *)
Lemma assigned_bit m k flags i :
  0 <= k < 32 -> 0 <= i < 32 -> flags = 0 \/ flags = 1 ->
  Z.testbit
    (Int.uint32 (Z.lor (Int.uint32 (Z.land m (Z.lnot (Z.shiftl 1 k)))) (Z.shiftl flags k))) i
  = if i =? k then flags =? 1 else Z.testbit m i.
Proof.
  intros Hk Hi Hflags.
  rewrite uint32_testbit, Z.lor_spec, uint32_testbit by assumption.
  rewrite Z.land_spec, Z.lnot_spec, shiftl_1_testbit by lia.
  destruct (i =? k) eqn:E.
  - apply Z.eqb_eq in E. subst i. rewrite andb_false_r. simpl.
    destruct Hflags as [->| ->].
    + rewrite Z.shiftl_0_l. apply Z.bits_0.
    + rewrite shiftl_1_testbit, Z.eqb_refl by lia. reflexivity.
  - simpl. rewrite andb_true_r.
    destruct Hflags as [->| ->].
    + rewrite Z.shiftl_0_l, Z.bits_0. apply orb_false_r.
    + rewrite shiftl_1_testbit, E by lia. apply orb_false_r.
Qed.

Section ValidHandle.

Context (hdr : Header) (env : Env).

(** The validity check of [setEnable] and [setDelay] lets a handle of a
    sensor pass when the tag of its kind is below [numSensors]. *)
Lemma valid_kind_accepted (l : SensorHandle) (bound : Z) :
  0 <= tag hdr (kind_of_handle l) < 2 ^ 32 ->
  tag hdr (kind_of_handle l) < bound ->
  (Int.uint32 (find_sensor hdr (handle hdr l)) >=? bound) = false.
Proof.
  intros Hk Hlt. rewrite find_sensor_handle, Int.uint32_small by exact Hk.
  rewrite Z.geb_leb. apply Z.leb_gt. exact Hlt.
Qed.

Lemma setEnable_valid (l : SensorHandle) (en : Z) s :
  0 <= tag hdr (kind_of_handle l) < 32 ->
  tag hdr (kind_of_handle l) < numSensors hdr ->
  twp (setEnable hdr env (handle hdr l) en)
      (fun rc s' =>
         rc = 0
         /\ (env_open env (S (length (trace s)))
               (substring 0 (fixed_sysfs_path_len s) (fixed_sysfs_path s) ++ "enable")
             = true ->
             forall i, 0 <= i < 32 ->
               Z.testbit (mEnabled s') i
               = if i =? tag hdr (kind_of_handle l) then negb (en =? 0)
                 else Z.testbit (mEnabled s) i)
         /\ (env_open env (S (length (trace s)))
               (substring 0 (fixed_sysfs_path_len s) (fixed_sysfs_path s) ++ "enable")
             = false -> mEnabled s' = mEnabled s)) s.
Proof.
  intros Hk Hnum. unfold setEnable.
  rewrite valid_kind_accepted by (first [lia | assumption]).
  rewrite find_sensor_handle.
  set (k := tag hdr (kind_of_handle l)) in *.
  assert (Hbit : forall m i, 0 <= i < 32 ->
            Z.testbit
              (Int.uint32 (Z.lor (Int.uint32 (Z.land m (Z.lnot (Z.shiftl 1 k))))
                             (Z.shiftl (if en =? 0 then 0 else 1) k))) i
            = if i =? k then negb (en =? 0) else Z.testbit m i).
  { intros m i Hi. rewrite assigned_bit by (first [assumption | destruct (en =? 0); tauto]).
    now destruct (en =? 0). }
  destruct s as [me pm table fl fs lt gt itd fbd path plen dev trig q tr].
  unfold twp, property_get, set_sysfs_attr, sys_open, sys_write, assign_enabled_bit,
    sysfs_set_input_attr_by_int, sysfs_set_input_attr, sys_open, sys_write,
    cw_read_calibrator_file, cw_save_calibrator_file, shl1, ask, bind, modify, get, ret.
  simpl. rewrite length_app. simpl. rewrite Nat.add_1_r.
  replace (0 <=? k) with true by (symmetry; apply Z.leb_le; lia).
  replace (k <? 32) with true by (symmetry; apply Z.ltb_lt; lia).
  simpl.
  destruct (env_open env (S (length tr)) _) eqn:Eopen; simpl.
  - repeat match goal with
           | |- context [if ?b then _ else _] =>
               lazymatch b with
               | context [if _ then _ else _] => fail
               | _ => destruct b eqn:?; simpl
               end
           end;
      (split; [reflexivity|]; split; [intros _; apply Hbit | discriminate]).
  - repeat match goal with
           | |- context [if ?b then _ else _] =>
               lazymatch b with
               | context [if _ then _ else _] => fail
               | _ => destruct b eqn:?; simpl
               end
           end;
      (split; [reflexivity|]; split; [discriminate | reflexivity]).
Qed.

End ValidHandle.

Section ControlFiles.

Context (hdr : Header) (env : Env).

(** The path of the control file [attr]: the directory part of
    [fixed_sysfs_path] followed by [attr]. *)
Definition control_path (s : CwMcuSensor) (attr : string) : string :=
  (substring 0 (fixed_sysfs_path_len s) (fixed_sysfs_path s) ++ attr)%string.

(** Whether the [open] that is the [k]-th interaction from now succeeds. *)
Definition opens (s : CwMcuSensor) (k : nat) (attr : string) : bool :=
  env_open env (k + length (trace s)) (control_path s attr).

End ControlFiles.

(** X13.  [setEnable] on the handle of a sensor whose tag is below 32
    and below [numSensors] returns 0 whatever the environment answers.  When
    the control file [enable] opens, bit [tag] of the enabled mask becomes
    [en != 0] and the 31 other bits are kept; when it does not open, the
    mask is left as it was (and 0 is returned all the same). *)
Theorem setEnable_assigns_bit (hdr : Header) (env : Env) (l : SensorHandle) (en : Z)
    (s : CwMcuSensor) :
  0 <= tag hdr (kind_of_handle l) < 32 ->
  tag hdr (kind_of_handle l) < numSensors hdr ->
  exists s',
    setEnable hdr env (handle hdr l) en s = Done 0 s'
    /\ (opens env s 1 "enable" = true ->
        forall i, 0 <= i < 32 ->
          Z.testbit (mEnabled s') i
          = if i =? tag hdr (kind_of_handle l) then negb (en =? 0)
            else Z.testbit (mEnabled s) i)
    /\ (opens env s 1 "enable" = false -> mEnabled s' = mEnabled s).
Proof.
  intros Hk Hnum.
  pose proof (setEnable_valid hdr env l en s Hk Hnum) as H.
  apply twp_done in H as (rc & s' & Hrun & -> & Hon & Hoff).
  exists s'. split; [exact Hrun|]. split; assumption.
Qed.

Lemma setEnable_assigns_bit_witness :
  exists s',
    setEnable Sample.hdr Sample.env 2 1 (set_mEnabled 1 Sample.idle) = Done 0 s'
    /\ Z.testbit (mEnabled s') 2 = true
    /\ Z.testbit (mEnabled s') 0 = true
    /\ Z.testbit (mEnabled s') 1 = false.
Proof.
  destruct (setEnable_assigns_bit Sample.hdr Sample.env ID_GY 1 (set_mEnabled 1 Sample.idle))
    as (s' & Hrun & Hon & _).
  - simpl. lia.
  - simpl. lia.
  - exists s'. split; [exact Hrun|].
    specialize (Hon eq_refl).
    split; [|split]; rewrite Hon by lia; reflexivity.
Defined.

(** X14.  [setDelay] on the handle of a sensor whose tag is below
    [numSensors] returns 0 whether or not [delay_ms] can be opened.  It
    changes nothing but the scratch path; when the file opens, the kind and
    the delay in milliseconds, truncated toward zero, are written to it. *)
Theorem setDelay_reports_success (hdr : Header) (env : Env) (l : SensorHandle)
    (delay_ns : Z) (s : CwMcuSensor) :
  0 <= tag hdr (kind_of_handle l) < 2 ^ 32 ->
  tag hdr (kind_of_handle l) < numSensors hdr ->
  let path := control_path s "delay_ms" in
  setDelay hdr env (handle hdr l) delay_ns s
  = Done 0
      (set_trace
         (trace s ++ IoOpen path
            :: (if opens env s 0 "delay_ms"
                then [IoWrite path (Ints [tag hdr (kind_of_handle l);
                                          Z.quot delay_ns 1000000])]
                else []))
         (set_fixed_sysfs_path path s)).
Proof.
  intros Hk Hnum path. unfold setDelay.
  rewrite valid_kind_accepted by assumption. rewrite find_sensor_handle.
  destruct s as [me pm table fl fs lt gt itd fbd p plen dev trig q tr].
  unfold opens, control_path, set_sysfs_attr, sys_open, sys_write, ask, bind, modify,
    get, ret in *.
  simpl in *. destruct (env_open env (length tr) _); simpl.
  - now rewrite <- app_assoc.
  - reflexivity.
Qed.

Lemma setDelay_reports_success_witness :
  exists s',
    setDelay Sample.hdr Sample.env_no_sysfs 0 (-1999999) Sample.idle = Done 0 s'
    /\ mEnabled s' = 0.
Proof.
  eexists. split.
  - apply (setDelay_reports_success Sample.hdr Sample.env_no_sysfs ID_A (-1999999) Sample.idle).
    + simpl. lia.
    + simpl. lia.
  - reflexivity.
Defined.

Example setDelay_truncates :
  setDelay Sample.hdr Sample.env 0 (-1999999) Sample.idle
  = Done 0
      (set_trace
         [IoOpen "/sys/class/htc_sensorhub/sensor_hub/delay_ms";
          IoWrite "/sys/class/htc_sensorhub/sensor_hub/delay_ms" (Ints [0; -1])]
         (set_fixed_sysfs_path "/sys/class/htc_sensorhub/sensor_hub/delay_ms" Sample.idle)).
Proof. reflexivity. Qed.

(** X15.  A [batch] call with the dry-run flag (bit 0 of [flags]) has
    no effect at all: the driver is unchanged and nothing is asked of the
    environment.  It returns 0, or [-EINVAL] exactly when the handle names
    no kind below [CW_SENSORS_ID_END] or a positive timeout is asked of the
    light sensor or of SignificantMotion. *)
Theorem batch_dry_run_is_pure (hdr : Header) (env : Env)
    (h flags period_ns timeout : Z) (s : CwMcuSensor) :
  Z.testbit flags 0 = true ->
  exists rc,
    batch hdr env h flags period_ns timeout s = Done rc s
    /\ (rc = 0 \/ rc = - EINVAL)
    /\ (rc = - EINVAL <->
        CW_SENSORS_ID_END hdr <= Int.uint32 (find_sensor hdr h)
        \/ (0 < timeout
            /\ (find_sensor hdr h = tag hdr CW_LIGHT
                \/ find_sensor hdr h = tag hdr CW_SIGNIFICANT_MOTION))).
Proof.
  intros Hdry. unfold batch.
  assert (Hflag : (Z.land flags SENSORS_BATCH_DRY_RUN =? 0) = false).
  { apply Z.eqb_neq. intros H0.
    assert (Hb : Z.testbit (Z.land flags SENSORS_BATCH_DRY_RUN) 0 = true)
      by (rewrite Z.land_spec, Hdry; reflexivity).
    rewrite H0 in Hb. discriminate Hb. }
  rewrite Hflag. simpl negb. cbv iota.
  destruct (Int.uint32 (find_sensor hdr h) >=? CW_SENSORS_ID_END hdr) eqn:Eend.
  { exists (- EINVAL). split; [reflexivity|]. split; [now right|].
    split; [intros _|reflexivity]. left. rewrite Z.geb_leb in Eend. now apply Z.leb_le. }
  rewrite Z.geb_leb in Eend. apply Z.leb_gt in Eend.
  destruct (select (tag hdr) [CW_LIGHT; CW_SIGNIFICANT_MOTION] (find_sensor hdr h))
    as [k|] eqn:Esel.
  - apply select_Some in Esel as [Ek Hin].
    destruct (timeout >? 0) eqn:Et.
    + exists (- EINVAL). split; [reflexivity|]. split; [now right|].
      split; [intros _|reflexivity]. right. split; [now apply Z.gtb_lt|].
      destruct Hin as [<-|[<-|[]]]; auto.
    + exists 0. split; [reflexivity|]. split; [now left|].
      split; [discriminate|]. intros [H|[H _]]; [lia|].
      rewrite Z.gtb_ltb in Et. apply Z.ltb_ge in Et. lia.
  - exists 0. split; [reflexivity|]. split; [now left|].
    split; [discriminate|]. intros [H|[_ [H|H]]]; [lia| |];
      rewrite H, select_tag in Esel; discriminate Esel.
Qed.

(** A driver with SignificantMotion enabled and nothing else. *)
Definition watching : CwMcuSensor := set_mEnabled 1048576 Sample.idle.

Lemma batch_dry_run_is_pure_witness :
  exists rc,
    batch Sample.hdr Sample.env 13 3 20000000 5 watching = Done rc watching
    /\ rc = - EINVAL.
Proof.
  destruct (batch_dry_run_is_pure Sample.hdr Sample.env 13 3 20000000 5 watching eq_refl)
    as (rc & Hrun & _ & Hiff).
  exists rc. split; [exact Hrun|]. apply Hiff. right. split; [lia|]. now right.
Defined.

(** X16.  [flush] on the handle of a sensor whose tag is below
    [CW_SENSORS_ID_END] records the handle in [mFlushSensorEnabled] and
    opens the control file [flush]: when that fails it returns [-EINVAL];
    otherwise it writes the kind and returns 0, or [-errno] when the write
    fails.  Nothing else of the driver changes but the scratch path. *)
Theorem flush_reports (hdr : Header) (env : Env) (l : SensorHandle) (s : CwMcuSensor) :
  0 <= tag hdr (kind_of_handle l) < 2 ^ 32 ->
  tag hdr (kind_of_handle l) < CW_SENSORS_ID_END hdr ->
  let path := control_path s "flush" in
  let written := env_write env (S (length (trace s))) in
  let s1 := set_fixed_sysfs_path path (set_mFlushSensorEnabled (handle hdr l) s) in
  flush hdr env (handle hdr l) s
  = if opens env s 0 "flush" then
      Done (if written <? 0 then - env_errno env (S (S (length (trace s)))) else 0)
        (set_trace
           (trace s ++ [IoOpen path; IoWrite path (Ints [tag hdr (kind_of_handle l)])]) s1)
    else Done (- EINVAL) (set_trace (trace s ++ [IoOpen path]) s1).
Proof.
  intros Hk Hend path written s1. unfold flush.
  rewrite valid_kind_accepted by assumption. rewrite find_sensor_handle.
  destruct s as [me pm table fl fs lt gt itd fbd p plen dev trig q tr].
  unfold opens, control_path, set_sysfs_attr, sys_open, sys_write, errno, ask, bind,
    modify, get, ret in *.
  subst path written s1. simpl in *.
  destruct (env_open env (length tr) _); simpl; [|reflexivity].
  rewrite ?length_app. simpl. rewrite ?Nat.add_1_r.
  destruct (env_write env (S (length tr)) <? 0); simpl;
    rewrite ?length_app; simpl; rewrite ?Nat.add_1_r, <- ?app_assoc; reflexivity.
Qed.

Lemma flush_reports_witness :
  exists s',
    flush Sample.hdr Sample.env_no_sysfs 13 Sample.idle = Done (- EINVAL) s'
    /\ mFlushSensorEnabled s' = 13.
Proof.
  eexists. split.
  - apply (flush_reports Sample.hdr Sample.env_no_sysfs ID_CW_SIGNIFICANT_MOTION Sample.idle).
    + simpl. lia.
    + simpl. lia.
  - reflexivity.
Defined.

(** ** More on decoding *)

Lemma indexToValue_in_table (index : Z) : In (indexToValue index) luxValues.
Proof.
  unfold indexToValue, LIGHTSENSOR_LEVEL.
  destruct (index >? 10 - 1) eqn:E.
  - vm_compute. tauto.
  - rewrite Z.gtb_ltb in E. apply Z.ltb_ge in E.
    apply nth_In. change (length luxValues) with 10%nat. lia.
Qed.

Section Light.

Context (hdr : Header) (env : Env).

Lemma mark_pending_done id s :
  0 <= id < 32 ->
  mark_pending id s
  = Done tt (set_mPendingMask (Int.uint32 (Z.lor (mPendingMask s) (Z.shiftl 1 id))) s).
Proof.
  intros Hid. unfold mark_pending, shl1.
  replace (0 <=? id) with true by (symmetry; apply Z.leb_le; lia).
  replace (id <? 32) with true by (symmetry; apply Z.ltb_lt; lia).
  reflexivity.
Qed.

Lemma processEvent_light ev s e :
  ev_id ev = tag hdr CW_LIGHT ->
  0 <= tag hdr CW_LIGHT < 32 ->
  mPendingEvents s !! Z.to_nat (tag hdr CW_LIGHT) = Some e ->
  processEvent hdr env ev s
  = Done (tag hdr CW_LIGHT)
      (set_mPendingEvents
         (<[Z.to_nat (tag hdr CW_LIGHT) :=
              set_data 0 (indexToValue (Int.size_t (ev_data ev 0)))
                (set_timestamp (ev_time ev) e)]> (mPendingEvents s))
         (set_mPendingMask
            (Int.uint32 (Z.lor (mPendingMask s) (Z.shiftl 1 (tag hdr CW_LIGHT)))) s)).
Proof.
  intros Htag Hk He. unfold processEvent. rewrite Htag.
  rewrite (bind_done _ _ _ _ _
             (update_slot_done (tag hdr CW_LIGHT) _ s e (proj1 Hk) He)).
  unfold decode_payload. rewrite Htag, select_tag. simpl.
  rewrite bind_assoc.
  rewrite (bind_done _ _ _ _ _ (mark_pending_done _ _ Hk)).
  erewrite bind_done.
  2:{ apply update_slot_done; [lia|]. simpl.
      apply list_lookup_insert_eq. now apply lookup_lt_Some in He. }
  simpl. rewrite list_insert_insert_eq. reflexivity.
Qed.

End Light.

(** X17.  Decoding a light record stores one of the ten entries of the
    lux table, whatever the record holds: the entry of the level when the
    level is between 0 and 9, and the last entry, 2600, when the level is
    above 9 or negative (a negative [int16_t] is a huge [size_t]). *)
Theorem light_reading_in_table (hdr : Header) (env : Env) (ev : cw_event)
    (s : CwMcuSensor) (e : sensors_event_t) :
  ev_id ev = tag hdr CW_LIGHT ->
  0 <= tag hdr CW_LIGHT < 32 ->
  mPendingEvents s !! Z.to_nat (tag hdr CW_LIGHT) = Some e ->
  (0 < length (data e))%nat ->
  exists s' e',
    processEvent hdr env ev s = Done (tag hdr CW_LIGHT) s'
    /\ mPendingEvents s' !! Z.to_nat (tag hdr CW_LIGHT) = Some e'
    /\ In (get_data 0 e') luxValues
    /\ (0 <= ev_data ev 0 <= 9 ->
        get_data 0 e' = nth (Z.to_nat (ev_data ev 0)) luxValues F32.zero)
    /\ (ev_data ev 0 < 0 \/ 9 < ev_data ev 0 -> get_data 0 e' = F32.of_Z 2600).
Proof.
  intros Htag Hk He Hlen.
  eexists _, _. split; [exact (processEvent_light hdr env ev s e Htag Hk He)|]. simpl.
  split; [apply list_lookup_insert_eq; now apply lookup_lt_Some in He|].
  assert (Hget : forall v, get_data 0 (set_data 0 v (set_timestamp (ev_time ev) e)) = v).
  { intros v. unfold get_data, set_data. simpl.
    destruct (data e); [simpl in Hlen; lia | reflexivity]. }
  rewrite Hget. split; [apply indexToValue_in_table|]. split.
  - intros Hin. unfold Int.size_t, Int.unsigned. rewrite Z.mod_small by lia.
    unfold indexToValue, LIGHTSENSOR_LEVEL.
    replace (ev_data ev 0 >? 10 - 1) with false
      by (symmetry; rewrite Z.gtb_ltb; apply Z.ltb_ge; lia).
    reflexivity.
  - intros [Hneg|Hbig].
    + apply indexToValue_negative. split; [|exact Hneg].
      unfold ev_data, Int.int16, Int.signed.
      pose proof (Int.unsigned_range 16 (load_le ev (1 + 2 * 0) 2) ltac:(lia)) as Hu.
      destruct (_ <? _) eqn:E; [lia|]. apply Z.ltb_ge in E. lia.
    + apply indexToValue_clamped.
      unfold Int.size_t, Int.unsigned. rewrite Z.mod_small; [exact Hbig|].
      split; [lia|].
      unfold ev_data, Int.int16, Int.signed.
      pose proof (Int.unsigned_range 16 (load_le ev (1 + 2 * 0) 2) ltac:(lia)) as Hu.
      destruct (_ <? _) eqn:E; [apply Z.ltb_lt in E|]; lia.
Qed.

Lemma light_reading_in_table_witness :
  exists s' e',
    processEvent Sample.hdr Sample.env (Sample.record 3 65535 0 0 0 5) Sample.idle
    = Done 3 s'
    /\ mPendingEvents s' !! 3%nat = Some e'
    /\ get_data 0 e' = F32.of_Z 2600.
Proof.
  destruct (light_reading_in_table Sample.hdr Sample.env (Sample.record 3 65535 0 0 0 5)
              Sample.idle Sample.blank)
    as (s' & e' & Hrun & He' & _ & _ & Hclamp).
  - reflexivity.
  - simpl. lia.
  - reflexivity.
  - simpl. lia.
  - exists s', e'. split; [exact Hrun|]. split; [exact He'|].
    apply Hclamp. left. vm_compute. reflexivity.
Defined.

(** *** The fourth component, again *)

(** The sign of a rounded value. *)
Definition negative (x : float) : bool :=
  match x with
  | S754_zero s | S754_infinity s | S754_finite s _ _ => s
  | S754_nan => false
  end.

Lemma binary_round_aux_sign prec emax mx ex lx :
  negative (binary_round_aux prec emax false mx ex lx) = false.
Proof.
  unfold binary_round_aux.
  destruct (shr_fexp prec emax mx ex lx) as [mrs' e'].
  destruct (shr_fexp prec emax _ e' loc_Exact) as [mrs'' e''].
  destruct (shr_m mrs'') as [|p|p]; try reflexivity.
  now destruct (e'' <=? emax - prec).
Qed.

Lemma of_double_sign d : negative d = false -> negative (F32.of_double d) = false.
Proof.
  destruct d as [s|s| |s m e]; simpl; try (intros; assumption).
  intros ->. unfold binary_round.
  destruct (shl_align m e _) as [mz ez]. apply binary_round_aux_sign.
Qed.

Lemma SFsqrt_sign x : negative x = false -> negative (SFsqrt 53 1024 x) = false.
Proof.
  destruct x as [s|s| |s m e]; simpl; try (intros; assumption).
  - now intros ->.
  - intros ->. destruct (SFsqrt_core_binary 53 1024 (Z.pos m) e) as [[mz ez] lz].
    apply binary_round_aux_sign.
Qed.

Lemma nonneg_not_less x : negative x = false -> F32.ltb x F32.zero = false.
Proof. destruct x as [s|s| |s m e]; simpl; intros H; subst; reflexivity. Qed.

Lemma sqrt_nonneg x : F32.gtb x F32.zero = true -> F32.ltb (F32.sqrt x) F32.zero = false.
Proof.
  intros Hpos. apply nonneg_not_less, of_double_sign, SFsqrt_sign.
  destruct x as [s|[]| |[] m e]; try discriminate Hpos; reflexivity.
Qed.

Lemma rv_4th_nonneg r :
  F32.ltb (rv_4th r) F32.zero = false
  /\ (F32.gtb (rv_4th r) F32.zero = true \/ F32.eqb (rv_4th r) F32.zero = true).
Proof.
  assert (Hlt : F32.ltb (rv_4th r) F32.zero = false).
  { unfold rv_4th. destruct (F32.gtb r F32.zero) eqn:E;
      [now apply sqrt_nonneg | reflexivity]. }
  split; [exact Hlt|].
  pose proof (rv_4th_not_nan r) as Hnan.
  unfold F32.ltb, F32.gtb, F32.eqb in *.
  destruct (rv_4th r) as [s|[]| |[] m e]; simpl in *; try discriminate; auto.
Qed.

Section Finalize.

Context (hdr : Header).

Lemma get_data_set_data_other i j v e :
  i <> j -> get_data i (set_data j v e) = get_data i e.
Proof.
  intros Hne. unfold get_data, set_data. simpl.
  destruct (decide (i < length (data e))%nat) as [Hlt|Hge].
  - destruct (lookup_lt_is_Some_2 (data e) i Hlt) as [x Hx].
    rewrite (nth_lookup_Some _ _ _ _ Hx).
    apply nth_lookup_Some. rewrite list_lookup_insert_ne by congruence. exact Hx.
  - rewrite !nth_overflow; [reflexivity | lia | rewrite length_insert; lia].
Qed.

Lemma set_data_twice j v e : set_data j v (set_data j v e) = set_data j v e.
Proof. unfold set_data. simpl. now rewrite list_insert_insert_eq. Qed.

End Finalize.

(** X18.  Finalization is idempotent: running
    [calculate_rv_4th_element] twice is the same as running it once, for
    every kind and every state, since [data[3]] is computed from
    [data[0..2]] alone. *)
Theorem calculate_rv_4th_element_idempotent (hdr : Header) (id : Z) (s : CwMcuSensor) :
  (calculate_rv_4th_element hdr id ;;; calculate_rv_4th_element hdr id) s
  = calculate_rv_4th_element hdr id s.
Proof.
  unfold calculate_rv_4th_element.
  destruct (select (tag hdr) rv_labels id) as [k|]; [|reflexivity].
  destruct (Z.lt_ge_cases id 0) as [Hneg|Hpos].
  { assert (E : read_slot id s = Fault (OutOfBounds id)).
    { unfold read_slot. now replace (id <? 0) with true by (symmetry; apply Z.ltb_lt; lia). }
    rewrite (bind_fault _ _ _ _ (bind_fault _ _ _ _ E)).
    now rewrite (bind_fault _ _ _ _ E). }
  destruct (mPendingEvents s !! Z.to_nat id) as [e|] eqn:He.
  - rewrite bind_assoc.
    rewrite !(bind_done _ _ _ _ _ (read_slot_done id s e Hpos He)).
    rewrite (update_slot_done _ _ s e Hpos He).
    erewrite bind_done by (apply update_slot_done; [exact Hpos | exact He]).
    set (e1 := set_data 3 _ e).
    assert (He1 : mPendingEvents
                    (set_mPendingEvents (<[Z.to_nat id := e1]> (mPendingEvents s)) s)
                  !! Z.to_nat id = Some e1).
    { simpl. apply list_lookup_insert_eq. now apply lookup_lt_Some in He. }
    rewrite (bind_done _ _ _ _ _ (read_slot_done id _ e1 Hpos He1)).
    rewrite (update_slot_done _ _ _ e1 Hpos He1). simpl.
    rewrite list_insert_insert_eq. unfold e1.
    rewrite !get_data_set_data_other by lia.
    now rewrite set_data_twice.
  - assert (E : read_slot id s = Fault (OutOfBounds id)).
    { unfold read_slot. rewrite He.
      now replace (id <? 0) with false by (symmetry; apply Z.ltb_ge; lia). }
    rewrite (bind_fault _ _ _ _ (bind_fault _ _ _ _ E)).
    now rewrite (bind_fault _ _ _ _ E).
Qed.

(** A driver whose rotation-vector sample holds [(3/5, 0, 4/5)] scaled
    by no factor: three components of squared length 25. *)
Definition turned : CwMcuSensor :=
  set_mPendingEvents
    (<[7%nat := mkEvent 104 6 11 0
                  (map F32.of_Z [3; 0; 4] ++ replicate 13 F32.zero) 0 0 0 0]>
       (mPendingEvents Sample.idle))
    Sample.idle.

(** X19.  The fourth component stored for a rotation-vector kind is
    never negative and never a NaN: on a slot that exists and holds at
    least four floats, [calculate_rv_4th_element] returns and leaves in
    [data[3]] a value that compares greater than or equal to zero. *)
Theorem calculate_rv_4th_element_nonneg (hdr : Header) (id : Z) (k : CW_SENSORS_ID)
    (s : CwMcuSensor) (e : sensors_event_t) :
  In k rv_labels -> id = tag hdr k -> 0 <= id ->
  mPendingEvents s !! Z.to_nat id = Some e ->
  (3 < length (data e))%nat ->
  exists s' e',
    calculate_rv_4th_element hdr id s = Done tt s'
    /\ mPendingEvents s' !! Z.to_nat id = Some e'
    /\ F32.ltb (get_data 3 e') F32.zero = false
    /\ F32.is_nan (get_data 3 e') = false
    /\ (F32.gtb (get_data 3 e') F32.zero = true \/ F32.eqb (get_data 3 e') F32.zero = true).
Proof.
  intros Hin -> Hid He Hlen.
  enough (Htwp : twp (calculate_rv_4th_element hdr (tag hdr k))
            (fun _ s' => exists e' r,
               mPendingEvents s' !! Z.to_nat (tag hdr k) = Some e'
               /\ get_data 3 e' = rv_4th r) s).
  { apply twp_done in Htwp as ([] & s' & Hrun & e' & r & He' & Hw).
    exists s', e'. split; [exact Hrun|]. split; [exact He'|]. rewrite Hw.
    destruct (rv_4th_nonneg r) as [Hlt Hge].
    split; [exact Hlt|]. split; [apply rv_4th_not_nan | exact Hge]. }
  unfold calculate_rv_4th_element. rewrite select_tag.
  replace (find (fun k' => bool_decide (k' = k)) rv_labels) with (Some k)
    by (destruct Hin as [<-|[<-|[<-|[]]]]; reflexivity).
  apply twp_bind. apply (twp_read_slot _ e); [exact Hid | exact He|].
  cbv zeta. apply (twp_update_slot _ _ e); [exact Hid | exact He|].
  eexists _, _. simpl. split.
  - apply list_lookup_insert_eq. now apply lookup_lt_Some in He.
  - unfold get_data, set_data. simpl.
    apply nth_lookup_Some with (d := F32.zero).
    now apply list_lookup_insert_eq.
Qed.

Lemma calculate_rv_4th_element_nonneg_witness :
  exists s' e',
    calculate_rv_4th_element Sample.hdr 7 turned = Done tt s'
    /\ mPendingEvents s' !! 7%nat = Some e'
    /\ F32.ltb (get_data 3 e') F32.zero = false.
Proof.
  destruct (calculate_rv_4th_element_nonneg Sample.hdr 7 CW_ROTATIONVECTOR turned
              (mkEvent 104 6 11 0 (map F32.of_Z [3; 0; 4] ++ replicate 13 F32.zero) 0 0 0 0))
    as (s' & e' & Hrun & He' & Hlt & _).
  - left. reflexivity.
  - reflexivity.
  - lia.
  - reflexivity.
  - simpl. lia.
  - exists s', e'. split; [exact Hrun|]. split; [exact He' | exact Hlt].
Defined.

(** *** The bytes of a record that are read *)

Lemma load_le_agree (ev ev' : cw_event) (bound : nat) :
  (forall i, (i < bound)%nat -> byte_at ev i = byte_at ev' i) ->
  forall n i, (i + n <= bound)%nat -> load_le ev i n = load_le ev' i n.
Proof.
  intros Hbytes. induction n as [|n IH]; intros i Hi; simpl; [reflexivity|].
  rewrite Hbytes by lia. rewrite IH by lia. reflexivity.
Qed.

(** X20.  [processEvent], and with it a turn of the dispatch loop,
    reads the first 21 bytes of a record only: two records that agree on
    bytes 0 to 20 (as [uint8_t]) are decoded alike, whatever bytes 21 to 23
    hold. *)
Theorem processEvent_reads_21_bytes (hdr : Header) (env : Env)
    (ev ev' : cw_event) (s : CwMcuSensor) :
  (forall i, (i < 21)%nat -> byte_at ev i = byte_at ev' i) ->
  processEvent hdr env ev s = processEvent hdr env ev' s
  /\ dispatch hdr env ev s = dispatch hdr env ev' s.
Proof.
  intros Hbytes.
  pose proof (load_le_agree ev ev' 21 Hbytes) as Hload.
  assert (Hid : ev_id ev = ev_id ev') by (apply Hbytes; lia).
  assert (Htime : ev_time ev = ev_time ev')
    by (unfold ev_time; rewrite Hload by lia; reflexivity).
  assert (Hdata : forall k, (k < 3)%nat -> ev_data ev k = ev_data ev' k)
    by (intros k Hk; unfold ev_data; rewrite Hload by lia; reflexivity).
  assert (Hbias : forall k, (k < 3)%nat -> ev_bias ev k = ev_bias ev' k)
    by (intros k Hk; unfold ev_bias; rewrite Hload by lia; reflexivity).
  assert (Hu32 : ev_data_u32 ev = ev_data_u32 ev')
    by (unfold ev_data_u32; rewrite Hload by lia; reflexivity).
  assert (Hi32 : ev_data_i32 ev = ev_data_i32 ev')
    by (unfold ev_data_i32; rewrite Hload by lia; reflexivity).
  assert (E : processEvent hdr env ev s = processEvent hdr env ev' s).
  { unfold processEvent, decode_payload, store_vector.
    rewrite <- Hid, <- Htime, <- Hu32, <- Hi32.
    rewrite <- !(Hdata 0%nat), <- !(Hdata 1%nat), <- !(Hdata 2%nat) by lia.
    rewrite <- !(Hbias 0%nat), <- !(Hbias 1%nat), <- !(Hbias 2%nat) by lia.
    reflexivity. }
  split; [exact E|]. unfold dispatch, bind. now rewrite E.
Qed.

Lemma processEvent_reads_21_bytes_witness :
  processEvent Sample.hdr Sample.env
    [7; 1; 2; 3; 4; 5; 6; 7; 8; 9; 10; 11; 12; 1; 0; 0; 0; 0; 0; 0; 0; 99; 98; 97]
    Sample.idle
  = processEvent Sample.hdr Sample.env
      [7; 1; 2; 3; 4; 5; 6; 7; 8; 9; 10; 11; 12; 1; 0; 0; 0; 0; 0; 0; 0; 0; 0; 0]
      Sample.idle.
Proof.
  apply processEvent_reads_21_bytes.
  intros i Hi. do 21 (destruct i as [|i]; [reflexivity|]). lia.
Defined.

(** ** The destructor *)

Section DestructorFacts.

Context (hdr : Header) (env : Env).

(** [setEnable] assigns no bit but the one of the kind its handle names. *)
Lemma setEnable_other_bits h en s :
  wp (setEnable hdr env h en)
     (fun _ s' =>
        forall i, 0 <= i < 32 -> i <> find_sensor hdr h ->
                  Z.testbit (mEnabled s') i = Z.testbit (mEnabled s) i) s.
Proof.
  unfold setEnable.
  assert (Hbit : forall m i, 0 <= find_sensor hdr h < 32 -> 0 <= i < 32 ->
            i <> find_sensor hdr h ->
            Z.testbit
              (Int.uint32 (Z.lor (Int.uint32 (Z.land m (Z.lnot (Z.shiftl 1 (find_sensor hdr h)))))
                             (Z.shiftl (if en =? 0 then 0 else 1) (find_sensor hdr h)))) i
            = Z.testbit m i).
  { intros m i Hk Hi Hne.
    rewrite assigned_bit by (first [assumption | destruct (en =? 0); tauto]).
    now replace (i =? find_sensor hdr h) with false by (symmetry; now apply Z.eqb_neq). }
  destruct s. wp_run; intros i Hi Hne; first [reflexivity | now apply Hbit].
Qed.

End DestructorFacts.

(** X21.  The destructor returns (the tag of every sensor kind being a
    bit position, and [numSensors] a 32-bit value).  It does nothing when
    no sensor is enabled.  Otherwise it calls [setEnable(0, 0)], which
    touches no bit of the enabled mask but the one of the kind of handle 0:
    every other sensor that was enabled is still enabled in the mask when
    the driver is gone. *)
Theorem destructor_disables_handle_zero (hdr : Header) (env : Env) (s : CwMcuSensor) :
  fits hdr (length (mPendingEvents s)) ->
  numSensors hdr <= 4294967295 ->
  exists s',
    destroy hdr env s = Done tt s'
    /\ (mEnabled s = 0 -> s' = s)
    /\ (forall i, 0 <= i < 32 -> i <> find_sensor hdr 0 ->
          Z.testbit (mEnabled s') i = Z.testbit (mEnabled s) i).
Proof.
  intros Hfits Hnum.
  enough (Htwp : twp (destroy hdr env)
            (fun _ s' =>
               (mEnabled s = 0 -> s' = s)
               /\ forall i, 0 <= i < 32 -> i <> find_sensor hdr 0 ->
                            Z.testbit (mEnabled s') i = Z.testbit (mEnabled s) i) s).
  { apply twp_done in Htwp as ([] & s' & Hrun & H). now exists s'. }
  unfold destroy. apply twp_bind, twp_get.
  destruct (mEnabled s =? 0) eqn:E; simpl.
  - apply twp_ret. split; reflexivity.
  - apply Z.eqb_neq in E.
    pose proof (twp_with _ _ _ _
                  (setEnable_returns hdr env _ Hfits 0 0 Hnum s eq_refl)
                  (setEnable_other_bits hdr env 0 0 s)) as H.
    eapply twp_bind_with; [exact H|].
    intros rc s1 [_ H1]. apply twp_ret. split; [intros H0; contradiction | exact H1].
Qed.

Lemma destructor_disables_handle_zero_witness :
  exists s',
    destroy Sample.hdr Sample.env watching = Done tt s'
    /\ Z.testbit (mEnabled s') 20 = true.
Proof.
  destruct (destructor_disables_handle_zero Sample.hdr Sample.env watching)
    as (s' & Hrun & _ & Hbits).
  - exact sample_fits.
  - vm_compute. discriminate.
  - exists s'. split; [exact Hrun|].
    rewrite Hbits by (first [lia | vm_compute; discriminate]). reflexivity.
Defined.

(** * Text and files *)

Example print_int_samples :
  (Text.print_int 0, Text.print_int (-120), Text.print_int 305) = ("0", "-120", "305")%string.
Proof. reflexivity. Qed.

Example scan_int_samples :
  (Text.scan_int "  -120 7", Text.scan_int "+5x", Text.scan_int "x5", Text.scan_int "-", Text.scan_int "  ")
  = (Text.Converted (-120) " 7", Text.Converted 5 "x", Text.Mismatch, Text.Mismatch, Text.InputEnd).
Proof. reflexivity. Qed.

(** ** Printing and scanning *)

Section PrintScan.

Import Text.

(** Every character of [s] is a digit. *)
Fixpoint digits (s : string) : bool :=
  match s with
  | String c s' => isdigit c && digits s'
  | EmptyString => true
  end.

(** [s] does not go on with a digit. *)
Definition stops (s : string) : Prop :=
  match s with
  | String c _ => isdigit c = false
  | EmptyString => True
  end.

Lemma span_digits_app ds rest :
  digits ds = true -> stops rest -> span_digits (ds ++ rest) = (ds, rest).
Proof.
  intros Hds Hrest. induction ds as [|c ds IH]; simpl in *.
  - destruct rest as [|c r]; [reflexivity|]. simpl in *. now rewrite Hrest.
  - apply andb_true_iff in Hds as [Hc Hds]. now rewrite Hc, IH.
Qed.

Lemma digits_string_of_uint d : digits (NilEmpty.string_of_uint d) = true.
Proof. induction d; simpl; rewrite ?IHd; reflexivity. Qed.

Lemma string_of_uint_head d :
  d <> Nil ->
  exists c s, NilEmpty.string_of_uint d = String c s
              /\ isdigit c = true /\ isspace c = false
              /\ Ascii.eqb c "-" = false /\ Ascii.eqb c "+" = false.
Proof.
  destruct d; [now intros H | ..]; intros _; simpl; eexists _, _;
    (split; [reflexivity|]); repeat split.
Qed.

Lemma to_uint_nonnil p : Pos.to_uint p <> Nil.
Proof.
  intros H. pose proof (DecimalPos.Unsigned.of_to p) as Hp.
  rewrite H in Hp. discriminate Hp.
Qed.

Lemma scan_int_unsigned c s :
  isspace c = false -> Ascii.eqb c "-" = false -> Ascii.eqb c "+" = false ->
  scan_int (String c s)
  = let (ds, rest) := span_digits (String c s) in
    match NilZero.uint_of_string ds with
    | Some d => Converted (Z.of_uint d) rest
    | None => Mismatch
    end.
Proof.
  intros Hs Hm Hp. unfold scan_int. cbn [skip_space]. rewrite Hs, Hm, Hp.
  reflexivity.
Qed.

Lemma scan_int_negative s :
  scan_int (String "-" s)
  = let (ds, rest) := span_digits s in
    match NilZero.uint_of_string ds with
    | Some d => Converted (- Z.of_uint d) rest
    | None => Mismatch
    end.
Proof. reflexivity. Qed.

Lemma uint_of_string_of_uint u :
  u <> Nil -> NilZero.uint_of_string (NilEmpty.string_of_uint u) = Some u.
Proof. intros Hu. rewrite <- (NilZero.usu u Hu). now destruct u. Qed.

Lemma scan_uint u rest :
  u <> Nil -> stops rest ->
  scan_int (NilEmpty.string_of_uint u ++ rest) = Converted (Z.of_uint u) rest.
Proof.
  intros Hu Hrest.
  destruct (string_of_uint_head u Hu) as (c & s & E & Hd & Hs & Hm & Hp).
  assert (E' : (NilEmpty.string_of_uint u ++ rest)%string = String c (s ++ rest))
    by (now rewrite E).
  rewrite E', scan_int_unsigned by assumption. rewrite <- E'.
  rewrite span_digits_app by (first [apply digits_string_of_uint | assumption]).
  now rewrite uint_of_string_of_uint.
Qed.

Lemma scan_negative u rest :
  u <> Nil -> stops rest ->
  scan_int (String "-" (NilEmpty.string_of_uint u) ++ rest) = Converted (- Z.of_uint u) rest.
Proof.
  intros Hu Hrest.
  change (String "-" (NilEmpty.string_of_uint u) ++ rest)%string
    with (String "-" (NilEmpty.string_of_uint u ++ rest)).
  rewrite scan_int_negative.
  rewrite span_digits_app by (first [apply digits_string_of_uint | assumption]).
  now rewrite uint_of_string_of_uint.
Qed.

(** What [printf] wrote with [%d], [scanf] reads back with [%d], provided
    no digit follows it. *)
Lemma scan_print z rest :
  stops rest -> scan_int (print_int z ++ rest) = Converted z rest.
Proof.
  intros Hrest. unfold print_int.
  rewrite <- (DecimalZ.of_to z) at 2.
  destruct z as [|p|p]; simpl Z.to_int; simpl NilZero.string_of_int.
  - now apply (scan_uint (D0 Nil)).
  - pose proof (to_uint_nonnil p) as Hp.
    replace (NilZero.string_of_uint (Pos.to_uint p))
      with (NilEmpty.string_of_uint (Pos.to_uint p))
      by (now destruct (Pos.to_uint p)).
    now apply scan_uint.
  - pose proof (to_uint_nonnil p) as Hp.
    replace (NilZero.string_of_uint (Pos.to_uint p))
      with (NilEmpty.string_of_uint (Pos.to_uint p))
      by (now destruct (Pos.to_uint p)).
    now apply scan_negative.
Qed.

(** A printed number starts with a sign or a digit, not with white space. *)
Lemma skip_space_print z rest : skip_space (print_int z ++ rest) = (print_int z ++ rest)%string.
Proof.
  unfold print_int.
  assert (H : forall u, u <> Nil ->
            skip_space (NilEmpty.string_of_uint u ++ rest)
            = (NilEmpty.string_of_uint u ++ rest)%string).
  { intros u Hu. destruct (string_of_uint_head u Hu) as (c & s & E & _ & Hs & _).
    rewrite E. simpl. now rewrite Hs. }
  destruct z as [|p|p]; simpl Z.to_int; simpl NilZero.string_of_int.
  - reflexivity.
  - pose proof (to_uint_nonnil p) as Hp.
    replace (NilZero.string_of_uint (Pos.to_uint p))
      with (NilEmpty.string_of_uint (Pos.to_uint p))
      by (now destruct (Pos.to_uint p)).
    now apply H.
  - reflexivity.
Qed.

Lemma stops_print z rest : skip_space (print_int z ++ rest) <> EmptyString.
Proof.
  rewrite skip_space_print. unfold print_int.
  destruct z as [|p|p]; simpl; try discriminate.
  pose proof (to_uint_nonnil p) as Hp.
  destruct (Pos.to_uint p); simpl; first [discriminate | now contradiction Hp].
Qed.

End PrintScan.

(** ** Trailing white space *)

Section Chomp.

Import Text.

Lemma chomp_loop_spec (len : nat) : forall b : list ascii,
  (len <= length b)%nat ->
  exists b' k,
    chomp_loop b len = Some b'
    /\ (k <= len)%nat
    /\ length b' = length b
    /\ (forall i, (i < k)%nat \/ (len <= i)%nat -> b' !! i = b !! i)
    /\ (forall i, (k <= i < len)%nat ->
          b' !! i = Some NUL /\ exists c, b !! i = Some c /\ isspace c = true)
    /\ (k = 0%nat \/ exists c, b !! (k - 1)%nat = Some c /\ isspace c = false).
Proof.
  induction len as [|n IH]; intros b Hlen; simpl.
  - exists b, 0%nat. split; [reflexivity|]. split; [lia|]. split; [reflexivity|].
    split; [reflexivity|]. split; [intros i Hi; lia | now left].
  - destruct (lookup_lt_is_Some_2 b n ltac:(lia)) as [c Hc]. rewrite Hc.
    destruct (isspace c) eqn:Espace.
    + destruct (IH (<[n := NUL]> b)) as (b' & k & Hrun & Hk & Hlen' & Hsame & Hcut & Hstop).
      { rewrite length_insert. lia. }
      exists b', k. split; [exact Hrun|]. split; [lia|].
      split; [now rewrite Hlen', length_insert|]. split; [|split].
      * intros i Hi. rewrite Hsame by lia. apply list_lookup_insert_ne. lia.
      * intros i Hi. destruct (decide (i = n)) as [->|Hne].
        -- split; [|now exists c]. rewrite Hsame by lia.
           apply list_lookup_insert_eq. lia.
        -- destruct (Hcut i ltac:(lia)) as [H0 (c' & Hc' & Hs')].
           split; [exact H0|]. exists c'. split; [|exact Hs'].
           now rewrite list_lookup_insert_ne in Hc' by lia.
      * destruct (decide (k = 0%nat)) as [->|Hk0]; [now left|].
        destruct Hstop as [->|(c' & Hc' & Hs')]; [now left|]. right. exists c'.
        split; [|exact Hs']. now rewrite list_lookup_insert_ne in Hc' by lia.
    + exists b, (S n). split; [reflexivity|]. split; [lia|]. split; [reflexivity|].
      split; [reflexivity|]. split; [intros i Hi; lia|].
      right. exists c. simpl. rewrite Nat.sub_0_r. now split.
Qed.

Lemma chomp_loop_outside b len : (length b < len)%nat -> chomp_loop b len = None.
Proof.
  intros H. destruct len as [|n]; [lia|]. simpl.
  now rewrite lookup_ge_None_2 by lia.
Qed.

End Chomp.

(** X22.  [chomp] answers [-1] to a null buffer.  On a buffer of at
    least [len] characters it returns 0 and overwrites with NUL the white
    space at the end of the first [len] characters: the characters before
    the cut and from [len] on are kept, the cut is at 0 or after a character
    that is no white space, and a second [chomp] changes nothing.  With
    [len] beyond the buffer the first access is outside of it. *)
Theorem chomp_strips_trailing_space (b : list ascii) (len : nat) :
  chomp None len = Some (-1, None)
  /\ ((length b < len)%nat -> chomp (Some b) len = None)
  /\ ((len <= length b)%nat ->
      exists b' k,
        chomp (Some b) len = Some (0, Some b')
        /\ (k <= len)%nat
        /\ length b' = length b
        /\ (forall i, (i < k)%nat \/ (len <= i)%nat -> b' !! i = b !! i)
        /\ (forall i, (k <= i < len)%nat ->
              b' !! i = Some Text.NUL
              /\ exists c, b !! i = Some c /\ Text.isspace c = true)
        /\ (k = 0%nat \/ exists c, b !! (k - 1)%nat = Some c /\ Text.isspace c = false)
        /\ chomp (Some b') len = Some (0, Some b')).
Proof.
  split; [reflexivity|]. split.
  - intros H. unfold chomp. now rewrite chomp_loop_outside.
  - intros Hlen.
    destruct (chomp_loop_spec len b Hlen) as (b' & k & Hrun & Hk & Hlen' & Hsame & Hcut & Hstop).
    exists b', k. unfold chomp. rewrite Hrun.
    repeat (split; [assumption || reflexivity|]).
    destruct len as [|n]; [reflexivity|]. simpl.
    destruct (decide (k = S n)) as [->|Hne].
    + destruct Hstop as [H0|(c & Hc & Hs)]; [discriminate H0|].
      simpl in Hc. rewrite Nat.sub_0_r in Hc.
      rewrite Hsame by lia. now rewrite Hc, Hs.
    + destruct (Hcut n ltac:(lia)) as [-> _]. reflexivity.
Qed.

Definition spaced : list ascii := ["a"; "b"; " "; Text.newline]%char.

Lemma chomp_strips_trailing_space_witness :
  exists b',
    chomp (Some spaced) 4 = Some (0, Some b')
    /\ chomp (Some b') 4 = Some (0, Some b').
Proof.
  destruct (chomp_strips_trailing_space spaced 4) as (_ & _ & H).
  destruct H as (b' & k & Hrun & _ & _ & _ & _ & _ & Hagain); [simpl; lia|].
  exists b'. split; [exact Hrun | exact Hagain].
Defined.

Example chomp_sample :
  chomp (Some spaced) 4
  = Some (0, Some ["a"; "b"; Text.NUL; Text.NUL]%char).
Proof. reflexivity. Qed.

Section CalibratorFacts.

Import Text Calibrator.

Context (hdr : Header) (writable : string -> bool).

Lemma isspace_separator i : isspace (separator i) = true.
Proof. unfold separator. now destruct (_ =? _)%nat. Qed.

Lemma isdigit_separator i : isdigit (separator i) = false.
Proof. unfold separator. now destruct (_ =? _)%nat. Qed.

(** What the save loop writes starts with a number, unless it is empty. *)
Lemma skip_space_fprintf_compass str todo : forall i text,
  fprintf_compass str i todo = Some text -> skip_space text = text.
Proof.
  destruct todo as [|todo]; intros i text H; simpl in H.
  - now injection H as <-.
  - destruct (str !! i) as [v|]; [|discriminate H].
    destruct (fprintf_compass str (S i) todo) as [rest|]; [|discriminate H].
    injection H as <-. apply skip_space_print.
Qed.

Lemma store_lookup str i z str' :
  store str i z = Some str' ->
  length str' = length str
  /\ forall j, str' !! j = if decide (j = i) then Some z else str !! j.
Proof.
  unfold store. destruct (in_int z && (i <? length str)%nat) eqn:E; [|discriminate].
  intros [= <-]. apply andb_true_iff in E as [_ E]. apply Nat.ltb_lt in E.
  split; [apply length_insert|]. intros j. destruct (decide (j = i)) as [->|Hne].
  - now apply list_lookup_insert_eq.
  - apply list_lookup_insert_ne. congruence.
Qed.

(** Reading [todo] numbers from a text that holds [avail] numbers written
    by the save loop: the numbers there are are stored in order, and the
    value returned is 0 when there were enough and [EOF] otherwise. *)
Lemma fscanf_fprintf_compass str todo : forall avail i text dst,
  fprintf_compass str i avail = Some text ->
  (forall j v, (i <= j < i + avail)%nat -> str !! j = Some v -> in_int v = true) ->
  (i + todo <= length dst)%nat ->
  exists out,
    fscanf_compass text dst i todo = Some (if (avail <? todo)%nat then EOF else 0, out)
    /\ length out = length dst
    /\ forall j, out !! j
                 = if decide (i <= j < i + Nat.min avail todo)%nat then str !! j
                   else dst !! j.
Proof.
  induction todo as [|todo IH]; intros avail i text dst Htext Hint Hlen.
  - exists dst. simpl. split; [reflexivity|]. split; [reflexivity|].
    intros j. rewrite Nat.min_0_r. destruct (decide _); [lia | reflexivity].
  - destruct avail as [|avail]; simpl in Htext.
    + injection Htext as <-. exists dst. simpl.
      replace (i <? length dst)%nat with true by (symmetry; apply Nat.ltb_lt; lia).
      split; [reflexivity|].
      split; [reflexivity|]. intros j. destruct (decide _); [lia | reflexivity].
    + destruct (str !! i) as [v|] eqn:Hv; [|discriminate Htext].
      destruct (fprintf_compass str (S i) avail) as [rest|] eqn:Hrest;
        [|discriminate Htext].
      injection Htext as <-. cbn [fscanf_compass].
      rewrite scan_print by (simpl; apply isdigit_separator).
      assert (Hstore : store dst i v = Some (<[i := v]> dst)).
      { unfold store. rewrite (Hint i v) by (first [lia | assumption]).
        now replace (i <? length dst)%nat with true by (symmetry; apply Nat.ltb_lt; lia). }
      rewrite Hstore. cbn [skip_space]. rewrite isspace_separator.
      rewrite (skip_space_fprintf_compass _ _ _ _ Hrest).
      destruct (IH avail (S i) rest (<[i := v]> dst) Hrest) as (out & Hrun & Hlen' & Hout).
      { intros j w Hj. apply Hint. lia. }
      { rewrite length_insert. lia. }
      exists out. split; [exact Hrun|]. split; [now rewrite Hlen', length_insert|].
      intros j. rewrite Hout.
      destruct (decide (S i <= j < S i + Nat.min avail todo)%nat) as [Hin|Hout'].
      * destruct (decide _); [reflexivity | lia].
      * destruct (decide (j = i)) as [->|Hne].
        -- rewrite list_lookup_insert_eq by lia.
           destruct (decide _); [now rewrite Hv | lia].
        -- rewrite list_lookup_insert_ne by congruence.
           destruct (decide _); [lia | reflexivity].
Qed.

Lemma fprintf_compass_defined str todo : forall i,
  (i + todo <= length str)%nat -> exists text, fprintf_compass str i todo = Some text.
Proof.
  induction todo as [|todo IH]; intros i Hlen; simpl; [now eexists|].
  destruct (lookup_lt_is_Some_2 str i ltac:(lia)) as [v ->].
  destruct (IH (S i) ltac:(lia)) as [rest ->]. now eexists.
Qed.

Lemma compass_is_no_other_kind :
  (tag hdr CW_MAGNETIC =? tag hdr CW_GYRO) || (tag hdr CW_MAGNETIC =? tag hdr CW_ACCELERATION)
  = false.
Proof. now rewrite !tag_eqb. Qed.

End CalibratorFacts.

(** Every path can be written, and one file of three numbers. *)
Definition all_writable (path : string) : bool := true.
Definition read_only (path : string) : bool := false.

(** X23.  What [cw_save_calibrator_file] writes for the compass,
    [cw_read_calibrator_file] reads back: for 26 [int] values saved to a
    path that can be written, reading that path returns 0 and stores the 26
    values, in order, in the first 26 entries of the caller's array; the
    entries beyond and every other file are untouched. *)
Theorem compass_calibration_round_trip (hdr : Header) (writable : string -> bool)
    (path : string) (str dst : list Z) (fs : Files) :
  writable path = true ->
  (26 <= length str)%nat ->
  (forall j v, (j < 26)%nat -> str !! j = Some v -> - 2 ^ 31 <= v < 2 ^ 31) ->
  (26 <= length dst)%nat ->
  exists fs' out,
    Calibrator.cw_save_calibrator_file hdr writable (tag hdr CW_MAGNETIC) path str fs
    = Some fs'
    /\ Calibrator.cw_read_calibrator_file hdr (tag hdr CW_MAGNETIC) path dst fs'
       = Some (0, out)
    /\ length out = length dst
    /\ (forall j, (j < 26)%nat -> out !! j = str !! j)
    /\ (forall j, (26 <= j)%nat -> out !! j = dst !! j)
    /\ (forall p, p <> path -> fs' !! p = fs !! p).
Proof.
  intros Hw Hstr Hint Hdst.
  unfold Calibrator.cw_save_calibrator_file, Calibrator.cw_read_calibrator_file.
  rewrite Hw, compass_is_no_other_kind, Z.eqb_refl.
  destruct (fprintf_compass_defined str 26 0 Hstr) as [text Htext].
  change Calibrator.COMPASS_CALIBRATION_DATA_SIZE with 26%nat. rewrite Htext.
  destruct (fscanf_fprintf_compass str 26 26 0 text dst Htext) as (out & Hrun & Hlen & Hout).
  { intros j v Hj Hv. unfold Text.in_int.
    destruct (Hint j v ltac:(lia) Hv) as [Hlo Hhi].
    apply andb_true_iff. split; [now apply Z.leb_le | now apply Z.ltb_lt]. }
  { exact Hdst. }
  exists (<[path := text]> fs), out. split; [reflexivity|].
  rewrite lookup_insert_eq. split; [exact Hrun|]. split; [exact Hlen|].
  split; [|split].
  - intros j Hj. rewrite Hout. destruct (decide _); [reflexivity | simpl in *; lia].
  - intros j Hj. rewrite Hout. destruct (decide _); [simpl in *; lia | reflexivity].
  - intros p Hp. now apply lookup_insert_ne.
Qed.

Lemma compass_calibration_round_trip_witness :
  exists fs' out,
    Calibrator.cw_save_calibrator_file Sample.hdr all_writable 1 "mag.ini"
      (map Z.of_nat (seq 100 26)) ∅ = Some fs'
    /\ Calibrator.cw_read_calibrator_file Sample.hdr 1 "mag.ini" (replicate 26 0) fs'
       = Some (0, out)
    /\ out !! 25%nat = Some 125.
Proof.
  destruct (compass_calibration_round_trip Sample.hdr all_writable "mag.ini"
              (map Z.of_nat (seq 100 26)) (replicate 26 0) ∅)
    as (fs' & out & Hsave & Hread & _ & Hout & _).
  - reflexivity.
  - simpl. lia.
  - intros j v Hj Hv. apply list_lookup_fmap_Some_1 in Hv as (k & -> & Hk).
    apply lookup_seq in Hk as [-> _]. lia.
  - simpl. lia.
  - exists fs', out. split; [exact Hsave|]. split; [exact Hread|].
    rewrite Hout by lia. reflexivity.
Defined.

Lemma skip_space_blank s : Text.skip_space (" " ++ s) = Text.skip_space s.
Proof. reflexivity. Qed.

(** X24.  The same for the gyroscope and the accelerometer, whose file
    holds three numbers: saving three [int] values and reading the file
    back returns 0 and stores the three values in entries 0 to 2. *)
Theorem triple_calibration_round_trip (hdr : Header) (writable : string -> bool)
    (type : Z) (path : string) (a b c : Z) (str dst : list Z) (fs : Files) :
  type = tag hdr CW_GYRO \/ type = tag hdr CW_ACCELERATION ->
  writable path = true ->
  str !! 0%nat = Some a -> str !! 1%nat = Some b -> str !! 2%nat = Some c ->
  - 2 ^ 31 <= a < 2 ^ 31 -> - 2 ^ 31 <= b < 2 ^ 31 -> - 2 ^ 31 <= c < 2 ^ 31 ->
  (3 <= length dst)%nat ->
  exists fs',
    Calibrator.cw_save_calibrator_file hdr writable type path str fs = Some fs'
    /\ Calibrator.cw_read_calibrator_file hdr type path dst fs'
       = Some (0, a :: b :: c :: drop 3 dst)
    /\ (forall p, p <> path -> fs' !! p = fs !! p).
Proof.
  intros Htype Hw Ha Hb Hc Ia Ib Ic Hdst.
  assert (Ekind : (type =? tag hdr CW_GYRO) || (type =? tag hdr CW_ACCELERATION) = true).
  { destruct Htype as [-> | ->]; rewrite Z.eqb_refl; [reflexivity | apply orb_true_r]. }
  assert (Hint : forall v, - 2 ^ 31 <= v < 2 ^ 31 -> Text.in_int v = true).
  { intros v [Hlo Hhi]. apply andb_true_iff.
    split; [now apply Z.leb_le | now apply Z.ltb_lt]. }
  unfold Calibrator.cw_save_calibrator_file, Calibrator.cw_read_calibrator_file.
  rewrite Hw, Ekind, Ha, Hb, Hc.
  eexists. split; [reflexivity|]. rewrite lookup_insert_eq. split.
  - destruct dst as [|d0 [|d1 [|d2 dst]]]; simpl in Hdst; try lia.
    cbn [Calibrator.fscanf_ints].
    rewrite scan_print by reflexivity.
    unfold Calibrator.store at 1. rewrite (Hint a Ia). cbn -[Text.scan_int Text.print_int].
    rewrite skip_space_blank, skip_space_print, scan_print by reflexivity.
    unfold Calibrator.store at 1. rewrite (Hint b Ib). cbn -[Text.scan_int Text.print_int].
    rewrite skip_space_blank, skip_space_print, scan_print by reflexivity.
    unfold Calibrator.store at 1. rewrite (Hint c Ic). cbn -[Text.scan_int Text.print_int].
    reflexivity.
  - intros p Hp. now apply lookup_insert_ne.
Qed.

Lemma triple_calibration_round_trip_witness :
  exists fs',
    Calibrator.cw_save_calibrator_file Sample.hdr all_writable 0 "acc.ini" [-7; 0; 2147483647] ∅
    = Some fs'
    /\ Calibrator.cw_read_calibrator_file Sample.hdr 0 "acc.ini" [1; 2; 3; 4] fs'
       = Some (0, [-7; 0; 2147483647; 4]).
Proof.
  destruct (triple_calibration_round_trip Sample.hdr all_writable 0 "acc.ini"
              (-7) 0 2147483647 [-7; 0; 2147483647] [1; 2; 3; 4] ∅)
    as (fs' & Hsave & Hread & _); try reflexivity; try lia.
  - now right.
  - simpl. lia.
  - exists fs'. split; [exact Hsave | exact Hread].
Defined.

(** X25.  What [cw_read_calibrator_file] answers when there is nothing
    to read.  A missing file gives [-1] and stores nothing.  For the
    gyroscope and the accelerometer every file that exists gives 0, also one
    that holds no number, in which case nothing is stored.  For the compass
    (and an array that is not empty) a file that starts with something that
    is no number gives 0, the value of success, with nothing stored, and an
    empty or blank file gives [EOF].  For any other kind an existing file gives 0 and is not read. *)
Theorem calibration_read_edges (hdr : Header) (type : Z) (path : string)
    (dst : list Z) (fs : Files) :
  (fs !! path = None ->
     Calibrator.cw_read_calibrator_file hdr type path dst fs = Some (-1, dst))
  /\ (forall content,
        fs !! path = Some content ->
        type = tag hdr CW_GYRO \/ type = tag hdr CW_ACCELERATION ->
        (Calibrator.cw_read_calibrator_file hdr type path dst fs = None
         \/ exists out, Calibrator.cw_read_calibrator_file hdr type path dst fs
                        = Some (0, out))
        /\ (Text.scan_int content = Text.Mismatch \/ Text.scan_int content = Text.InputEnd ->
            Calibrator.cw_read_calibrator_file hdr type path dst fs = Some (0, dst)))
  /\ (forall content,
        fs !! path = Some content ->
        type = tag hdr CW_MAGNETIC ->
        dst <> [] ->
        (Text.scan_int content = Text.Mismatch ->
           Calibrator.cw_read_calibrator_file hdr type path dst fs = Some (0, dst))
        /\ (Text.scan_int content = Text.InputEnd ->
            Calibrator.cw_read_calibrator_file hdr type path dst fs
            = Some (Calibrator.EOF, dst)))
  /\ (forall content,
        fs !! path = Some content ->
        type <> tag hdr CW_GYRO -> type <> tag hdr CW_ACCELERATION ->
        type <> tag hdr CW_MAGNETIC ->
        Calibrator.cw_read_calibrator_file hdr type path dst fs = Some (0, dst)).
Proof.
  unfold Calibrator.cw_read_calibrator_file.
  split; [now intros ->|]. split; [|split].
  - intros content -> Htype.
    assert (Ekind : (type =? tag hdr CW_GYRO) || (type =? tag hdr CW_ACCELERATION) = true).
    { destruct Htype as [-> | ->]; rewrite Z.eqb_refl; [reflexivity | apply orb_true_r]. }
    rewrite Ekind. split.
    + destruct (Calibrator.fscanf_ints content dst 0 3); [right; now eexists | now left].
    + simpl. intros [-> | ->]; reflexivity.
  - intros content -> -> Hdst. rewrite compass_is_no_other_kind, Z.eqb_refl.
    destruct dst as [|d dst']; [contradiction|].
    simpl. split; intros ->; reflexivity.
  - intros content -> Hg Ha Hm.
    now rewrite (proj2 (Z.eqb_neq _ _) Hg), (proj2 (Z.eqb_neq _ _) Ha),
      (proj2 (Z.eqb_neq _ _) Hm).
Qed.

Lemma calibration_read_edges_witness :
  Calibrator.cw_read_calibrator_file Sample.hdr 1 "mag.ini" [5; 6; 7] ∅ = Some (-1, [5; 6; 7])
  /\ Calibrator.cw_read_calibrator_file Sample.hdr 1 "mag.ini" [5; 6; 7]
       {[ "mag.ini" := "none" ]} = Some (0, [5; 6; 7])
  /\ Calibrator.cw_read_calibrator_file Sample.hdr 0 "acc.ini" [5; 6; 7]
       {[ "acc.ini" := "" ]} = Some (0, [5; 6; 7]).
Proof.
  split; [|split].
  - apply calibration_read_edges. reflexivity.
  - apply (proj1 (proj2 (proj2 (calibration_read_edges Sample.hdr 1 "mag.ini" [5; 6; 7]
                                  {[ "mag.ini" := "none" ]}))) "none");
      first [reflexivity | discriminate].
  - apply (proj1 (proj2 (calibration_read_edges Sample.hdr 0 "acc.ini" [5; 6; 7]
                           {[ "acc.ini" := "" ]})) "").
    + reflexivity.
    + now right.
    + now right.
Defined.

(** X26.  What [cw_save_calibrator_file] does at the edges.  When the
    file cannot be opened for writing, nothing changes.  For a kind other
    than gyroscope, accelerometer and compass the file is created or
    emptied and nothing is written, so a compass read of it gives [EOF].
    For the compass an array of fewer than 26 entries is read beyond its
    end. *)
Theorem calibration_save_edges (hdr : Header) (writable : string -> bool)
    (type : Z) (path : string) (str : list Z) (fs : Files) :
  (writable path = false ->
     Calibrator.cw_save_calibrator_file hdr writable type path str fs = Some fs)
  /\ (writable path = true ->
      type <> tag hdr CW_GYRO -> type <> tag hdr CW_ACCELERATION ->
      type <> tag hdr CW_MAGNETIC ->
      str <> [] ->
      Calibrator.cw_save_calibrator_file hdr writable type path str fs
      = Some (<[path := EmptyString]> fs)
      /\ Calibrator.cw_read_calibrator_file hdr (tag hdr CW_MAGNETIC) path str
           (<[path := EmptyString]> fs) = Some (Calibrator.EOF, str))
  /\ (writable path = true ->
      type = tag hdr CW_MAGNETIC ->
      (length str < 26)%nat ->
      Calibrator.cw_save_calibrator_file hdr writable type path str fs = None).
Proof.
  unfold Calibrator.cw_save_calibrator_file, Calibrator.cw_read_calibrator_file.
  split; [now intros ->|]. split.
  - intros -> Hg Ha Hm Hstr.
    rewrite (proj2 (Z.eqb_neq _ _) Hg), (proj2 (Z.eqb_neq _ _) Ha),
      (proj2 (Z.eqb_neq _ _) Hm).
    split; [reflexivity|].
    rewrite lookup_insert_eq, compass_is_no_other_kind, Z.eqb_refl.
    now destruct str.
  - intros -> -> Hlen. rewrite compass_is_no_other_kind, Z.eqb_refl.
    change Calibrator.COMPASS_CALIBRATION_DATA_SIZE with 26%nat.
    enough (H : forall todo i, (i <= length str < i + todo)%nat ->
                Calibrator.fprintf_compass str i todo = None)
      by (rewrite H; [reflexivity | simpl; lia]).
    induction todo as [|todo IH]; intros i Hi; [lia|]. simpl.
    destruct (str !! i) eqn:E; [|reflexivity].
    apply lookup_lt_Some in E. rewrite IH by lia. reflexivity.
Qed.

Lemma calibration_save_edges_witness :
  Calibrator.cw_save_calibrator_file Sample.hdr read_only 1 "mag.ini" [1; 2; 3] ∅ = Some ∅
  /\ Calibrator.cw_save_calibrator_file Sample.hdr all_writable 1 "mag.ini" [1; 2; 3] ∅ = None.
Proof.
  split.
  - apply calibration_save_edges. reflexivity.
  - apply calibration_save_edges; [reflexivity | reflexivity | simpl; lia].
Defined.

(** ** Strings *)

Section Strings.

Local Open Scope nat_scope.

Lemma length_append (s1 s2 : string) :
  String.length (s1 ++ s2) = String.length s1 + String.length s2.
Proof. induction s1 as [|c s1 IH]; simpl; [reflexivity | now rewrite IH]. Qed.

Lemma prefix_append (s1 s2 : string) : String.prefix s1 (s1 ++ s2) = true.
Proof.
  induction s1 as [|c s1 IH]; simpl; [now destruct s2|].
  destruct (ascii_dec c c); [exact IH | contradiction].
Qed.

Lemma substring_all (s : string) (n : nat) :
  String.length s <= n -> substring 0 n s = s.
Proof.
  revert n. induction s as [|c s IH]; intros n Hn; simpl.
  - now destruct n.
  - destruct n as [|n]; simpl in *; [lia|]. rewrite IH by lia. reflexivity.
Qed.

Lemma substring_tail (s1 s2 : string) :
  substring (String.length s1) (String.length s2) (s1 ++ s2) = s2.
Proof.
  induction s1 as [|c s1 IH]; simpl; [now apply substring_all | exact IH].
Qed.

Lemma length_substring (s : string) (n : nat) :
  String.length (substring 0 n s) = Nat.min n (String.length s).
Proof.
  revert n. induction s as [|c s IH]; intros n; simpl.
  - now destruct n.
  - destruct n as [|n]; simpl; [reflexivity | now rewrite IH].
Qed.

Lemma get_append_tail (s1 s2 : string) (k : nat) :
  String.get (String.length s1 + k) (s1 ++ s2) = String.get k s2.
Proof. induction s1 as [|c s1 IH]; simpl; [reflexivity | exact IH]. Qed.

Lemma get_outside (s : string) (k : nat) :
  String.length s <= k -> String.get k s = None.
Proof.
  revert k. induction s as [|c s IH]; intros k Hk; simpl; [reflexivity|].
  destruct k as [|k]; simpl in *; [lia|]. apply IH. lia.
Qed.

Lemma append_nil_r (s : string) : (s ++ "")%string = s.
Proof.
  induction s as [|c s IH]; [reflexivity|].
  change (String c s ++ "")%string with (String c (s ++ "")). now rewrite IH.
Qed.

End Strings.

Section IioFacts.

Import Text Iio.

Local Open Scope nat_scope.

Lemma prefix_substring (s1 : string) : forall (s2 : string) (m : nat),
  String.prefix s1 s2 = true -> String.length s1 <= m ->
  String.prefix s1 (substring 0 m s2) = true.
Proof.
  induction s1 as [|a s1 IH]; intros s2 m Hp Hm;
    [now destruct (substring 0 m s2)|].
  destruct s2 as [|b s2]; [discriminate Hp|].
  destruct m as [|m]; [simpl in Hm; lia|]. simpl in *.
  destruct (ascii_dec a b); [|discriminate Hp]. apply IH; [exact Hp | lia].
Qed.

Lemma digits_get s : forall k c,
  digits s = true -> String.get k s = Some c -> isdigit c = true.
Proof.
  induction s as [|a s IH]; intros k c Hd Hk; [discriminate Hk|].
  simpl in Hd. apply andb_true_iff in Hd as [Ha Hs].
  destruct k as [|k]; simpl in Hk; [now injection Hk as <- | now apply (IH k)].
Qed.

(** A printed number consists of digits, after a minus sign if any. *)
Lemma print_int_chars z k c :
  String.get k (print_int z) = Some c -> isdigit c = true \/ c = "-"%char.
Proof.
  unfold print_int.
  assert (H : forall u j, String.get j (NilZero.string_of_uint u) = Some c ->
                          isdigit c = true).
  { intros u j Hj. destruct u;
      try (eapply digits_get; [apply digits_string_of_uint | exact Hj]).
    destruct j as [|[|j]]; simpl in Hj; [now injection Hj as <- | discriminate..]. }
  destruct z as [|p|p]; simpl Z.to_int; simpl NilZero.string_of_int; intros Hk.
  - left. exact (H Decimal.zero k Hk).
  - left. exact (H (Pos.to_uint p) k Hk).
  - destruct k as [|k]; simpl in Hk; [right; now injection Hk as <-|].
    left. exact (H (Pos.to_uint p) k Hk).
Qed.

Lemma print_int_nonempty z : 1 <= String.length (print_int z).
Proof.
  unfold print_int. destruct z as [|p|p]; simpl; try lia.
  pose proof (to_uint_nonnil p) as Hp. destruct (Pos.to_uint p); simpl; lia.
Qed.

Lemma not_a_colon c : isdigit c = true \/ c = "-"%char -> Ascii.eqb c ":" = false.
Proof.
  intros [H| ->]; [|reflexivity].
  destruct (Ascii.eqb_spec c ":") as [->|]; [discriminate H | reflexivity].
Qed.

Lemma not_a_dot c : isdigit c = true \/ c = "-"%char -> c <> "."%char.
Proof. intros [H| ->] E; [subst c; discriminate H | discriminate E]. Qed.

(** An entry made of [type] and a printed number is looked at. *)
Lemma candidate_numbered type z : candidate type (type ++ print_int z) = true.
Proof.
  unfold candidate.
  pose proof (print_int_nonempty z) as Hlen.
  assert (Hdot : forall dots, (forall k c, String.get k dots = Some c -> c = "."%char) ->
                              (type ++ print_int z)%string <> dots).
  { intros dots Hdots E.
    destruct (print_int z) as [|c s] eqn:Ep; [simpl in Hlen; lia|].
    assert (Hc : String.get 0 (print_int z) = Some c) by now rewrite Ep.
    apply print_int_chars in Hc. apply not_a_dot in Hc. apply Hc.
    apply (Hdots (String.length type + 0)).
    rewrite <- E, get_append_tail. reflexivity. }
  rewrite (proj2 (String.eqb_neq _ ".")), (proj2 (String.eqb_neq _ "..")).
  - rewrite prefix_append, length_append.
    now replace (_ <? _) with true by (symmetry; apply Nat.ltb_lt; lia).
  - apply Hdot. intros [|[|k]] c Hk; simpl in Hk; [now injection Hk..|discriminate Hk].
  - apply Hdot. intros [|k] c Hk; simpl in Hk; [now injection Hk|discriminate Hk].
Qed.

(** What [sscanf] makes of the rest of such an entry. *)
Lemma sscanf_numbered type z :
  sscanf_int (substring (String.length type)
                (String.length (type ++ print_int z) - String.length type)
                (type ++ print_int z))
  = (1%Z, Some z).
Proof.
  rewrite length_append. replace (_ + _ - _) with (String.length (print_int z)) by lia.
  rewrite substring_tail. unfold sscanf_int.
  rewrite <- (append_nil_r (print_int z)), scan_print by exact I. reflexivity.
Qed.

(** Entries the loop does not look at are passed over. *)
Lemma scan_devices_skip malloc read name type fs number k skipped entries :
  Forall (fun e => candidate type e = false) skipped ->
  scan_devices malloc read name type fs number k (skipped ++ entries)
  = scan_devices malloc read name type fs number (k + length skipped) entries.
Proof.
  intros H. revert k. induction H as [|e skipped He _ IH]; intros k.
  - simpl. now rewrite Nat.add_0_r.
  - simpl. rewrite He, IH. f_equal. lia.
Qed.

End IioFacts.

(** The sysfs tree of a board with one sensor hub. *)
Definition board (n : Z) : Files :=
  {[ ("/sys/bus/iio/devices/iio:device" ++ Text.print_int n ++ "/name")%string
     := String.append "CwMcuSensor" (String Text.newline "") ]}.

Example find_device_3 :
  Iio.find_type_by_name Iio.granted Iio.readable "CwMcuSensor" "iio:device"
    (Some ["."; ".."; "trigger0"; "iio:device3"]) (board 3) = Some 3.
Proof. vm_compute. reflexivity. Qed.

Example find_device_12 :
  Iio.find_type_by_name Iio.granted Iio.readable "CwMcuSensor" "iio:device"
    (Some ["."; ".."; "iio:device12"]) (board 12) = Some (-19).
Proof. vm_compute. reflexivity. Qed.

Example find_device_no_memory :
  Iio.find_type_by_name (fun k _ => negb (k =? 3)%nat) Iio.readable "CwMcuSensor"
    "iio:device" (Some ["."; ".."; "trigger0"; "iio:device3"]) (board 3) = Some (-12).
Proof. vm_compute. reflexivity. Qed.

Section IioSearch.

Import Text Iio.

Local Open Scope nat_scope.

(** The entry [e] is looked at and its name holds the number [r]. *)
Definition numbered (type : string) (r : Z) (e : string) : Prop :=
  candidate type e = true
  /\ exists rest,
       scan_int (substring (String.length type) (String.length e - String.length type) e)
       = Converted r rest.

(** The loop returns [-ENODEV], [-ENOMEM] after an allocation that failed,
    the number it holds, or a number converted from the name of an entry it
    looked at. *)
Lemma scan_devices_result malloc read name type fs entries : forall number k r,
  scan_devices malloc read name type fs number k entries = Some r ->
  r = (- ENODEV)%Z
  \/ (r = (- ENOMEM)%Z /\ exists j size, k <= j < k + length entries /\ malloc j size = false)
  \/ number = Some r
  \/ exists e, In e entries /\ numbered type r e.
Proof.
  induction entries as [|e entries IH]; intros number k r Hrun; simpl in Hrun.
  - left. now injection Hrun as <-.
  - assert (Hlater : forall number',
              scan_devices malloc read name type fs number' (S k) entries = Some r ->
              number' = number \/ (exists z, number' = Some z /\ numbered type z e) ->
              r = (- ENODEV)%Z
              \/ (r = (- ENOMEM)%Z
                  /\ exists j size, k <= j < k + length (e :: entries)
                                    /\ malloc j size = false)
              \/ number = Some r
              \/ exists e', In e' (e :: entries) /\ numbered type r e').
    { intros number' Hrest Hnum.
      destruct (IH _ _ _ Hrest) as [H|[(H & j & size & Hj & Hm)|[H|(e' & Hin & He')]]].
      - now left.
      - right. left. split; [exact H|]. exists j, size. split; [simpl; lia | exact Hm].
      - destruct Hnum as [->|(z & Hz & He)]; [right; right; now left|].
        right. right. right. exists e. split; [now left|]. congruence.
      - right. right. right. exists e'. split; [now right | exact He']. }
    destruct (candidate type e) eqn:Hc;
      [|apply (Hlater number); [exact Hrun | now left]].
    destruct (sscanf_int _) as [numstrlen converted] eqn:Hscan.
    remember (match converted with Some z => Some z | None => number end)
      as number' eqn:Enum.
    assert (Hnum : number' = number \/ exists z, number' = Some z /\ numbered type z e).
    { destruct converted as [z|]; [|now left]. right. exists z.
      split; [exact Enum|]. split; [exact Hc|].
      unfold sscanf_int in Hscan.
      destruct (scan_int _) as [z' rest| |]; try discriminate Hscan.
      injection Hscan as _ ->. now exists rest. }
    destruct (_ || _); [discriminate Hrun|].
    destruct (match String.get _ e with Some c => _ | None => true end);
      [|now apply (Hlater number')].
    destruct (malloc k _) eqn:Hm; simpl in Hrun.
    2:{ injection Hrun as <-. right. left. split; [reflexivity|].
        eexists k, _. split; [simpl; lia | exact Hm]. }
    destruct number' as [num|] eqn:Enum'; [|discriminate Hrun].
    destruct (fs !! _) as [content|]; [|now apply (Hlater (Some num))].
    destruct (read k _); simpl in Hrun; [|discriminate Hrun].
    destruct (_ <? _); [now apply (Hlater (Some num))|].
    destruct (negb _); [now apply (Hlater (Some num))|].
    destruct (match String.get _ _ with Some c => _ | None => true end);
      [|now apply (Hlater (Some num))].
    injection Hrun as <-.
    destruct Hnum as [<-|(z & Hz & He)]; [right; right; now left|].
    right. right. right. exists e. split; [now left|]. congruence.
Qed.

End IioSearch.

(** X27.  [find_type_by_name] answers [-ERANGE] to a name of 29
    characters or more, before it looks at the directory, and [-ENODEV]
    when the directory cannot be opened or holds no entry longer than
    [type] that starts with it.  Whatever else it returns is [-ENOMEM],
    after a [malloc] that failed, or a number converted from the name of
    such an entry. *)
Theorem find_type_by_name_results (malloc : nat -> nat -> bool)
    (read : nat -> string -> bool) (name type : string)
    (dir : option (list string)) (fs : Files) :
  ((Iio.IIO_MAX_NAME_LENGTH - 1 <= String.length name)%nat ->
     Iio.find_type_by_name malloc read name type dir fs = Some (- Iio.ERANGE))
  /\ ((String.length name < Iio.IIO_MAX_NAME_LENGTH - 1)%nat ->
      (dir = None ->
         Iio.find_type_by_name malloc read name type dir fs = Some (- Iio.ENODEV))
      /\ (forall entries,
            dir = Some entries ->
            Forall (fun e => Iio.candidate type e = false) entries ->
            Iio.find_type_by_name malloc read name type dir fs = Some (- Iio.ENODEV))
      /\ (forall entries r,
            dir = Some entries ->
            Iio.find_type_by_name malloc read name type dir fs = Some r ->
            r = - Iio.ENODEV
            \/ (r = - Iio.ENOMEM
                /\ exists k size, (k < length entries)%nat /\ malloc k size = false)
            \/ exists e rest,
                 In e entries /\ Iio.candidate type e = true
                 /\ Text.scan_int (substring (String.length type)
                                     (String.length e - String.length type) e)
                    = Text.Converted r rest)).
Proof.
  unfold Iio.find_type_by_name. split.
  - intros H. now replace (_ <=? _)%nat with true by (symmetry; apply Nat.leb_le; lia).
  - intros H. replace (_ <=? _)%nat with false by (symmetry; apply Nat.leb_gt; lia).
    split; [now intros ->|]. split.
    + intros entries -> Hnone.
      rewrite <- (app_nil_r entries). now rewrite scan_devices_skip.
    + intros entries r -> Hrun.
      destruct (scan_devices_result _ _ _ _ _ _ _ _ _ Hrun)
        as [Hr|[(Hr & k & size & Hk & Hm)|[Hr|(e & Hin & Hc & rest & Hscan)]]].
      * now left.
      * right. left. split; [exact Hr|]. exists k, size. split; [lia | exact Hm].
      * discriminate Hr.
      * right. right. now exists e, rest.
Qed.

Lemma find_type_by_name_results_witness :
  Iio.find_type_by_name Iio.granted Iio.readable "CwMcuSensor" "iio:device"
    (Some ["."; ".."; "trigger0"]) (board 0)
  = Some (-19).
Proof.
  destruct (find_type_by_name_results Iio.granted Iio.readable "CwMcuSensor" "iio:device"
              (Some ["."; ".."; "trigger0"]) (board 0)) as [_ H].
  destruct H as (_ & Hnone & _); [simpl; lia|].
  apply (Hnone ["."; ".."; "trigger0"] eq_refl).
  repeat (apply Forall_cons; split; [reflexivity|]). apply Forall_nil_2.
Defined.

(** X28.  [find_type_by_name] finds a device whose number prints as
    one character: when the first entry it looks at is [type] followed by
    that number, the buffer for the path is allocated, and the file [name]
    of that device is read and holds [name], followed by nothing, a NUL or
    white space, it returns the number. *)
Theorem find_type_by_name_finds_one_digit (malloc : nat -> nat -> bool)
    (read : nat -> string -> bool) (name type : string) (n : Z)
    (skipped later : list string) (rest : string) (fs : Files) :
  (String.length name < Iio.IIO_MAX_NAME_LENGTH - 1)%nat ->
  Forall (fun e => Iio.candidate type e = false) skipped ->
  - 2 ^ 31 <= n < 2 ^ 31 ->
  String.length (Text.print_int n) = 1%nat ->
  let path := (Iio.iio_dir ++ type ++ Text.print_int n ++ "/name")%string in
  malloc (length skipped) (String.length path + 1)%nat = true ->
  fs !! path = Some (name ++ rest)%string ->
  read (length skipped) path = true ->
  match rest with
  | EmptyString => True
  | String c _ => c = Text.NUL \/ Text.isspace c = true
  end ->
  Iio.find_type_by_name malloc read name type
    (Some (skipped ++ (type ++ Text.print_int n)%string :: later)) fs = Some n.
Proof.
  intros Hname Hskip Hint Hone path Hmem Hfile Hread Hend.
  unfold Iio.find_type_by_name, Iio.IIO_MAX_NAME_LENGTH in *.
  replace (_ <=? _)%nat with false by (symmetry; apply Nat.leb_gt; lia).
  rewrite scan_devices_skip by exact Hskip. simpl Nat.add.
  cbn [Iio.scan_devices]. rewrite candidate_numbered, sscanf_numbered.
  replace (Text.in_int n) with true
    by (symmetry; apply andb_true_iff; split; [apply Z.leb_le | apply Z.ltb_lt]; lia).
  replace (Z.of_nat (String.length type) + 1 <? 0) with false
    by (symmetry; apply Z.ltb_ge; lia).
  cbn [negb orb].
  replace (Z.to_nat (Z.of_nat (String.length type) + 1))
    with (String.length type + 1)%nat by lia.
  rewrite get_append_tail, get_outside by lia.
  assert (Hsize : Z.to_nat (Z.of_nat (String.length Iio.iio_dir)
                            + Z.of_nat (String.length type) + 1 + 6)
                  = (String.length path + 1)%nat).
  { unfold path. rewrite !length_append, Hone. simpl. lia. }
  rewrite Hsize, Hmem. cbn [negb].
  assert (Hpath : Iio.name_file (String.length path + 1) type n = path).
  { unfold Iio.name_file. apply substring_all. fold path. lia. }
  rewrite Hpath, Hfile, Hread. cbn [negb]. unfold Iio.IIO_MAX_NAME_LENGTH in *.
  match goal with
  | |- context [(String.length ?t <? String.length name)%nat] =>
      assert (Hlen : (String.length name <= String.length t)%nat)
        by (rewrite length_substring, length_append; lia);
      replace (String.length t <? String.length name)%nat with false
        by (symmetry; apply Nat.ltb_ge; exact Hlen)
  end.
  rewrite prefix_substring by (first [apply prefix_append | lia]).
  cbn [negb].
  match goal with
  | |- context [String.get (String.length name) ?t] =>
      assert (Hterm : match String.get (String.length name) t with
                      | Some c => Ascii.eqb c Text.NUL || Text.isspace c
                      | None => true
                      end = true)
  end.
  { rewrite substring_correct1 by lia.
    rewrite Nat.add_0_r, <- (Nat.add_0_r (String.length name)), get_append_tail.
    destruct rest as [|c r]; [reflexivity|]. simpl.
    destruct Hend as [->|Hs]; [reflexivity | rewrite Hs; apply orb_true_r]. }
  now rewrite Hterm.
Qed.

Lemma find_type_by_name_finds_one_digit_witness :
  Iio.find_type_by_name Iio.granted Iio.readable "CwMcuSensor" "iio:device"
    (Some (["."; ".."; "trigger0"] ++ ("iio:device" ++ Text.print_int 3)%string :: []))
    (board 3) = Some 3.
Proof.
  apply (find_type_by_name_finds_one_digit Iio.granted Iio.readable
           "CwMcuSensor" "iio:device" 3
           ["."; ".."; "trigger0"] [] (String Text.newline "")).
  - simpl. lia.
  - repeat (apply Forall_cons; split; [reflexivity|]). apply Forall_nil_2.
  - lia.
  - reflexivity.
  - reflexivity.
  - reflexivity.
  - reflexivity.
  - right. reflexivity.
Defined.

(** X29.  [find_type_by_name] cannot find a device whose number
    prints as two characters or more.  The size of the buffer for the path
    counts one character for the number, so [snprintf] cuts the path short:
    the file that is opened is not the [name] file of the device, and when
    no file of the shortened name exists the answer, with that device alone
    in the directory, is [-ENODEV] (or [-ENOMEM], when the buffer could not
    be allocated). *)
Theorem find_type_by_name_misses_two_digits (malloc : nat -> nat -> bool)
    (read : nat -> string -> bool) (name type : string) (n : Z) (fs : Files) :
  (String.length name < Iio.IIO_MAX_NAME_LENGTH - 1)%nat ->
  - 2 ^ 31 <= n < 2 ^ 31 ->
  (2 <= String.length (Text.print_int n))%nat ->
  let full := (Iio.iio_dir ++ type ++ Text.print_int n ++ "/name")%string in
  let size := (String.length Iio.iio_dir + String.length type + 1 + 6)%nat in
  let cut := substring 0 (size - 1) full in
  cut <> full
  /\ (fs !! cut = None ->
      Iio.find_type_by_name malloc read name type
        (Some [(type ++ Text.print_int n)%string]) fs
      = Some (if malloc 0%nat size then - Iio.ENODEV else - Iio.ENOMEM)).
Proof.
  intros Hname Hint Htwo full size cut. split.
  - intros E. apply (f_equal String.length) in E. unfold cut, size, full in E.
    rewrite length_substring, !length_append in E. simpl in E. lia.
  - intros Hnone. unfold Iio.find_type_by_name.
    replace (_ <=? _)%nat with false by (symmetry; apply Nat.leb_gt; lia).
    cbn [Iio.scan_devices]. rewrite candidate_numbered, sscanf_numbered.
    replace (Text.in_int n) with true
      by (symmetry; apply andb_true_iff; split; [apply Z.leb_le | apply Z.ltb_lt]; lia).
    replace (Z.of_nat (String.length type) + 1 <? 0) with false
      by (symmetry; apply Z.ltb_ge; lia).
    cbn [negb orb].
    replace (Z.to_nat (Z.of_nat (String.length type) + 1))
      with (String.length type + 1)%nat by lia.
    rewrite get_append_tail.
    assert (Hcheck : match String.get 1 (Text.print_int n) with
                     | Some c => negb (Ascii.eqb c ":")
                     | None => true
                     end = true).
    { destruct (String.get 1 (Text.print_int n)) as [c|] eqn:Hc; [|reflexivity].
      apply print_int_chars, not_a_colon in Hc. now rewrite Hc. }
    rewrite Hcheck.
    replace (Z.to_nat (Z.of_nat (String.length Iio.iio_dir)
                       + Z.of_nat (String.length type) + 1 + 6)) with size
      by (unfold size; lia).
    destruct (malloc 0%nat size); cbn [negb]; [|reflexivity].
    replace (Iio.name_file size type n) with cut by reflexivity.
    now rewrite Hnone.
Qed.

Lemma find_type_by_name_misses_two_digits_witness :
  Iio.find_type_by_name Iio.granted Iio.readable "CwMcuSensor" "iio:device"
    (Some [("iio:device" ++ Text.print_int 12)%string]) (board 12) = Some (-19).
Proof.
  apply (find_type_by_name_misses_two_digits Iio.granted Iio.readable
           "CwMcuSensor" "iio:device" 12 (board 12)).
  - simpl. lia.
  - lia.
  - simpl. lia.
  - reflexivity.
Defined.
